(** * A CPU/GPU stress tool: coordinator, workers and their matrices

    The program under study (main.py) starts [NUM_CPU_THREADS] threads running
    [cpu_stress] and one thread running [gpu_stress], joins them all and
    prints a completion line.  Each worker prints a banner, allocates two
    random square matrices, computes a deadline from the wall clock and then
    multiplies the matrices until the clock passes the deadline.

    The development has three layers:
    - the array operations the program calls (numpy and TensorFlow), as
      executable functions over an arbitrary element type;
    - [tf.function], as a trace cache in front of a symbolic execution of the
      decorated Python body;
    - the threads, as a program-counter machine driven by a schedule: each
      entry of the schedule names who runs next and how much wall-clock time
      elapsed before that.

    What the model leaves out.  Wall-clock time is an integer number of
    clock units and never runs backwards; the rounding of floating-point
    arithmetic is not modelled, which is why the element type of the
    matrices is a parameter; a statement of the program is one step of the
    machine, the time it takes being the time that elapses before the next
    step; memory is unbounded, so an allocation fails only on its
    arguments; a printed line reaches the output in one piece.

    The file gives the definitions first, then the notions the statements
    use, the invariants of the machine, the properties of the specification
    (C1 to C10), further properties of the program (X1 to X15: how long a
    run lasts, termination, the coordinator's handles, what a negative size
    or a thread count of zero does, the products, the random numbers, the
    trace cache, and that the values in the arrays do not matter), and these
    properties on concrete runs. *)

From Stdlib Require Import ZArith String.
From stdpp Require Import base tactics option list numbers.

(** ** Settings (main.py, lines 6-9) *)

Record config := Config {
  TEST_DURATION_SECONDS : Z;
  TENSOR_SIZE : Z;
  NUM_CPU_THREADS : Z
}.

Definition default_config : config :=
  {| TEST_DURATION_SECONDS := 2 * 60 * 60;
     TENSOR_SIZE := 2048;
     NUM_CPU_THREADS := 4 |}.

(** ** Exceptions and results *)

Inductive exn :=
  | ValueError              (* numpy: negative dimensions, misaligned shapes *)
  | InvalidArgumentError    (* TensorFlow: bad shape or dtype at run time *)
  | UnboundLocalError.      (* a local read before its assignment *)

Inductive result (A : Type) :=
  | Ok (x : A)
  | Raise (e : exn).
Arguments Ok {A} x.
Arguments Raise {A} e.

Definition bind {A B} (r : result A) (k : A → result B) : result B :=
  match r with
  | Ok x => k x
  | Raise e => Raise e
  end.

(** ** Arrays *)

Inductive dtype := Float64 | Float32.

#[global] Instance dtype_eq_dec : EqDecision dtype.
Proof. solve_decision. Defined.

(** The arithmetic of the elements.  Nothing below depends on its laws. *)
Class Scalar (F : Type) := {
  fzero : F;
  fadd : F → F → F;
  fmul : F → F → F
}.

(** The two process-wide random generators, as the streams of the values
    they hand out: [uniform] for numpy's legacy generator behind
    [np.random.rand], [normal] for TensorFlow's behind [tf.random.normal]. *)
Class RandomSource (F : Type) := {
  uniform : nat → F;
  normal : nat → F
}.

Section Arrays.
Context {F : Type} `{!Scalar F, !RandomSource F}.

(** A two-dimensional array: its element type tag, its shape, its rows. *)
Record ndarray := NdArray {
  arr_dtype : dtype;
  nrows : nat;
  ncols : nat;
  rows : list (list F)
}.

(** The rows agree with the declared shape. *)
Definition well_shaped (m : ndarray) : Prop :=
  length (rows m) = nrows m ∧ Forall (λ r, length r = ncols m) (rows m).

Definition has_shape (m : ndarray) (r c : Z) : Prop :=
  Z.of_nat (nrows m) = r ∧ Z.of_nat (ncols m) = c ∧ well_shaped m.

Definition dot (u v : list F) : F :=
  foldr fadd fzero (zip_with fmul u v).

Definition column (j : nat) (m : list (list F)) : list F :=
  map (λ r, nth j r fzero) m.

(** The matrix product of row lists; [bc] is the column count of [b]. *)
Definition product (a b : list (list F)) (bc : nat) : list (list F) :=
  map (λ r, map (λ j, dot r (column j b)) (seq 0 bc)) a.

(** [r] rows of [c] values each, taken from the stream [src] at offset [k]. *)
Definition fill (src : nat → F) (r c k : nat) : list (list F) :=
  map (λ i, map (λ j, src (k + i * c + j)) (seq 0 c)) (seq 0 r).

(** Library model, [numpy.random.rand(d0, d1)]: a float64 array of the given
    shape filled from the generator; a negative dimension raises
    [ValueError], a zero dimension gives an empty array.  The second
    component is the generator position afterwards. *)
Definition np_random_rand (d0 d1 : Z) (k : nat) : result (ndarray * nat) :=
  if ((d0 <? 0) || (d1 <? 0))%Z then Raise ValueError
  else
    let r := Z.to_nat d0 in
    let c := Z.to_nat d1 in
    Ok (NdArray Float64 r c (fill uniform r c k), k + r * c).

(** Library model, [numpy.dot(a, b)] on two-dimensional arrays: the matrix
    product, a fresh array; misaligned shapes raise [ValueError]. *)
Definition np_dot (a b : ndarray) : result ndarray :=
  if decide (ncols a = nrows b) then
    Ok (NdArray (match arr_dtype a, arr_dtype b with
                 | Float32, Float32 => Float32
                 | _, _ => Float64
                 end)
                (nrows a) (ncols b) (product (rows a) (rows b) (ncols b)))
  else Raise ValueError.

(** Library model, [tf.random.normal(shape)] with its default
    [dtype=tf.float32]; a negative dimension raises
    [InvalidArgumentError]. *)
Definition tf_random_normal (shape : Z * Z) (k : nat) : result (ndarray * nat) :=
  let '(d0, d1) := shape in
  if ((d0 <? 0) || (d1 <? 0))%Z then Raise InvalidArgumentError
  else
    let r := Z.to_nat d0 in
    let c := Z.to_nat d1 in
    Ok (NdArray Float32 r c (fill normal r c k), k + r * c).

(** ** TensorFlow operations, eager and symbolic

    [tf.matmul] accepts concrete tensors (eager execution) and the symbolic
    tensors that stand for the arguments while [tf.function] traces a Python
    function. *)

Class TensorOps (T : Type) := {
  tf_matmul : T → T → result T
}.

(** Eager [tf.matmul]: both operands must have the same dtype and aligned
    shapes, else the kernel raises [InvalidArgumentError]. *)
Definition eager_matmul (a b : ndarray) : result ndarray :=
  if decide (arr_dtype a = arr_dtype b) then
    if decide (ncols a = nrows b) then
      Ok (NdArray (arr_dtype a) (nrows a) (ncols b)
                  (product (rows a) (rows b) (ncols b)))
    else Raise InvalidArgumentError
  else Raise InvalidArgumentError.

#[global] Instance eager_ops : TensorOps ndarray := {| tf_matmul := eager_matmul |}.

(** The signature of a tensor argument: dtype and static shape. *)
Definition tensor_spec : Type := dtype * nat * nat.

Definition spec_of (m : ndarray) : tensor_spec :=
  (arr_dtype m, nrows m, ncols m).

(** The operations of a traced graph. *)
Inductive graph :=
  | Placeholder (i : nat)
  | MatMul (x y : graph).

Record symbolic := Symbolic {
  sym_spec : tensor_spec;
  sym_node : graph
}.

(** Symbolic [tf.matmul]: shape inference runs at trace time and raises
    [ValueError] on a mismatch; otherwise a [MatMul] node is added. *)
Definition symbolic_matmul (x y : symbolic) : result symbolic :=
  let '(dx, rx, cx) := sym_spec x in
  let '(dy, ry, cy) := sym_spec y in
  if decide (dx = dy) then
    if decide (cx = ry) then
      Ok (Symbolic (dx, rx, cy) (MatMul (sym_node x) (sym_node y)))
    else Raise ValueError
  else Raise ValueError.

#[global] Instance symbolic_ops : TensorOps symbolic := {| tf_matmul := symbolic_matmul |}.

(** Running a traced graph of two arguments on concrete tensors. *)
Fixpoint run_graph (g : graph) (a b : ndarray) : result ndarray :=
  match g with
  | Placeholder 0 => Ok a
  | Placeholder 1 => Ok b
  | Placeholder _ => Raise InvalidArgumentError
  | MatMul x y =>
      bind (run_graph x a b) (λ vx,
      bind (run_graph y a b) (λ vy, eager_matmul vx vy))
  end.

(** ** [tf.function]

    The decorator wraps a Python function of two tensors into a callable
    that keeps a cache of traced graphs, one for each input signature.  A
    call looks its signature up; on a miss the Python function is run once on
    placeholders to build the graph (a trace), which is stored; then the
    graph is executed on the arguments. *)

Definition signature : Type := tensor_spec * tensor_spec.

Record traced_fn := TracedFn {
  fn_cache : list (signature * graph);
  fn_traces : nat                       (* how often the Python body ran *)
}.

Definition fresh_fn : traced_fn := TracedFn [] 0.

Fixpoint cache_lookup (sg : signature) (c : list (signature * graph)) : option graph :=
  match c with
  | [] => None
  | (s, g) :: c' => if decide (s = sg) then Some g else cache_lookup sg c'
  end.

Definition tf_function (py : ∀ T, TensorOps T → T → T → result T)
    (fn : traced_fn) (a b : ndarray) : traced_fn * result ndarray :=
  let sg := (spec_of a, spec_of b) in
  match cache_lookup sg (fn_cache fn) with
  | Some g => (fn, run_graph g a b)
  | None =>
      match py symbolic symbolic_ops
               (Symbolic (spec_of a) (Placeholder 0))
               (Symbolic (spec_of b) (Placeholder 1)) with
      | Ok out =>
          (TracedFn ((sg, sym_node out) :: fn_cache fn) (S (fn_traces fn)),
           run_graph (sym_node out) a b)
      | Raise e => (TracedFn (fn_cache fn) (S (fn_traces fn)), Raise e)
      end
  end.

(** ** GPU load function (main.py, lines 21-23)

    The Python body, generic in the kind of tensor it is run on, and the
    decorated callable. *)

Definition gpu_stress_step_py (T : Type) (ops : TensorOps T) (a b : T) : result T :=
  tf_matmul a b.

Definition gpu_stress_step : traced_fn → ndarray → ndarray → traced_fn * result ndarray :=
  tf_function gpu_stress_step_py.

(** ** Notions used in the statements about the arrays *)

Implicit Types (a b m : ndarray) (fn : traced_fn).

(** Whether [tf.matmul] accepts two tensors. *)
Definition compatible a b : Prop :=
  arr_dtype a = arr_dtype b ∧ ncols a = nrows b.

(** Every graph in the cache of [gpu_stress_step] is the one its body
    traces to, stored under a signature on which the body type-checks. *)
Definition cache_ok fn : Prop :=
  ∀ sa sb g, cache_lookup (sa, sb) (fn_cache fn) = Some g →
    g = MatMul (Placeholder 0) (Placeholder 1) ∧
    sa.1.1 = sb.1.1 ∧ sa.2 = sb.1.2.

(** The state of [gpu_stress_step] after a sequence of earlier calls. *)
Definition fn_after (calls : list (ndarray * ndarray)) : traced_fn :=
  foldl (λ fn ab, (gpu_stress_step fn ab.1 ab.2).1) fresh_fn calls.

End Arrays.

Arguments ndarray F : clear implicits.

(** ** Threads

    A worker thread is at one of the statements of its function; the program
    counters follow the lines of [cpu_stress] and [gpu_stress]. *)

Inductive kind := CPU | GPU.

Inductive pc :=
  | AtPrint                 (* print("[CPU] Starting CPU load...") *)
  | AtAllocA                (* a = np.random.rand(...) *)
  | AtAllocB                (* b = np.random.rand(...) *)
  | AtDeadline              (* end_time = time.time() + TEST_DURATION_SECONDS *)
  | AtCheck                 (* while time.time() < end_time: *)
  | AtMul                   (* _ = np.dot(a, b) *)
  | Returned                (* the function returned *)
  | Raised (e : exn).       (* an exception left the function: the thread is dead *)

(** A point of an execution: the number of the step and the clock then. *)
Definition stamp : Type := nat * Z.

(** The locals of a worker ([None] before their assignment), followed by
    what an observer records about it: when it was started, every value
    [time.time()] returned to it (latest first), how many products it
    completed, and when it terminated. *)
Record worker := Worker {
  w_kind : kind;
  w_pc : pc;
  w_a : option nat;
  w_b : option nat;
  w_end_time : option Z;
  w_last : option nat;
  w_started : Z;
  w_reads : list Z;
  w_iters : nat;
  w_exit : option stamp
}.

Definition new_worker (k : kind) (t : Z) : worker :=
  Worker k AtPrint None None None None t [] 0 None.

Definition goto (p : pc) (w : worker) : worker :=
  Worker (w_kind w) p (w_a w) (w_b w) (w_end_time w) (w_last w)
         (w_started w) (w_reads w) (w_iters w) (w_exit w).

Definition bind_a (r : nat) (w : worker) : worker :=
  Worker (w_kind w) (w_pc w) (Some r) (w_b w) (w_end_time w) (w_last w)
         (w_started w) (w_reads w) (w_iters w) (w_exit w).

Definition bind_b (r : nat) (w : worker) : worker :=
  Worker (w_kind w) (w_pc w) (w_a w) (Some r) (w_end_time w) (w_last w)
         (w_started w) (w_reads w) (w_iters w) (w_exit w).

Definition bind_end_time (e : Z) (w : worker) : worker :=
  Worker (w_kind w) (w_pc w) (w_a w) (w_b w) (Some e) (w_last w)
         (w_started w) (w_reads w) (w_iters w) (w_exit w).

(** [_ = product]: rebinding the variable and counting the iteration. *)
Definition bind_last (r : nat) (w : worker) : worker :=
  Worker (w_kind w) (w_pc w) (w_a w) (w_b w) (w_end_time w) (Some r)
         (w_started w) (w_reads w) (S (w_iters w)) (w_exit w).

Definition read_clock (t : Z) (w : worker) : worker :=
  Worker (w_kind w) (w_pc w) (w_a w) (w_b w) (w_end_time w) (w_last w)
         (w_started w) (t :: w_reads w) (w_iters w) (w_exit w).

Definition exit_at (s : stamp) (p : pc) (w : worker) : worker :=
  Worker (w_kind w) p (w_a w) (w_b w) (w_end_time w) (w_last w)
         (w_started w) (w_reads w) (w_iters w) (Some s).

Definition terminated (w : worker) : bool :=
  match w_pc w with
  | Returned | Raised _ => true
  | _ => false
  end.

(** The coordinator's program counter, along [main]. *)
Inductive mpc :=
  | MPrintStart             (* line 35 *)
  | MSpawnCpu (i : nat)     (* lines 39-42, iteration i *)
  | MSpawnGpu               (* lines 45-46 *)
  | MJoinCpu (i : nat)      (* lines 49-50, element i of cpu_threads *)
  | MJoinGpu                (* line 51 *)
  | MPrintDone              (* line 53 *)
  | MReturn                 (* leaving main *)
  | MExited.

(** What each array was allocated for. *)
Inductive role := MatA | MatB | Prod.

Section Machine.
Context {F : Type} `{!Scalar F, !RandomSource F}.

(** A cell of the object store: the array and, for the observer, the thread
    that allocated it, for which variable, and when. *)
Record cell := Cell {
  c_val : ndarray F;
  c_by : nat;
  c_role : role;
  c_at : Z
}.

Record state := State {
  now : Z;                       (* the wall clock *)
  steps : nat;                   (* steps taken so far *)
  stdout : list string;          (* the lines printed *)
  heap : list cell;              (* arrays, addressed by position *)
  np_draws : nat;                (* position of numpy's generator *)
  tf_draws : nat;                (* position of TensorFlow's generator *)
  step_fn : traced_fn;           (* the module-level gpu_stress_step object *)
  workers : list worker;         (* the threads started, by thread id *)
  m_pc : mpc;
  cpu_threads : list nat;        (* main's list of CPU thread handles *)
  gpu_thread : option nat;       (* main's GPU thread handle *)
  m_exit : option stamp          (* when main returned *)
}.

(** The process at its start, when the clock shows [t0]. *)
Definition init (t0 : Z) : state :=
  State t0 0 [] [] 0 0 fresh_fn [] MPrintStart [] None None.

(** Time passes and a step is counted.  The clock never runs backwards. *)
Definition elapse (dt : nat) (st : state) : state :=
  State (now st + Z.of_nat dt) (S (steps st)) (stdout st) (heap st)
        (np_draws st) (tf_draws st) (step_fn st) (workers st)
        (m_pc st) (cpu_threads st) (gpu_thread st) (m_exit st).

(** [print(s)]: one line is added to the output, in one piece. *)
Definition println (s : string) (st : state) : state :=
  State (now st) (steps st) (stdout st ++ [s]) (heap st)
        (np_draws st) (tf_draws st) (step_fn st) (workers st)
        (m_pc st) (cpu_threads st) (gpu_thread st) (m_exit st).

(** Store a new array; its address is the old length of the heap. *)
Definition store (c : cell) (st : state) : state :=
  State (now st) (steps st) (stdout st) (heap st ++ [c])
        (np_draws st) (tf_draws st) (step_fn st) (workers st)
        (m_pc st) (cpu_threads st) (gpu_thread st) (m_exit st).

Definition set_np_draws (k : nat) (st : state) : state :=
  State (now st) (steps st) (stdout st) (heap st)
        k (tf_draws st) (step_fn st) (workers st)
        (m_pc st) (cpu_threads st) (gpu_thread st) (m_exit st).

Definition set_tf_draws (k : nat) (st : state) : state :=
  State (now st) (steps st) (stdout st) (heap st)
        (np_draws st) k (step_fn st) (workers st)
        (m_pc st) (cpu_threads st) (gpu_thread st) (m_exit st).

Definition set_step_fn (fn : traced_fn) (st : state) : state :=
  State (now st) (steps st) (stdout st) (heap st)
        (np_draws st) (tf_draws st) fn (workers st)
        (m_pc st) (cpu_threads st) (gpu_thread st) (m_exit st).

Definition set_workers (ws : list worker) (st : state) : state :=
  State (now st) (steps st) (stdout st) (heap st)
        (np_draws st) (tf_draws st) (step_fn st) ws
        (m_pc st) (cpu_threads st) (gpu_thread st) (m_exit st).

Definition set_main (p : mpc) (st : state) : state :=
  State (now st) (steps st) (stdout st) (heap st)
        (np_draws st) (tf_draws st) (step_fn st) (workers st)
        p (cpu_threads st) (gpu_thread st) (m_exit st).

(** [t = threading.Thread(target=...); t.start()]: the new thread gets the
    next thread id. *)
Definition start_thread (k : kind) (st : state) : state :=
  set_workers (workers st ++ [new_worker k (now st)]) st.

Definition append_cpu_thread (tid : nat) (st : state) : state :=
  State (now st) (steps st) (stdout st) (heap st)
        (np_draws st) (tf_draws st) (step_fn st) (workers st)
        (m_pc st) (cpu_threads st ++ [tid]) (gpu_thread st) (m_exit st).

Definition set_gpu_thread (tid : nat) (st : state) : state :=
  State (now st) (steps st) (stdout st) (heap st)
        (np_draws st) (tf_draws st) (step_fn st) (workers st)
        (m_pc st) (cpu_threads st) (Some tid) (m_exit st).

Definition main_exit (st : state) : state :=
  State (now st) (steps st) (stdout st) (heap st)
        (np_draws st) (tf_draws st) (step_fn st) (workers st)
        MExited (cpu_threads st) (gpu_thread st) (Some (steps st, now st)).

(** [t.join()] returns once thread [t] is no longer alive. *)
Definition joinable (tid : nat) (st : state) : bool :=
  match workers st !! tid with
  | Some w => terminated w
  | None => false
  end.

(** An exception leaves the worker's function: the thread dies. *)
Definition die (e : exn) (st : state) (w : worker) : worker :=
  exit_at (steps st, now st) (Raised e) w.

Definition cpu_banner : string := "[CPU] Starting CPU load...".
Definition gpu_banner : string := "[GPU] Starting GPU load...".
Definition start_banner : string :=
  "Starting AI-style CPU/GPU stress test for 2 hours...".
Definition done_banner : string := "Load test completed.".

(** ** CPU load function (main.py, lines 12-18), one statement at a time *)
Definition cpu_stress (cfg : config) (tid : nat) (st : state) (w : worker)
    : state * worker :=
  match w_pc w with
  | AtPrint => (println cpu_banner st, goto AtAllocA w)
  | AtAllocA =>
      match np_random_rand (TENSOR_SIZE cfg) (TENSOR_SIZE cfg) (np_draws st) with
      | Ok (m, k) =>
          (store (Cell m tid MatA (now st)) (set_np_draws k st),
           goto AtAllocB (bind_a (length (heap st)) w))
      | Raise e => (st, die e st w)
      end
  | AtAllocB =>
      match np_random_rand (TENSOR_SIZE cfg) (TENSOR_SIZE cfg) (np_draws st) with
      | Ok (m, k) =>
          (store (Cell m tid MatB (now st)) (set_np_draws k st),
           goto AtDeadline (bind_b (length (heap st)) w))
      | Raise e => (st, die e st w)
      end
  | AtDeadline =>
      (st, goto AtCheck
             (bind_end_time (now st + TEST_DURATION_SECONDS cfg)
                (read_clock (now st) w)))
  | AtCheck =>
      match w_end_time w with
      | Some end_time =>
          if (now st <? end_time)%Z
          then (st, goto AtMul (read_clock (now st) w))
          else (st, exit_at (steps st, now st) Returned (read_clock (now st) w))
      | None => (st, die UnboundLocalError st w)
      end
  | AtMul =>
      match w_a w ≫= (heap st !!.), w_b w ≫= (heap st !!.) with
      | Some a, Some b =>
          match np_dot (c_val a) (c_val b) with
          | Ok m =>
              (store (Cell m tid Prod (now st)) st,
               goto AtCheck (bind_last (length (heap st)) w))
          | Raise e => (st, die e st w)
          end
      | _, _ => (st, die UnboundLocalError st w)
      end
  | Returned | Raised _ => (st, w)
  end.

(** ** GPU worker (main.py, lines 25-32)

    [with tf.device('/GPU:0')] only states a placement preference; with no
    GPU present TensorFlow places the operations on the CPU, and the values
    computed are the same, so the device does not appear below. *)
Definition gpu_stress (cfg : config) (tid : nat) (st : state) (w : worker)
    : state * worker :=
  match w_pc w with
  | AtPrint => (println gpu_banner st, goto AtAllocA w)
  | AtAllocA =>
      match tf_random_normal (TENSOR_SIZE cfg, TENSOR_SIZE cfg) (tf_draws st) with
      | Ok (m, k) =>
          (store (Cell m tid MatA (now st)) (set_tf_draws k st),
           goto AtAllocB (bind_a (length (heap st)) w))
      | Raise e => (st, die e st w)
      end
  | AtAllocB =>
      match tf_random_normal (TENSOR_SIZE cfg, TENSOR_SIZE cfg) (tf_draws st) with
      | Ok (m, k) =>
          (store (Cell m tid MatB (now st)) (set_tf_draws k st),
           goto AtDeadline (bind_b (length (heap st)) w))
      | Raise e => (st, die e st w)
      end
  | AtDeadline =>
      (st, goto AtCheck
             (bind_end_time (now st + TEST_DURATION_SECONDS cfg)
                (read_clock (now st) w)))
  | AtCheck =>
      match w_end_time w with
      | Some end_time =>
          if (now st <? end_time)%Z
          then (st, goto AtMul (read_clock (now st) w))
          else (st, exit_at (steps st, now st) Returned (read_clock (now st) w))
      | None => (st, die UnboundLocalError st w)
      end
  | AtMul =>
      match w_a w ≫= (heap st !!.), w_b w ≫= (heap st !!.) with
      | Some a, Some b =>
          match gpu_stress_step (step_fn st) (c_val a) (c_val b) with
          | (fn, Ok m) =>
              (store (Cell m tid Prod (now st)) (set_step_fn fn st),
               goto AtCheck (bind_last (length (heap st)) w))
          | (fn, Raise e) => (set_step_fn fn st, die e st w)
          end
      | _, _ => (st, die UnboundLocalError st w)
      end
  | Returned | Raised _ => (st, w)
  end.

(** ** The coordinator (main.py, lines 34-53), one statement at a time *)
Definition main (cfg : config) (st : state) : state :=
  match m_pc st with
  | MPrintStart => set_main (MSpawnCpu 0) (println start_banner st)
  | MSpawnCpu i =>
      if (Z.of_nat i <? NUM_CPU_THREADS cfg)%Z
      then set_main (MSpawnCpu (S i))
             (append_cpu_thread (length (workers st)) (start_thread CPU st))
      else set_main MSpawnGpu st
  | MSpawnGpu =>
      set_main (MJoinCpu 0)
        (set_gpu_thread (length (workers st)) (start_thread GPU st))
  | MJoinCpu i =>
      match cpu_threads st !! i with
      | Some t => if joinable t st then set_main (MJoinCpu (S i)) st else st
      | None => set_main MJoinGpu st
      end
  | MJoinGpu =>
      match gpu_thread st with
      | Some t => if joinable t st then set_main MPrintDone st else st
      | None => st
      end
  | MPrintDone => set_main MReturn (println done_banner st)
  | MReturn => main_exit st
  | MExited => st
  end.

(** The exit status of the process: main.py never calls [sys.exit] and no
    statement of [main] raises, so the interpreter exits with status 0 once
    [main] has returned; an exception in a worker ends that thread only. *)
Definition exit_status (st : state) : option Z :=
  match m_pc st with
  | MExited => Some 0%Z
  | _ => None
  end.

(** The [target] of a thread, by its kind (lines 40 and 45). *)
Definition target (cfg : config) (tid : nat) (st : state) (w : worker)
    : state * worker :=
  match w_kind w with
  | CPU => cpu_stress cfg tid st w
  | GPU => gpu_stress cfg tid st w
  end.

(** ** Schedules *)

Inductive actor := Main | Thread (tid : nat).

(** One scheduling decision: [dt] clock units pass, then the actor runs its
    next statement.  A thread that does not exist or is dead, and a
    coordinator blocked in [join], leave everything but the clock as it is. *)
Definition step (cfg : config) (st : state) (e : actor * nat) : state :=
  let st1 := elapse (snd e) st in
  match fst e with
  | Main => main cfg st1
  | Thread tid =>
      match workers st1 !! tid with
      | Some w =>
          let '(st2, w') := target cfg tid st1 w in
          set_workers (<[tid := w']> (workers st2)) st2
      | None => st1
      end
  end.

Definition run (cfg : config) (t0 : Z) (sched : list (actor * nat)) : state :=
  foldl (step cfg) (init t0) sched.

(** ** Notions used in the statements about the machine *)

Implicit Types (st : state) (w : worker) (c : cell) (cfg : config).

(** *** The workers *)

(** The first line a worker prints, by its kind. *)
Definition banner (k : kind) : string :=
  match k with
  | CPU => cpu_banner
  | GPU => gpu_banner
  end.

(** The element type of the matrices of a worker: [np.random.rand] gives
    float64, [tf.random.normal] float32. *)
Definition dtype_of (k : kind) : dtype :=
  match k with
  | CPU => Float64
  | GPU => Float32
  end.

(** The generator a worker's matrices are filled from. *)
Definition source_of (k : kind) : nat → F :=
  match k with
  | CPU => uniform
  | GPU => normal
  end.

(** The error the allocation call raises on a negative size. *)
Definition alloc_error (k : kind) : exn :=
  match k with
  | CPU => ValueError
  | GPU => InvalidArgumentError
  end.

(** The product a worker asks for, without the tracing machinery. *)
Definition multiply (k : kind) (a b : ndarray F) : result (ndarray F) :=
  match k with
  | CPU => np_dot a b
  | GPU => gpu_stress_step_py (ndarray F) eager_ops a b
  end.

(** A store cell holding one of the two random matrices of worker [tid]. *)
Definition matrix_cell cfg (tid : nat) (ro : role) w (t : Z) c : Prop :=
  c_by c = tid ∧ c_role c = ro ∧
  has_shape (c_val c) (TENSOR_SIZE cfg) (TENSOR_SIZE cfg) ∧
  arr_dtype (c_val c) = dtype_of (w_kind w) ∧
  (∃ k, rows (c_val c) =
        fill (source_of (w_kind w))
             (Z.to_nat (TENSOR_SIZE cfg)) (Z.to_nat (TENSOR_SIZE cfg)) k) ∧
  (w_started w ≤ c_at c ≤ t)%Z.

(** Both matrices are bound, [a] allocated before [b], both by time [t]. *)
Definition matrices_by (h : list cell) w (t : Z) : Prop :=
  ∃ ra rb ca cb,
    w_a w = Some ra ∧ w_b w = Some rb ∧
    h !! ra = Some ca ∧ h !! rb = Some cb ∧
    (c_at ca ≤ c_at cb ≤ t)%Z.

(** Before line 16 nothing about the loop is set. *)
Definition before_loop w : Prop :=
  w_end_time w = None ∧ w_reads w = [] ∧ w_iters w = 0 ∧
  w_last w = None ∧ w_exit w = None.

(** In the loop: [r0] is the clock value the deadline was computed from,
    [chk] the values the loop condition has read and found below the
    deadline (latest first). *)
Definition in_loop cfg (h : list cell) w (chk : list Z) (r0 : Z) : Prop :=
  w_end_time w = Some (r0 + TEST_DURATION_SECONDS cfg)%Z ∧
  Forall (λ r, r0 ≤ r < r0 + TEST_DURATION_SECONDS cfg)%Z chk ∧
  matrices_by h w r0.

(** What is bound and what the observer has recorded, at each statement. *)
Definition pc_ok cfg (t : Z) (h : list cell) w : Prop :=
  match w_pc w with
  | AtPrint | AtAllocA => w_a w = None ∧ w_b w = None ∧ before_loop w
  | AtAllocB => is_Some (w_a w) ∧ w_b w = None ∧ before_loop w
  | AtDeadline => matrices_by h w t ∧ before_loop w
  | AtCheck =>
      ∃ chk r0, w_reads w = chk ++ [r0] ∧ length chk = w_iters w ∧
                in_loop cfg h w chk r0 ∧ w_exit w = None
  | AtMul =>
      ∃ chk r0, w_reads w = chk ++ [r0] ∧ length chk = S (w_iters w) ∧
                in_loop cfg h w chk r0 ∧ w_exit w = None
  | Returned =>
      ∃ rx chk r0 s,
        w_reads w = rx :: chk ++ [r0] ∧ length chk = w_iters w ∧
        in_loop cfg h w chk r0 ∧ (r0 ≤ rx)%Z ∧
        (r0 + TEST_DURATION_SECONDS cfg ≤ rx)%Z ∧ w_exit w = Some (s, rx)
  | Raised e =>
      (TENSOR_SIZE cfg < 0)%Z ∧ e = alloc_error (w_kind w) ∧
      w_a w = None ∧ w_b w = None ∧ w_end_time w = None ∧
      w_reads w = [] ∧ w_iters w = 0 ∧ w_last w = None ∧ is_Some (w_exit w)
  end.

(** What holds of worker [tid] when the clock shows [t], [n] steps were
    taken and the store is [h]: its clock readings lie between its start
    and now; [a] and [b], once bound, name cells holding random square
    matrices that this worker allocated, and it allocated no other; [_],
    once bound, names the product of the two; a worker has an exit stamp
    only when it has terminated. *)
Record worker_ok cfg (t : Z) (n : nat) (h : list cell) (tid : nat) w : Prop := {
  ok_started : (w_started w ≤ t)%Z;
  ok_reads : Forall (λ r, w_started w ≤ r ≤ t)%Z (w_reads w);
  ok_a : ∀ r, w_a w = Some r →
    ∃ c, h !! r = Some c ∧ matrix_cell cfg tid MatA w t c;
  ok_b : ∀ r, w_b w = Some r →
    ∃ c, h !! r = Some c ∧ matrix_cell cfg tid MatB w t c;
  ok_a_only : ∀ r c, h !! r = Some c → c_by c = tid → c_role c = MatA →
    w_a w = Some r;
  ok_b_only : ∀ r c, h !! r = Some c → c_by c = tid → c_role c = MatB →
    w_b w = Some r;
  ok_last : ∀ r, w_last w = Some r →
    ∃ c ra rb ca cb,
      h !! r = Some c ∧ c_by c = tid ∧ c_role c = Prod ∧
      w_a w = Some ra ∧ w_b w = Some rb ∧
      h !! ra = Some ca ∧ h !! rb = Some cb ∧
      multiply (w_kind w) (c_val ca) (c_val cb) = Ok (c_val c);
  ok_exit : ∀ s t', w_exit w = Some (s, t') →
    s ≤ n ∧ (t' ≤ t)%Z ∧ terminated w = true;
  ok_pc : pc_ok cfg t h w
}.

(** The clock value a worker read last before the one that ended its loop,
    and the time between the two: the length of its final iteration. *)
Definition final_iteration (w : worker) : Z :=
  match w_reads w with
  | t_ret :: prev :: _ => t_ret - prev
  | _ => 0
  end.

(** *** The shared state *)

(** The cache of [gpu_stress_step] only holds graphs of its body, and every
    array in the store was allocated by a thread that exists. *)
Definition base_ok st : Prop :=
  cache_ok (step_fn st) ∧ Forall (λ c, c_by c < length (workers st)) (heap st).

(** The one signature [gpu_stress_step] is ever called with. *)
Definition square_signature cfg : signature :=
  let n := Z.to_nat (TENSOR_SIZE cfg) in
  ((Float32, n, n), (Float32, n, n)).

(** Either nothing was traced yet and no GPU worker has a product, or the
    body was traced exactly once, for the square signature. *)
Definition traced_once cfg st : Prop :=
  (step_fn st = fresh_fn ∧
   ∀ tid w, workers st !! tid = Some w → w_kind w = GPU → w_iters w = 0) ∨
  step_fn st =
    TracedFn [(square_signature cfg, MatMul (Placeholder 0) (Placeholder 1))] 1.

(** *** The coordinator *)

(** The number of iterations of [for _ in range(NUM_CPU_THREADS)]: none
    when the setting is negative. *)
Definition n_cpu cfg : nat := Z.to_nat (NUM_CPU_THREADS cfg).

(** The threads [main] starts, in the order of their thread ids. *)
Definition launched cfg : list kind := replicate (n_cpu cfg) CPU ++ [GPU].

(** The threads started, the handles in [cpu_threads] and the handle in
    [gpu_thread], when [main] is at [p]. *)
Definition expected_kinds cfg (p : mpc) : list kind :=
  match p with
  | MPrintStart => []
  | MSpawnCpu i => replicate i CPU
  | MSpawnGpu => replicate (n_cpu cfg) CPU
  | _ => launched cfg
  end.

Definition expected_cpu_threads cfg (p : mpc) : list nat :=
  match p with
  | MPrintStart => []
  | MSpawnCpu i => seq 0 i
  | _ => seq 0 (n_cpu cfg)
  end.

Definition expected_gpu_thread cfg (p : mpc) : option nat :=
  match p with
  | MPrintStart | MSpawnCpu _ | MSpawnGpu => None
  | _ => Some (n_cpu cfg)
  end.

(** How many of the threads [main] has waited for when it is at [p]. *)
Definition join_count cfg (p : mpc) : nat :=
  match p with
  | MPrintStart | MSpawnCpu _ | MSpawnGpu => 0
  | MJoinCpu i => i
  | MJoinGpu => n_cpu cfg
  | MPrintDone | MReturn | MExited => S (n_cpu cfg)
  end.

(** The loop counters of [main] stay within the number of CPU threads. *)
Definition loop_index_ok cfg (p : mpc) : Prop :=
  match p with
  | MSpawnCpu i | MJoinCpu i => i ≤ n_cpu cfg
  | _ => True
  end.

(** The threads with ids below [k] have terminated. *)
Definition joined (k : nat) st : Prop :=
  ∀ tid w, tid < k → workers st !! tid = Some w → terminated w = true.

(** What holds of the threads and of [main]'s handles at each of its
    statements. *)
Record main_ok cfg st : Prop := {
  mo_kinds : w_kind <$> workers st = expected_kinds cfg (m_pc st);
  mo_cpu : cpu_threads st = expected_cpu_threads cfg (m_pc st);
  mo_gpu : gpu_thread st = expected_gpu_thread cfg (m_pc st);
  mo_joined : joined (join_count cfg (m_pc st)) st;
  mo_index : loop_index_ok cfg (m_pc st)
}.

(** [main] has started every thread. *)
Definition past_launch (p : mpc) : bool :=
  match p with
  | MPrintStart | MSpawnCpu _ | MSpawnGpu => false
  | _ => true
  end.

(** [main] is past [gpu_thread.join()]. *)
Definition past_joins (p : mpc) : bool :=
  match p with
  | MPrintDone | MReturn | MExited => true
  | _ => false
  end.

(** [main]'s return is stamped after the termination of every thread. *)
Definition exit_ok st : Prop :=
  match m_exit st with
  | Some (s, t) =>
      m_pc st = MExited ∧
      ∀ tid w, workers st !! tid = Some w →
        ∃ s' t', w_exit w = Some (s', t') ∧ s' < s ∧ (t' ≤ t)%Z
  | None => m_pc st ≠ MExited
  end.

(** *** The output *)

(** The banner of a worker, once it is past its first statement. *)
Definition shown w : list string :=
  match w_pc w with
  | AtPrint => []
  | _ => [banner (w_kind w)]
  end.

(** What [main] itself has printed when it is at [p]: the start line first,
    the completion line last. *)
Definition head_lines (p : mpc) : list string :=
  match p with
  | MPrintStart => []
  | _ => [start_banner]
  end.

Definition tail_lines (p : mpc) : list string :=
  match p with
  | MReturn | MExited => [done_banner]
  | _ => []
  end.

(** The output is the start line, the banners of the workers that have
    begun, in the order they printed them, and the completion line once
    [main] is past line 53. *)
Definition stdout_ok st : Prop :=
  ∃ mid, stdout st = head_lines (m_pc st) ++ mid ++ tail_lines (m_pc st) ∧
         mid ≡ₚ workers st ≫= shown.

(** *** Schedules and measures of progress *)

(** The scheduling decision [e] runs thread [tid]. *)
Definition is_turn (tid : nat) (e : actor * nat) : bool :=
  match e.1 with
  | Thread t => bool_decide (t = tid)
  | Main => false
  end.

(** How often the schedule runs thread [tid]. *)
Fixpoint turns (tid : nat) (sched : list (actor * nat)) : nat :=
  match sched with
  | [] => 0
  | e :: sched => (if is_turn tid e then 1 else 0) + turns tid sched
  end.

(** The statements left before a worker with a non-positive duration has
    returned. *)
Definition statements_left (w : worker) : nat :=
  match w_pc w with
  | AtPrint => 5
  | AtAllocA => 4
  | AtAllocB => 3
  | AtDeadline => 2
  | AtCheck | AtMul => 1
  | Returned | Raised _ => 0
  end.

(** The statements left before a worker is at its loop. *)
Definition setup_left (w : worker) : nat :=
  match w_pc w with
  | AtPrint => 4
  | AtAllocA => 3
  | AtAllocB => 2
  | AtDeadline => 1
  | _ => 0
  end.

(** The statements left before a worker with a negative size is dead. *)
Definition statements_before_error (w : worker) : nat :=
  match w_pc w with
  | AtPrint => 2
  | Returned | Raised _ => 0
  | _ => 1
  end.

(** The statements [main] has left before its first join. *)
Definition launch_left cfg (p : mpc) : nat :=
  match p with
  | MPrintStart => n_cpu cfg + 3
  | MSpawnCpu i => n_cpu cfg + 2 - i
  | MSpawnGpu => 1
  | _ => 0
  end.

(** The statements a worker still has to run when the clock is moved past
    its deadline before the loop condition is evaluated. *)
Definition worker_left (w : worker) : nat :=
  match w_pc w with
  | AtPrint => 6
  | AtAllocA => 5
  | AtAllocB => 4
  | AtDeadline => 3
  | AtMul => 2
  | AtCheck => 1
  | Returned | Raised _ => 0
  end.

(** The same, summed over all workers. *)
Definition work_left (st : state) : nat := sum_list_with worker_left (workers st).

(** The statements [main] has left from its first join on, when no join
    blocks. *)
Definition join_left cfg (p : mpc) : nat :=
  match p with
  | MJoinCpu i => n_cpu cfg + 4 - i
  | MJoinGpu => 3
  | MPrintDone => 2
  | MReturn => 1
  | _ => 0
  end.

(** *** Schedules in which the clock advances *)

(** At least [q] clock units pass before each turn of thread [tid]. *)
Definition paced (q : nat) (tid : nat) (sched : list (actor * nat)) : Prop :=
  Forall (λ e, is_turn tid e = true → q ≤ e.2) sched.

(** How often the schedule runs [main]. *)
Fixpoint main_turns (sched : list (actor * nat)) : nat :=
  match sched with
  | [] => 0
  | (Main, _) :: sched => S (main_turns sched)
  | _ :: sched => main_turns sched
  end.

(** The statements a worker has left at most, when the clock shows [t] and
    at least one clock unit passes before each of its statements: what is
    left of the setup, then a loop condition and a product for every two
    clock units up to the deadline, and the last loop condition. *)
Definition paced_left cfg (t : Z) (w : worker) : nat :=
  let d := Z.to_nat (TEST_DURATION_SECONDS cfg) in
  match w_pc w with
  | AtPrint => d + 5
  | AtAllocA => d + 4
  | AtAllocB => d + 3
  | AtDeadline => d + 2
  | AtCheck =>
      match w_end_time w with
      | Some e => Z.to_nat (e - t) + 1
      | None => 1
      end
  | AtMul =>
      match w_end_time w with
      | Some e => Z.to_nat (e - t) `max` 1 + 1
      | None => 1
      end
  | Returned | Raised _ => 0
  end.

(** The clock units a worker has spent in its loop at least, when [q]
    units pass before each of its statements: [q] for each loop condition
    it evaluated and each product it completed. *)
Definition loop_time (q : nat) (w : worker) : Z :=
  match w_pc w with
  | AtCheck => Z.of_nat q * (2 * Z.of_nat (w_iters w))
  | AtMul => Z.of_nat q * (2 * Z.of_nat (w_iters w) + 1)
  | _ => 0
  end.

(** What the pace of a worker gives: in its loop, its latest clock reading
    (or the clock itself, after a product) is at least [loop_time] past the
    reading [r0] its deadline was computed from; and the products completed
    fit into the duration. *)
Definition loop_pace cfg (q : nat) (t : Z) (w : worker) : Prop :=
  match w_pc w with
  | AtCheck =>
      ∃ r0, list.last (w_reads w) = Some r0 ∧ (r0 + loop_time q w ≤ t)%Z
  | AtMul =>
      ∃ r0 rd, list.last (w_reads w) = Some r0 ∧ head (w_reads w) = Some rd ∧
               (r0 + loop_time q w ≤ rd)%Z
  | _ => True
  end ∧
  (1 ≤ w_iters w →
     (Z.of_nat q * (2 * Z.of_nat (w_iters w) - 1) < TEST_DURATION_SECONDS cfg)%Z).

(** *** The products in the store *)

(** Whether a cell holds a product computed by thread [tid]. *)
Definition is_product_of (tid : nat) c : bool :=
  bool_decide (c_by c = tid) &&
  match c_role c with Prod => true | _ => false end.

(** The products of thread [tid] in the store, oldest first. *)
Definition products_of (tid : nat) (h : list cell) : list cell :=
  filter (λ c, is_product_of tid c) h.

(** There is one product for each completed iteration of the worker, each
    is the product of the worker's two matrices, and [_] names the latest. *)
Definition products_ok (h : list cell) (tid : nat) w : Prop :=
  length (products_of tid h) = w_iters w ∧
  (∀ c, c ∈ products_of tid h →
     ∃ ra rb ca cb, w_a w = Some ra ∧ w_b w = Some rb ∧
       h !! ra = Some ca ∧ h !! rb = Some cb ∧
       multiply (w_kind w) (c_val ca) (c_val cb) = Ok (c_val c)) ∧
  (∀ r, w_last w = Some r →
     ∃ c, h !! r = Some c ∧ list.last (products_of tid h) = Some c).

(** *** The random numbers drawn *)

(** The generator behind the random arrays of an element type:
    [np.random.rand] gives float64, [tf.random.normal] float32. *)
Definition generator (d : dtype) : nat → F :=
  match d with
  | Float64 => uniform
  | Float32 => normal
  end.

(** How many values that generator has handed out. *)
Definition drawn (d : dtype) st : nat :=
  match d with
  | Float64 => np_draws st
  | Float32 => tf_draws st
  end.

(** Whether a cell holds a random matrix (not a product) of element type
    [d]. *)
Definition is_matrix (d : dtype) c : bool :=
  match c_role c with
  | Prod => false
  | _ => bool_decide (arr_dtype (c_val c) = d)
  end.

(** The random matrices of element type [d] in the store, oldest first. *)
Definition matrices_of (d : dtype) (h : list cell) : list cell :=
  filter (λ c, is_matrix d c) h.

(** The side of the matrices as a number of elements. *)
Definition side cfg : nat := Z.to_nat (TENSOR_SIZE cfg).

(** Where in the stream of its generator the matrix at address [r] starts:
    after the values of the matrices the generator filled before it. *)
Definition draw_offset cfg (d : dtype) (h : list cell) (r : nat) : nat :=
  side cfg * side cfg * length (matrices_of d (take r h)).

(** Each generator has handed out one matrix worth of values for each
    matrix it filled, and each matrix holds the values from its offset on. *)
Definition draws_ok cfg st : Prop :=
  (∀ d, drawn d st = side cfg * side cfg * length (matrices_of d (heap st))) ∧
  ∀ r c d, heap st !! r = Some c → is_matrix d c = true →
    rows (c_val c) =
      fill (generator d) (side cfg) (side cfg) (draw_offset cfg d (heap st) r).

(** *** The state without the values *)

(** What a cell shows apart from the values of its array: the element type
    and shape of the array, and what the observer recorded. *)
Definition cell_view (c : cell) : tensor_spec * nat * role * Z :=
  (spec_of (c_val c), c_by c, c_role c, c_at c).

(** The state without the values in the arrays. *)
Definition state_view (st : state) :=
  (now st, steps st, stdout st, cell_view <$> heap st,
   np_draws st, tf_draws st, step_fn st, workers st,
   m_pc st, cpu_threads st, gpu_thread st, m_exit st).

End Machine.

Arguments cell F : clear implicits.
Arguments state F : clear implicits.

(** ** A concrete instance to run the machine on: integer elements, with
    generators that count upwards. *)
Module Demo.

#[export] Instance z_scalar : Scalar Z :=
  {| fzero := 0%Z; fadd := Z.add; fmul := Z.mul |}.
#[export] Instance z_random : RandomSource Z :=
  {| uniform := λ n, Z.of_nat n; normal := λ n, (- Z.of_nat n)%Z |}.

Definition small : config :=
  {| TEST_DURATION_SECONDS := 3; TENSOR_SIZE := 2; NUM_CPU_THREADS := 2 |}.

(** One CPU worker and the GPU worker, with duration [d] and size [s]. *)
Definition one (d s : Z) : config :=
  {| TEST_DURATION_SECONDS := d; TENSOR_SIZE := s; NUM_CPU_THREADS := 1 |}.

(** [main] up to its first join, when there is one CPU thread. *)
Definition launch_one : list (actor * nat) :=
  [(Main, 0); (Main, 0); (Main, 0); (Main, 0)].

(** Thread 0 takes ten clock units for each allocation, then one for each
    of: the first loop condition, the product, the second loop condition. *)
Definition slow_alloc : list (actor * nat) :=
  launch_one ++
  [(Thread 0, 0); (Thread 0, 10); (Thread 0, 10); (Thread 0, 0);
   (Thread 0, 1); (Thread 0, 1); (Thread 0, 1)].

(** Thread 0 runs five statements while the clock stands still. *)
Definition five_turns : list (actor * nat) :=
  launch_one ++ replicate 5 (Thread 0, 0).

(** Thread 0 up to the end of its first product. *)
Definition first_product : list (actor * nat) :=
  launch_one ++
  [(Thread 0, 0); (Thread 0, 0); (Thread 0, 0); (Thread 0, 0);
   (Thread 0, 1); (Thread 0, 0)].

(** Three workers taking turns: two products each while the clock stands
    still, the GPU worker then finds its deadline passed, the CPU workers
    finish a third product first. *)
Definition interleaved : list (actor * nat) :=
  replicate 5 (Main, 0) ++
  concat (replicate 8 [(Thread 0, 0); (Thread 1, 0); (Thread 2, 0)]) ++
  [(Thread 0, 0); (Thread 1, 0); (Thread 2, 3);
   (Thread 0, 0); (Thread 1, 0); (Thread 0, 0); (Thread 1, 0)].

(** The same, followed by the joins, the completion line and the return of
    [main]. *)
Definition complete : list (actor * nat) :=
  interleaved ++ replicate 6 (Main, 0).

(** Two 2x2 matrices to multiply. *)
Definition left_matrix : ndarray Z :=
  NdArray Float32 2 2 [[1; 2]; [3; 4]]%Z.
Definition right_matrix : ndarray Z :=
  NdArray Float32 2 2 [[0; 1]; [1; 0]]%Z.

(** One clock unit before each of six statements of thread 0: its setup,
    a loop condition and a product. *)
Definition one_product : list (actor * nat) :=
  launch_one ++ replicate 6 (Thread 0, 1).

(** Eight rounds of the three workers, one clock unit before each
    statement. *)
Definition fair_rounds : list (actor * nat) :=
  concat (replicate 8 [(Thread 0, 1); (Thread 1, 1); (Thread 2, 1)]).

(** With size -1: both workers run into the allocation error, then [main]
    joins them and returns. *)
Definition failing : list (actor * nat) :=
  launch_one ++
  [(Thread 0, 0); (Thread 0, 0); (Thread 1, 0); (Thread 1, 0)] ++
  replicate 5 (Main, 0).

(** No CPU thread at all. *)
Definition gpu_only : config :=
  {| TEST_DURATION_SECONDS := 1; TENSOR_SIZE := 1; NUM_CPU_THREADS := -2 |}.

(** [main] starts the GPU worker, the worker runs to its return, [main]
    joins it. *)
Definition gpu_only_run : list (actor * nat) :=
  replicate 3 (Main, 0) ++
  replicate 4 (Thread 0, 0) ++ [(Thread 0, 1)] ++
  replicate 4 (Main, 0).

End Demo.

(** * Facts about the arrays *)

Section ArrayFacts.
Context {F : Type} `{!Scalar F, !RandomSource F}.
Implicit Types (a b m : ndarray F) (fn : traced_fn).

Lemma fill_length (src : nat → F) r c k : length (fill src r c k) = r.
Proof. unfold fill. by rewrite length_map, length_seq. Qed.

Lemma fill_row_length (src : nat → F) r c k :
  Forall (λ row, length row = c) (fill src r c k).
Proof.
  unfold fill. apply List.Forall_forall. intros row Hin.
  apply in_map_iff in Hin as (i & <- & _).
  by rewrite length_map, length_seq.
Qed.

Lemma product_length (x y : list (list F)) bc : length (product x y bc) = length x.
Proof. unfold product. by rewrite length_map. Qed.

Lemma product_row_length (x y : list (list F)) bc :
  Forall (λ row, length row = bc) (product x y bc).
Proof.
  unfold product. apply List.Forall_forall. intros row Hin.
  apply in_map_iff in Hin as (r & <- & _).
  by rewrite length_map, length_seq.
Qed.

Lemma size_check (d : Z) :
  ((d <? 0) || (d <? 0))%Z = false ↔ (0 ≤ d)%Z.
Proof. rewrite orb_diag. apply Z.ltb_ge. Qed.

Lemma np_random_rand_ok d k m k' :
  np_random_rand d d k = Ok (m, k') →
  (0 ≤ d)%Z ∧ has_shape m d d ∧ arr_dtype m = Float64 ∧
  rows m = fill uniform (Z.to_nat d) (Z.to_nat d) k.
Proof.
  unfold np_random_rand. destruct (_ || _)%Z eqn:Hd; [done|].
  apply size_check in Hd. intros [= <- <-]. unfold has_shape, well_shaped; simpl.
  rewrite fill_length, Z2Nat.id by done. repeat split; auto using fill_row_length.
Qed.

Lemma np_random_rand_raise d k e :
  np_random_rand d d k = Raise e → (d < 0)%Z ∧ e = ValueError.
Proof.
  unfold np_random_rand. destruct (_ || _)%Z eqn:Hd; [|done].
  intros [= <-]. split; [|done]. rewrite orb_diag in Hd. by apply Z.ltb_lt.
Qed.

Lemma tf_random_normal_ok d k m k' :
  tf_random_normal (d, d) k = Ok (m, k') →
  (0 ≤ d)%Z ∧ has_shape m d d ∧ arr_dtype m = Float32 ∧
  rows m = fill normal (Z.to_nat d) (Z.to_nat d) k.
Proof.
  unfold tf_random_normal. destruct (_ || _)%Z eqn:Hd; [done|].
  apply size_check in Hd. intros [= <- <-]. unfold has_shape, well_shaped; simpl.
  rewrite fill_length, Z2Nat.id by done. repeat split; auto using fill_row_length.
Qed.

Lemma tf_random_normal_raise d k e :
  tf_random_normal (d, d) k = Raise e → (d < 0)%Z ∧ e = InvalidArgumentError.
Proof.
  unfold tf_random_normal. destruct (_ || _)%Z eqn:Hd; [|done].
  intros [= <-]. split; [|done]. rewrite orb_diag in Hd. by apply Z.ltb_lt.
Qed.

Lemma has_shape_aligned a b (s : Z) :
  has_shape a s s → has_shape b s s → ncols a = nrows b.
Proof. intros (_ & Ha & _) (Hb & _). lia. Qed.

Lemma np_dot_shape a b (s : Z) :
  has_shape a s s → has_shape b s s →
  ∃ c, np_dot a b = Ok c ∧ has_shape c s s ∧
       rows c = product (rows a) (rows b) (ncols b).
Proof.
  intros Ha Hb. unfold np_dot.
  rewrite decide_True by eauto using has_shape_aligned.
  eexists; split; [done|]. destruct Ha as (Ha & _ & Hla & _), Hb as (_ & Hb & _).
  unfold has_shape, well_shaped; simpl.
  rewrite product_length. repeat split; auto using product_row_length.
Qed.

Lemma eager_matmul_shape a b (s : Z) :
  has_shape a s s → has_shape b s s → arr_dtype a = arr_dtype b →
  ∃ c, eager_matmul a b = Ok c ∧ has_shape c s s ∧ arr_dtype c = arr_dtype a.
Proof.
  intros Ha Hb Hd. unfold eager_matmul.
  rewrite decide_True by done.
  rewrite decide_True by eauto using has_shape_aligned.
  eexists; split; [done|]. destruct Ha as (Ha & _ & Hla & _), Hb as (_ & Hb & _).
  unfold has_shape, well_shaped; simpl.
  rewrite product_length. repeat split; auto using product_row_length.
Qed.

(** *** The trace cache *)

Lemma fresh_fn_ok : cache_ok fresh_fn.
Proof. by intros sa sb g. Qed.

Lemma gpu_stress_step_ok fn a b :
  cache_ok fn → cache_ok (gpu_stress_step fn a b).1.
Proof.
  intros Hok. unfold gpu_stress_step, tf_function.
  destruct (cache_lookup _ _) eqn:Hl; [done|].
  unfold gpu_stress_step_py; simpl. unfold symbolic_matmul; simpl.
  repeat case_decide; simpl; try done.
  intros sa sb g; simpl. case_decide as Heq; [|by apply Hok].
  intros [= <-]. injection Heq as <- <-. done.
Qed.

(** On compatible tensors a call returns what eager [tf.matmul] returns,
    whether the signature was in the cache or had to be traced. *)
Lemma gpu_stress_step_result fn a b :
  cache_ok fn → compatible a b →
  (gpu_stress_step fn a b).2 = eager_matmul a b.
Proof.
  intros Hok [Hd Hs]. unfold gpu_stress_step, tf_function.
  destruct (cache_lookup _ _) as [g|] eqn:Hl; simpl.
  - apply Hok in Hl as (-> & _). done.
  - unfold gpu_stress_step_py; simpl. unfold symbolic_matmul; simpl.
    by rewrite !decide_True by done.
Qed.

(** A call traces exactly when its signature is not in the cache, and
    afterwards the signature is. *)
Lemma gpu_stress_step_traces fn a b :
  compatible a b →
  let fn' := (gpu_stress_step fn a b).1 in
  match cache_lookup (spec_of a, spec_of b) (fn_cache fn) with
  | Some _ => fn' = fn
  | None =>
      fn' = TracedFn ((spec_of a, spec_of b, MatMul (Placeholder 0) (Placeholder 1))
                        :: fn_cache fn) (S (fn_traces fn))
  end.
Proof.
  intros [Hd Hs]. unfold gpu_stress_step, tf_function.
  destruct (cache_lookup _ _) as [g|] eqn:Hl; simpl; [done|].
  unfold gpu_stress_step_py; simpl. unfold symbolic_matmul; simpl.
  by rewrite !decide_True by done.
Qed.

Lemma fn_after_ok calls : cache_ok (fn_after calls).
Proof.
  unfold fn_after. induction calls as [|[a b] calls IH] using rev_ind.
  - apply fresh_fn_ok.
  - rewrite foldl_app; simpl. by apply gpu_stress_step_ok.
Qed.

End ArrayFacts.

(** * Facts about the machine *)

Section MachineFacts.
Context {F : Type} `{!Scalar F, !RandomSource F}.
Implicit Types (st : state F) (w : worker) (c : cell F) (cfg : config).

Ltac target_cases H :=
  unfold target, cpu_stress, gpu_stress in H;
  repeat (case_match; simplify_eq/=).

(** What one statement of a worker may change. *)
Lemma target_frame cfg tid st w st2 w' :
  target cfg tid st w = (st2, w') →
  now st2 = now st ∧ steps st2 = steps st ∧ workers st2 = workers st ∧
  m_pc st2 = m_pc st ∧ cpu_threads st2 = cpu_threads st ∧
  gpu_thread st2 = gpu_thread st ∧ m_exit st2 = m_exit st ∧
  (∃ hs, heap st2 = heap st ++ hs ∧
         Forall (λ c, c_by c = tid ∧ c_at c = now st) hs) ∧
  stdout st2 = stdout st ++
    match w_pc w with AtPrint => [banner (w_kind w)] | _ => [] end ∧
  w_kind w' = w_kind w ∧ w_started w' = w_started w ∧
  w_pc w' ≠ AtPrint ∧
  (terminated w = true → w' = w).
Proof.
  intros H. unfold terminated.
  target_cases H; rewrite ?H0, ?app_nil_r; simpl;
    repeat split; try done;
    try (by exists []; rewrite app_nil_r);
    try (by eexists [_]; split; [done|repeat constructor]);
    congruence.
Qed.

(** What the coordinator's statements may change. *)
Lemma main_frame cfg st :
  now (main cfg st) = now st ∧ steps (main cfg st) = steps st ∧
  heap (main cfg st) = heap st ∧ step_fn (main cfg st) = step_fn st ∧
  (workers (main cfg st) = workers st ∨
   ∃ k, workers (main cfg st) = workers st ++ [new_worker k (now st)]).
Proof.
  unfold main. repeat case_match; simpl; repeat split; eauto.
Qed.

Lemma run_snoc cfg t0 sched e :
  run cfg t0 (sched ++ [e]) = step cfg (run cfg t0 sched) e.
Proof. unfold run. by rewrite foldl_app. Qed.

(** ** Two invariants of the shared state *)

Lemma base_ok_step cfg st e : base_ok st → base_ok (step cfg st e).
Proof.
  intros [Hc Hh]. destruct e as [[|tid] dt]; unfold step; simpl.
  - destruct (main_frame cfg (elapse dt st)) as (_ & _ & Hheap & Hfn & Hws).
    split; [by rewrite Hfn|]. rewrite Hheap; simpl.
    eapply Forall_impl; [|done]. intros c Hlt; simpl in *.
    destruct Hws as [->|[k ->]]; simpl; [done|]. rewrite length_app; simpl. lia.
  - destruct (workers st !! tid) as [w|] eqn:Hw; [|done].
    destruct (target cfg tid (elapse dt st) w) as [st2 w'] eqn:Ht.
    pose proof (lookup_lt_Some _ _ _ Hw) as Hlt.
    destruct (target_frame _ _ _ _ _ _ Ht)
      as (_ & _ & Hws & _ & _ & _ & _ & (hs & Hheap & Hhs) & _).
    split; simpl.
    + target_cases Ht; try done.
      all: match goal with
           | H : gpu_stress_step ?fn ?a ?b = _ |- _ =>
               pose proof (gpu_stress_step_ok fn a b Hc) as Hok;
               by rewrite H in Hok
           end.
    + rewrite length_insert, Hws, Hheap; simpl. apply Forall_app. split; [done|].
      eapply Forall_impl; [|done]. by intros c [-> _].
Qed.

Lemma base_ok_run cfg t0 sched : base_ok (run cfg t0 sched).
Proof.
  induction sched as [|e sched IH] using rev_ind.
  - split; [apply fresh_fn_ok|constructor].
  - rewrite run_snoc. by apply base_ok_step.
Qed.

(** ** Invariants of a single worker

    A property [P] of a worker, of the clock, the step count and the store,
    holds of every worker in every reachable state when it holds of a new
    thread, survives the passing of time and the allocations of the other
    threads, and is kept by the worker's own statements. *)
Section WorkerInvariant.
Variable cfg : config.
Variable P : Z → nat → list (cell F) → nat → worker → Prop.
Hypothesis P_stable : ∀ t n h t' n' hs tid w,
  (t ≤ t')%Z → n ≤ n' → Forall (λ c, c_by c ≠ tid) hs →
  P t n h tid w → P t' n' (h ++ hs) tid w.
Hypothesis P_new : ∀ t n h tid k,
  Forall (λ c, c_by c ≠ tid) h → P t n h tid (new_worker k t).
Hypothesis P_step : ∀ st tid w st2 w',
  cache_ok (step_fn st) →
  P (now st) (steps st) (heap st) tid w →
  target cfg tid st w = (st2, w') →
  P (now st2) (steps st2) (heap st2) tid w'.

Lemma worker_invariant t0 sched tid w :
  workers (run cfg t0 sched) !! tid = Some w →
  P (now (run cfg t0 sched)) (steps (run cfg t0 sched))
    (heap (run cfg t0 sched)) tid w.
Proof.
  revert tid w. induction sched as [|[who dt] sched IH] using rev_ind; [done|].
  intros tid w. rewrite run_snoc.
  pose proof (base_ok_run cfg t0 sched) as [Hc Hh].
  set (st := run cfg t0 sched) in *.
  assert (Hold : ∀ tid w, workers st !! tid = Some w →
            P (now (elapse dt st)) (steps (elapse dt st)) (heap (elapse dt st)) tid w).
  { intros tid' w' Hw'. apply IH in Hw'. simpl.
    rewrite <- (app_nil_r (heap st)). eapply P_stable; [| | |done]; [lia|lia|done]. }
  unfold step; simpl. destruct who as [|tid0].
  - destruct (main_frame cfg (elapse dt st)) as (-> & -> & -> & _ & Hws).
    destruct Hws as [->|[k ->]]; simpl; [by apply Hold|].
    intros Hw. apply lookup_app_Some in Hw as [Hw|[Hge Hw]]; [by apply Hold|].
    destruct (tid - length (workers st)) eqn:Hd; [|done].
    simpl in Hw. injection Hw as <-.
    assert (tid = length (workers st)) as -> by lia.
    apply P_new. eapply Forall_impl; [|done]. simpl. lia.
  - destruct (workers st !! tid0) as [w0|] eqn:Hw0; [|by apply Hold].
    destruct (target cfg tid0 (elapse dt st) w0) as [st2 w0'] eqn:Ht.
    destruct (target_frame _ _ _ _ _ _ Ht)
      as (Hnow & Hsteps & Hws & _ & _ & _ & _ & (hs & Hheap & Hhs) & _).
    simpl. rewrite Hws; simpl. intros Hw.
    destruct (decide (tid = tid0)) as [->|Hne].
    + rewrite list_lookup_insert_eq in Hw by eauto using lookup_lt_Some.
      injection Hw as <-. eapply P_step; [|by apply Hold|done]. done.
    + rewrite list_lookup_insert_ne in Hw by done.
      rewrite Hnow, Hsteps, Hheap. eapply P_stable; [done|done| |by apply Hold].
      eapply Forall_impl; [|done]. by intros c [-> _].
Qed.

End WorkerInvariant.

(** ** What holds of every worker *)

Lemma matrix_cell_later cfg tid ro w t t' c :
  (t ≤ t')%Z → matrix_cell cfg tid ro w t c → matrix_cell cfg tid ro w t' c.
Proof. unfold matrix_cell. intros Ht (?&?&?&?&?&?). split_and!; try done; lia. Qed.

Lemma matrices_by_grow (h hs : list (cell F)) w t t' :
  (t ≤ t')%Z → matrices_by h w t → matrices_by (h ++ hs) w t'.
Proof.
  intros Ht (ra & rb & ca & cb & ? & ? & Ha & Hb & ?).
  exists ra, rb, ca, cb. repeat split; try done; try lia.
  all: by apply lookup_app_l_Some.
Qed.

Lemma pc_ok_grow cfg t t' (h hs : list (cell F)) w :
  (t ≤ t')%Z → pc_ok cfg t h w → pc_ok cfg t' (h ++ hs) w.
Proof.
  intros Ht. unfold pc_ok, in_loop. destruct (w_pc w); try done.
  - intros [Hm ?]. split; [|done]. by eapply matrices_by_grow.
  - intros (chk & r0 & ? & ? & (? & ? & Hm) & ?). exists chk, r0.
    repeat split; try done. eapply matrices_by_grow; [|done]. lia.
  - intros (chk & r0 & ? & ? & (? & ? & Hm) & ?). exists chk, r0.
    repeat split; try done. eapply matrices_by_grow; [|done]. lia.
  - intros (rx & chk & r0 & s & ? & ? & (? & ? & Hm) & ? & ? & ?). exists rx, chk, r0, s.
    repeat split; try done. eapply matrices_by_grow; [|done]. lia.
Qed.

Lemma foreign_lookup (h hs : list (cell F)) tid r c :
  Forall (λ c, c_by c ≠ tid) hs →
  (h ++ hs) !! r = Some c → c_by c = tid → h !! r = Some c.
Proof.
  intros Hhs Hl Hby. apply lookup_app_Some in Hl as [Hl|[_ Hl]]; [done|].
  apply list_elem_of_lookup_2 in Hl. rewrite List.Forall_forall in Hhs.
  apply list_elem_of_In in Hl. by apply Hhs in Hl.
Qed.

Lemma worker_ok_stable cfg t n h t' n' hs tid w :
  (t ≤ t')%Z → n ≤ n' → Forall (λ c, c_by c ≠ tid) hs →
  worker_ok cfg t n h tid w → worker_ok cfg t' n' (h ++ hs) tid w.
Proof.
  intros Ht Hn Hhs [H1 H2 H3 H4 H5 H6 H7 H8 H9]. split.
  - lia.
  - eapply Forall_impl; [|done]. simpl. lia.
  - intros r Hr. destruct (H3 r Hr) as (c & Hc & Hm). exists c.
    split; [by apply lookup_app_l_Some|by eapply matrix_cell_later].
  - intros r Hr. destruct (H4 r Hr) as (c & Hc & Hm). exists c.
    split; [by apply lookup_app_l_Some|by eapply matrix_cell_later].
  - intros r c Hc Hby Hro. eapply H5; eauto using foreign_lookup.
  - intros r c Hc Hby Hro. eapply H6; eauto using foreign_lookup.
  - intros r Hr. destruct (H7 r Hr) as (c & ra & rb & ca & cb & ? & ? & ? & ? & ? & ? & ? & ?).
    exists c, ra, rb, ca, cb. repeat split; try done; by apply lookup_app_l_Some.
  - intros s t1 He. destruct (H8 s t1 He) as (? & ? & ?). repeat split; [lia|lia|done].
  - by eapply pc_ok_grow.
Qed.

Lemma worker_ok_new cfg t n h tid k :
  Forall (λ c, c_by c ≠ tid) h → worker_ok cfg t n h tid (new_worker k t).
Proof.
  intros Hh. split; simpl; try done.
  - intros r c Hc Hby. apply list_elem_of_lookup_2, list_elem_of_In in Hc.
    rewrite List.Forall_forall in Hh. by apply Hh in Hc.
  - intros r c Hc Hby. apply list_elem_of_lookup_2, list_elem_of_In in Hc.
    rewrite List.Forall_forall in Hh. by apply Hh in Hc.
Qed.

Lemma lookup_snoc {A} (h : list A) (c x : A) (r : nat) :
  (h ++ [c]) !! r = Some x ↔ h !! r = Some x ∨ (r = length h ∧ x = c).
Proof.
  rewrite lookup_app_Some. split.
  - intros [?|[Hle Hl]]; [by left|right].
    destruct (r - length h) as [|n] eqn:Hd; [|done].
    simpl in Hl. split; [lia|congruence].
  - intros [?|[-> ->]]; [by left|right].
    split; [done|]. by rewrite Nat.sub_diag.
Qed.

Lemma lookup_snoc_new {A} (h : list A) (c : A) : (h ++ [c]) !! length h = Some c.
Proof. apply lookup_snoc. by right. Qed.

Ltac alloc_split Ht Hr :=
  match type of Ht with
  | context [match ?x with Ok _ => _ | Raise _ => _ end] =>
      destruct x as [[? ?]|?] eqn:Hr;
      [first [apply np_random_rand_ok in Hr as (? & ? & ? & ?)
             |apply tf_random_normal_ok in Hr as (? & ? & ? & ?)]
      |first [apply np_random_rand_raise in Hr as (? & ?)
             |apply tf_random_normal_raise in Hr as (? & ?)]]
  end; simplify_eq/=.

Ltac snoc_inv :=
  repeat match goal with
  | H : (_ ++ [_]) !! _ = Some _ |- _ =>
      apply lookup_snoc in H as [H|[-> ->]]; simpl in *
  end.

Ltac only_tac H5 H6 :=
  let Hl := fresh "Hl" in let Hby := fresh "Hby" in let Hro := fresh "Hro" in
  intros ? ? Hl Hby Hro; simpl in *;
  try (apply lookup_snoc in Hl as [Hl|[-> ->]]; simpl in *);
  first [ done
        | by eapply H5
        | by eapply H6
        | by specialize (H5 _ _ Hl Hby Hro)
        | by specialize (H6 _ _ Hl Hby Hro)
        | congruence ].

Ltac exit_tac := intros ? ? [= <- <-]; split_and!; simpl; done || lia.

Lemma matrix_cell_size cfg tid ro w t c :
  matrix_cell cfg tid ro w t c → (0 ≤ TENSOR_SIZE cfg)%Z.
Proof. intros (_ & _ & (<- & _) & _). lia. Qed.

Lemma worker_ok_step cfg st tid w st2 w' :
  cache_ok (step_fn st) →
  worker_ok cfg (now st) (steps st) (heap st) tid w →
  target cfg tid st w = (st2, w') →
  worker_ok cfg (now st2) (steps st2) (heap st2) tid w'.
Proof.
  intros Hc [H1 H2 H3 H4 H5 H6 H7 H8 H9] Ht.
  unfold pc_ok, before_loop, in_loop in H9.
  unfold target, cpu_stress, gpu_stress in Ht.
  destruct w as [k p a b e l ts rs it ex]; simpl in *.
  destruct p.
  - (* print *)
    destruct H9 as (? & ? & ? & ? & ? & ? & ?).
    destruct k; simplify_eq/=; by split.
  - (* first allocation *)
    destruct H9 as (? & ? & ? & ? & ? & ? & ?).
    destruct k; simpl in Ht; alloc_split Ht Hr.
    all: split; simpl; try done.
    all: try (by only_tac H5 H6).
    all: try (by exit_tac).
    all: try (intros r [= <-]; eexists; split; [apply lookup_snoc_new|];
              unfold matrix_cell; simpl; split_and!; eauto; lia).
  - (* second allocation *)
    destruct H9 as ([ra Hra] & ? & ? & ? & ? & ? & ?).
    destruct (H3 ra Hra) as (ca & Hca & Hmc).
    pose proof (matrix_cell_size _ _ _ _ _ _ Hmc) as Hsz.
    assert (Hat : (c_at ca ≤ now st)%Z) by (destruct Hmc as (_&_&_&_&_&?); lia).
    destruct k; simpl in Ht; alloc_split Ht Hr; try lia.
    all: split; simpl; try done.
    all: try (by only_tac H5 H6).
    all: try (by exit_tac).
    all: try (intros r [= <-]; eexists; split; [apply lookup_snoc_new|];
              unfold matrix_cell; simpl; split_and!; eauto; lia).
    all: try (intros r [= <-]; eexists; split; [by apply lookup_app_l_Some|];
              exact Hmc).
    all: unfold pc_ok, matrices_by, before_loop; simpl; (split; [|done]).
    all: eexists ra, _, ca, _; split_and!;
           [done|done|by apply lookup_app_l_Some|apply lookup_snoc_new
           |simpl; lia|simpl; lia].
  - (* the deadline *)
    destruct H9 as (Hm & -> & -> & -> & -> & ->).
    assert (st2 = st) as -> by (by destruct k; simplify_eq).
    assert (w' = goto AtCheck
           (bind_end_time (now st + TEST_DURATION_SECONDS cfg)
              (read_clock (now st) (Worker k AtDeadline a b None None ts [] 0 None))))
      as -> by (by destruct k; simplify_eq).
    clear Ht. split; simpl;
      try first [exact H1|exact H3|exact H4|exact H5|exact H6|exact H7|exact H8].
    + repeat constructor; lia.
    + exists [], (now st). unfold in_loop. simpl. split_and!; try done.
  - (* the loop condition *)
    destruct H9 as (chk & r0 & -> & Hlen & (-> & Hchk & Hm) & ->).
    assert (Hr0 : (ts ≤ r0 ≤ now st)%Z).
    { apply Forall_app in H2 as [_ H2]. by inversion H2. }
    assert (Heq : (st2, w') =
      if (now st <? r0 + TEST_DURATION_SECONDS cfg)%Z
      then (st, goto AtMul (read_clock (now st)
             (Worker k AtCheck a b (Some (r0 + TEST_DURATION_SECONDS cfg)%Z) l ts (chk ++ [r0]) it None)))
      else (st, exit_at (steps st, now st) Returned (read_clock (now st)
             (Worker k AtCheck a b (Some (r0 + TEST_DURATION_SECONDS cfg)%Z) l ts (chk ++ [r0]) it None))))
      by (by destruct k).
    clear Ht. destruct (Z.ltb_spec (now st) (r0 + TEST_DURATION_SECONDS cfg)) as [Hlt|Hge];
      simplify_eq/=.
    all: split; simpl;
      try first [exact H1|exact H3|exact H4|exact H5|exact H6|exact H7|exact H8].
    all: try (constructor; [lia|done]).
    all: try (by exit_tac).
    + exists (now st :: chk), r0. unfold in_loop; simpl. split_and!; try done.
      constructor; [lia|done].
    + exists (now st), chk, r0, (steps st). unfold in_loop; simpl.
      split_and!; try done; lia.
  - (* the product *)
    destruct H9 as (chk & r0 & -> & Hlen & (-> & Hchk & Hm) & ->).
    destruct Hm as (ra & rb & ca & cb & Hra & Hrb & Hca & Hcb & Hat).
    simpl in Hra, Hrb. subst a b.
    destruct (H3 ra eq_refl) as (ca' & Hca' & Hma).
    destruct (H4 rb eq_refl) as (cb' & Hcb' & Hmb).
    simplify_eq/=. rewrite Hca, Hcb in Ht.
    pose proof Hma as (? & ? & Hsa & Hda & _ & ?).
    pose proof Hmb as (? & ? & Hsb & Hdb & _ & ?).
    simpl in *.
    assert (∃ m st1, multiply k (c_val ca) (c_val cb) = Ok m ∧
              st2 = store (Cell m tid Prod (now st)) st1 ∧
              heap st1 = heap st ∧ now st1 = now st ∧ steps st1 = steps st ∧
              w' = goto AtCheck (bind_last (length (heap st))
                     (Worker k AtMul (Some ra) (Some rb)
                        (Some (r0 + TEST_DURATION_SECONDS cfg)%Z) l ts
                        (chk ++ [r0]) it None)))
      as (m & st1 & Hmul & -> & Hh1 & Hn1 & Hs1 & ->).
    { destruct k; simpl in *.
      - destruct (np_dot_shape _ _ _ Hsa Hsb) as (m & Hm & _).
        rewrite Hm in Ht. simplify_eq. by exists m, st.
      - destruct (gpu_stress_step _ _ _) as [fn r] eqn:Hg.
        assert (compatible (c_val ca) (c_val cb)) as Hcompat.
        { split; [congruence|by eapply has_shape_aligned]. }
        pose proof (gpu_stress_step_result _ _ _ Hc Hcompat) as Hres.
        rewrite Hg in Hres; simpl in Hres. subst r.
        destruct (eager_matmul_shape _ _ _ Hsa Hsb) as (m & Hm & _); [congruence|].
        rewrite Hm in Ht. simplify_eq. by exists m, (set_step_fn fn st). }
    clear Ht. simpl. rewrite Hh1, Hn1, Hs1.
    split; simpl; try done.
    + intros r [= <-]. exists ca. split; [by apply lookup_app_l_Some|exact Hma].
    + intros r [= <-]. exists cb. split; [by apply lookup_app_l_Some|exact Hmb].
    + only_tac H5 H6.
    + only_tac H5 H6.
    + intros r [= <-]. eexists _, ra, rb, ca, cb.
      split_and!; [apply lookup_snoc_new|done..| | |done];
        by apply lookup_app_l_Some.
    + unfold pc_ok; simpl. exists chk, r0. unfold in_loop; simpl.
      split_and!; try done; try lia.
      exists ra, rb, ca, cb. split_and!; try done; try lia;
        by apply lookup_app_l_Some.
  - (* returned *)
    assert (st2 = st ∧ w' = Worker k Returned a b e l ts rs it ex) as [-> ->]
      by (by destruct k; simplify_eq).
    by split.
  - (* dead *)
    assert (st2 = st ∧ w' = Worker k (Raised e0) a b e l ts rs it ex) as [-> ->]
      by (by destruct k; simplify_eq).
    by split.
Qed.

Lemma worker_ok_run cfg t0 sched tid w :
  workers (run cfg t0 sched) !! tid = Some w →
  worker_ok cfg (now (run cfg t0 sched)) (steps (run cfg t0 sched))
    (heap (run cfg t0 sched)) tid w.
Proof.
  apply (worker_invariant cfg (worker_ok cfg)).
  - intros. by eapply worker_ok_stable.
  - intros. by apply worker_ok_new.
  - intros. by eapply worker_ok_step.
Qed.

(** ** The trace cache along a run *)

Lemma spec_of_square cfg (m : ndarray F) :
  has_shape m (TENSOR_SIZE cfg) (TENSOR_SIZE cfg) → arr_dtype m = Float32 →
  spec_of m = (Float32, Z.to_nat (TENSOR_SIZE cfg), Z.to_nat (TENSOR_SIZE cfg)).
Proof.
  intros (Hr & Hc & _) Hd. unfold spec_of.
  assert (nrows m = Z.to_nat (TENSOR_SIZE cfg)) as -> by lia.
  assert (ncols m = Z.to_nat (TENSOR_SIZE cfg)) as -> by lia.
  by rewrite Hd.
Qed.

(** What a worker's statement does to the cache and to its product count. *)
Lemma target_traces cfg tid st w st2 w' :
  worker_ok cfg (now st) (steps st) (heap st) tid w →
  target cfg tid st w = (st2, w') →
  (step_fn st2 = step_fn st ∧ (w_kind w = GPU → w_iters w' = w_iters w)) ∨
  (w_kind w = GPU ∧ ∃ a b : ndarray F,
     spec_of a = (square_signature cfg).1 ∧ spec_of b = (square_signature cfg).2 ∧
     compatible a b ∧
     step_fn st2 = (gpu_stress_step (step_fn st) a b).1).
Proof.
  intros [_ _ H3 H4 _ _ _ _ H9] Ht.
  unfold pc_ok, in_loop in H9. unfold target, cpu_stress, gpu_stress in Ht.
  destruct w as [k p a b e l ts rs it ex]; simpl in *.
  destruct p; try (left; destruct k; repeat case_match; by simplify_eq/=).
  destruct k; [left; repeat case_match; by simplify_eq/=|].
  right. split; [done|].
  destruct H9 as (chk & r0 & _ & _ & (_ & _ & Hm) & _).
  destruct Hm as (ra & rb & ca & cb & Hra & Hrb & Hca & Hcb & _).
  simpl in Hra, Hrb. subst a b.
  destruct (H3 ra eq_refl) as (ca' & Hca' & (_ & _ & Hsa & Hda & _)).
  destruct (H4 rb eq_refl) as (cb' & Hcb' & (_ & _ & Hsb & Hdb & _)).
  simplify_eq/=. rewrite Hca, Hcb in Ht.
  exists (c_val ca), (c_val cb). split_and!.
  - by apply spec_of_square.
  - by apply spec_of_square.
  - split; [congruence|by eapply has_shape_aligned].
  - destruct (gpu_stress_step _ _ _) as [fn [m|err]]; by simplify_eq/=.
Qed.

Lemma traced_once_step cfg t0 sched e :
  traced_once cfg (run cfg t0 sched) →
  traced_once cfg (step cfg (run cfg t0 sched) e).
Proof.
  intros Hinv. pose proof (worker_ok_run cfg t0 sched) as Hok.
  set (st := run cfg t0 sched) in *.
  destruct e as [[|tid] dt]; unfold step; simpl.
  - destruct (main_frame cfg (elapse dt st)) as (_ & _ & _ & Hfn & Hws).
    destruct Hinv as [[Hf Hit]|Hf]; [left|right]; rewrite Hfn; simpl; [|done].
    split; [done|]. intros tid w Hw Hk.
    destruct Hws as [Hws|[k Hws]]; rewrite Hws in Hw; simpl in Hw; [by eapply Hit|].
    apply lookup_app_Some in Hw as [Hw|[_ Hw]]; [by eapply Hit|].
    destruct (tid - _); [|done]. by simplify_eq/=.
  - destruct (workers st !! tid) as [w|] eqn:Hw; [|done].
    destruct (target cfg tid (elapse dt st) w) as [st2 w'] eqn:Ht.
    destruct (target_frame _ _ _ _ _ _ Ht)
      as (_ & _ & Hws & _ & _ & _ & _ & _ & _ & Hk & _).
    assert (Hwok : worker_ok cfg (now (elapse dt st)) (steps (elapse dt st))
                     (heap (elapse dt st)) tid w).
    { simpl. rewrite <- (app_nil_r (heap st)).
      eapply worker_ok_stable; [| | |by apply Hok]; [lia|lia|done]. }
    destruct (target_traces _ _ _ _ _ _ Hwok Ht) as [[Hfn Hit']|(Hg & a & b & Ha & Hb & Hcomp & Hfn)].
    + destruct Hinv as [[Hf Hit]|Hf]; [left|right]; simpl; rewrite Hfn; simpl; [|done].
      split; [done|]. rewrite Hws; simpl. intros tid' w0 Hw0 Hk0.
      destruct (decide (tid' = tid)) as [->|Hne].
      * rewrite list_lookup_insert_eq in Hw0 by eauto using lookup_lt_Some.
        injection Hw0 as <-. rewrite Hit' by congruence. eapply Hit; [done|congruence].
      * rewrite list_lookup_insert_ne in Hw0 by done. by eapply Hit.
    + right. simpl. rewrite Hfn; simpl.
      pose proof (gpu_stress_step_traces (step_fn st) a b Hcomp) as Htr.
      simpl in Htr. rewrite Ha, Hb in Htr.
      unfold square_signature in *; simpl in *.
      destruct Hinv as [[Hf _]|Hf]; rewrite Hf in Htr |- *; simpl in Htr.
      * by rewrite Htr.
      * rewrite decide_True in Htr by done. by rewrite Htr.
Qed.

Lemma traced_once_run cfg t0 sched : traced_once cfg (run cfg t0 sched).
Proof.
  induction sched as [|e sched IH] using rev_ind.
  - left. split; [done|]. by intros tid w.
  - rewrite run_snoc. by apply traced_once_step.
Qed.

(** ** The coordinator along a run *)

Lemma replicate_snoc {A} (n : nat) (x : A) :
  replicate (S n) x = replicate n x ++ [x].
Proof. induction n as [|n IH]; [done|]. simpl in *. by rewrite <- IH. Qed.

Lemma main_ok_main cfg st : main_ok cfg st → main_ok cfg (main cfg st).
Proof.
  intros [Hk Hc Hg Hj Hi]. unfold main.
  assert (Hlen : length (workers st) = length (expected_kinds cfg (m_pc st))).
  { by rewrite <- Hk, length_fmap. }
  destruct (m_pc st) eqn:Hpc; simpl in *.
  - (* the start banner *)
    split; simpl; try done. lia.
  - (* starting a CPU thread *)
    rewrite length_replicate in Hlen.
    destruct (Z.ltb_spec (Z.of_nat i) (NUM_CPU_THREADS cfg)) as [Hlt|Hge].
    + split; simpl.
      * rewrite fmap_app, Hk. exact (eq_sym (replicate_snoc i CPU)).
      * rewrite Hc, Hlen. exact (eq_sym (seq_S i 0)).
      * done.
      * intros tid w Htid. lia.
      * unfold n_cpu. lia.
      
    + assert (i = n_cpu cfg) as -> by (unfold n_cpu in *; lia).
      split; simpl; try done; try (intros ? ? ?; lia).
  - (* starting the GPU thread *)
    rewrite length_replicate in Hlen.
    split; simpl; try done; try (intros ? ? ?; lia); try lia.
    + by rewrite fmap_app, Hk.
    + by rewrite Hlen.
  - (* joining a CPU thread *)
    rewrite Hc. destruct (seq 0 (n_cpu cfg) !! i) as [t|] eqn:Ht.
    + apply lookup_seq in Ht as [-> Hlt]. simpl.
      unfold joinable. destruct (workers st !! i) as [w|] eqn:Hw.
      * destruct (terminated w) eqn:Hterm.
        -- split; simpl; try done; try lia.
           intros tid w' Htid Hw'. destruct (decide (tid = i)) as [->|Hne].
           ++ simpl in Hw'. congruence.
           ++ eapply Hj; [|done]. lia.
        -- split; simpl; rewrite ?Hpc; simpl; try done.
      * split; simpl; rewrite ?Hpc; simpl; try done.
    + apply lookup_ge_None in Ht. rewrite length_seq in Ht.
      assert (i = n_cpu cfg) as -> by lia.
      split; simpl; done.
  - (* joining the GPU thread *)
    rewrite Hg. unfold joinable.
    destruct (workers st !! n_cpu cfg) as [w|] eqn:Hw.
    + destruct (terminated w) eqn:Hterm.
      * split; simpl; try done.
        intros tid w' Htid Hw'. destruct (decide (tid = n_cpu cfg)) as [->|Hne].
        -- simpl in Hw'. congruence.
        -- eapply Hj; [|done]. lia.
      * split; simpl; rewrite ?Hpc; simpl; try done.
    + split; simpl; rewrite ?Hpc; simpl; try done.
  - by split.
  - by split.
  - split; simpl; rewrite ?Hpc; simpl; done.
Qed.

(** What running a thread does to the state, as the coordinator sees it. *)
Lemma thread_step_view cfg st tid dt :
  let st' := step cfg st (Thread tid, dt) in
  m_pc st' = m_pc st ∧ cpu_threads st' = cpu_threads st ∧
  gpu_thread st' = gpu_thread st ∧ m_exit st' = m_exit st ∧
  ((workers st' = workers st ∧ stdout st' = stdout st) ∨
   ∃ w w', workers st !! tid = Some w ∧
     workers st' = <[tid := w']> (workers st) ∧
     w_kind w' = w_kind w ∧ w_pc w' ≠ AtPrint ∧
     (terminated w = true → w' = w) ∧
     stdout st' = stdout st ++
       match w_pc w with AtPrint => [banner (w_kind w)] | _ => [] end).
Proof.
  unfold step; simpl. destruct (workers st !! tid) as [w|] eqn:Hw.
  - destruct (target cfg tid (elapse dt st) w) as [st2 w'] eqn:Ht.
    destruct (target_frame _ _ _ _ _ _ Ht)
      as (_ & _ & Hws & Hpc & Hc & Hg & He & _ & Hout & Hk & _ & Hnp & Hterm).
    simpl. rewrite Hpc, Hc, Hg, He, Hws, Hout; simpl.
    split_and!; try done. right. by exists w, w'.
  - simpl. split_and!; try done. by left.
Qed.

Lemma main_ok_thread cfg st tid dt :
  main_ok cfg st → main_ok cfg (step cfg st (Thread tid, dt)).
Proof.
  intros [Hk Hc Hg Hj Hi].
  destruct (thread_step_view cfg st tid dt) as (Hpc & Hc' & Hg' & _ & Hws).
  split; rewrite ?Hpc, ?Hc', ?Hg'; try done.
  - destruct Hws as [[-> _]|(w & w' & Hw & -> & Hkind & _)]; [done|].
    rewrite list_fmap_insert, Hkind. rewrite list_insert_id; [done|].
    by rewrite list_lookup_fmap, Hw.
  - destruct Hws as [[Hws _]|(w & w' & Hw & Hws & _ & _ & Hterm & _)];
      intros tid' w0 Hlt Hw0; rewrite Hws in Hw0; [by eapply Hj|].
    destruct (decide (tid' = tid)) as [->|Hne].
    + rewrite list_lookup_insert_eq in Hw0 by eauto using lookup_lt_Some.
      injection Hw0 as <-. pose proof (Hj _ _ Hlt Hw) as Ht.
      by rewrite (Hterm Ht).
    + rewrite list_lookup_insert_ne in Hw0 by done. by eapply Hj.
Qed.

Lemma main_ok_elapse cfg st dt : main_ok cfg st → main_ok cfg (elapse dt st).
Proof. by intros []. Qed.

Lemma main_ok_run cfg t0 sched : main_ok cfg (run cfg t0 sched).
Proof.
  induction sched as [|[[|tid] dt] sched IH] using rev_ind.
  - by split.
  - rewrite run_snoc. unfold step; simpl. by apply main_ok_main, main_ok_elapse.
  - rewrite run_snoc. by apply main_ok_thread.
Qed.

(** When all threads are started there are [n_cpu + 1] of them. *)
Lemma launched_length cfg : length (launched cfg) = S (n_cpu cfg).
Proof. unfold launched. rewrite length_app, length_replicate; simpl. lia. Qed.

Lemma all_joined cfg st tid w :
  main_ok cfg st → join_count cfg (m_pc st) = S (n_cpu cfg) →
  workers st !! tid = Some w → terminated w = true.
Proof.
  intros [Hk _ _ Hj _] Hcount Hw. eapply Hj; [|done]. rewrite Hcount.
  apply lookup_lt_Some in Hw.
  assert (length (workers st) = length (expected_kinds cfg (m_pc st))) as Hlen
    by (by rewrite <- Hk, length_fmap).
  destruct (m_pc st); simpl in *; try lia; rewrite launched_length in Hlen; lia.
Qed.

(** ** The lines printed *)

Lemma shown_insert (ws : list worker) tid w w' :
  ws !! tid = Some w → w_kind w' = w_kind w → w_pc w' ≠ AtPrint →
  <[tid := w']> ws ≫= shown ≡ₚ
    (ws ≫= shown) ++ match w_pc w with AtPrint => [banner (w_kind w)] | _ => [] end.
Proof.
  intros Hw Hk Hpc.
  rewrite insert_take_drop by eauto using lookup_lt_Some.
  rewrite <- (take_drop_middle ws tid w Hw) at 3.
  rewrite !bind_app, !bind_cons.
  assert (shown w' = [banner (w_kind w)]) as ->.
  { unfold shown. rewrite Hk. by destruct (w_pc w'). }
  unfold shown at 4. destruct (w_pc w); simpl; rewrite ?app_nil_r; try done.
  rewrite <- Permutation_middle. apply Permutation_cons_append.
Qed.

Lemma stdout_ok_main cfg st :
  main_ok cfg st → stdout_ok st → stdout_ok (main cfg st).
Proof.
  intros [Hk _ _ _ _] (mid & Hout & Hmid). unfold main, stdout_ok.
  destruct (m_pc st) eqn:Hpc; simpl in *.
  - apply (f_equal length) in Hk. rewrite length_fmap in Hk.
    destruct (workers st); [|done]. simpl in Hmid.
    apply Permutation_nil_r in Hmid as ->. exists []. by rewrite Hout.
  - destruct (_ <? _)%Z; simpl; exists mid; (split; [done|]); [|done].
    by rewrite bind_app, Hmid; simpl; rewrite app_nil_r.
  - exists mid. split; [done|]. by rewrite bind_app, Hmid; simpl; rewrite app_nil_r.
  - destruct (_ !! _); [destruct (joinable _ _)|]; simpl; rewrite ?Hpc;
      by exists mid.
  - destruct (gpu_thread st); [destruct (joinable _ _)|]; simpl; rewrite ?Hpc;
      by exists mid.
  - exists mid. split; [|done]. rewrite Hout; simpl. by rewrite app_nil_r.
  - by exists mid.
  - rewrite Hpc. by exists mid.
Qed.

Lemma stdout_ok_thread cfg st tid dt :
  main_ok cfg st → stdout_ok st → stdout_ok (step cfg st (Thread tid, dt)).
Proof.
  intros Hmain (mid & Hout & Hmid).
  destruct (thread_step_view cfg st tid dt) as (Hpc & _ & _ & _ & Hws).
  unfold stdout_ok. rewrite Hpc.
  destruct Hws as [[-> ->]|(w & w' & Hw & -> & Hkind & Hnp & _ & ->)];
    [by exists mid|].
  pose proof (shown_insert _ _ _ _ Hw Hkind Hnp) as Hperm.
  destruct (w_pc w) eqn:Hwpc;
    try (exists mid; rewrite app_nil_r in *; split; [done|by rewrite Hperm]).
  assert (tail_lines (m_pc st) = []) as Htail.
  { destruct (m_pc st) eqn:Hm; try done.
    all: assert (terminated w = true) as Hterm
           by (eapply all_joined; [done|by rewrite Hm|done]).
    all: unfold terminated in Hterm; by rewrite Hwpc in Hterm. }
  rewrite Htail, app_nil_r in *.
  exists (mid ++ [banner (w_kind w)]). split.
  - by rewrite Hout, app_nil_r, app_assoc.
  - by rewrite Hperm, Hmid.
Qed.

Lemma stdout_ok_run cfg t0 sched : stdout_ok (run cfg t0 sched).
Proof.
  induction sched as [|[[|tid] dt] sched IH] using rev_ind.
  - by exists [].
  - rewrite run_snoc. unfold step; simpl.
    apply (stdout_ok_main cfg); [apply main_ok_elapse, main_ok_run|done].
  - rewrite run_snoc. apply stdout_ok_thread; [apply main_ok_run|done].
Qed.

Lemma banner_not_done k : banner k ≠ done_banner.
Proof. by destruct k. Qed.

Lemma shown_banners (ws : list worker) line :
  line ∈ ws ≫= shown → ∃ k, line = banner k.
Proof.
  intros Hin. apply list_elem_of_bind in Hin as (w & Hin & _).
  unfold shown in Hin. exists (w_kind w).
  destruct (w_pc w); by (apply list_elem_of_singleton in Hin || inversion Hin).
Qed.

Lemma done_printed_past_joins cfg t0 sched :
  done_banner ∈ stdout (run cfg t0 sched) →
  past_joins (m_pc (run cfg t0 sched)) = true.
Proof.
  destruct (stdout_ok_run cfg t0 sched) as (mid & -> & Hmid).
  rewrite !elem_of_app. intros [Hin|[Hin|Hin]].
  - destruct (m_pc _); simpl in Hin; by (apply list_elem_of_singleton in Hin || inversion Hin).
  - rewrite Hmid in Hin. apply shown_banners in Hin as [k Hk].
    symmetry in Hk. by apply banner_not_done in Hk.
  - destruct (m_pc _); simpl in *; try done; inversion Hin.
Qed.

Lemma shown_all (ws : list worker) :
  (∀ tid w, ws !! tid = Some w → terminated w = true) →
  ws ≫= shown = banner <$> (w_kind <$> ws).
Proof.
  induction ws as [|w ws IH]; intros Hterm; [done|].
  rewrite bind_cons, !fmap_cons, <- IH.
  - specialize (Hterm 0 w eq_refl). unfold terminated, shown in *.
    by destruct (w_pc w).
  - intros tid w' Hw'. by apply (Hterm (S tid)).
Qed.

Lemma banner_printed cfg t0 sched tid w :
  workers (run cfg t0 sched) !! tid = Some w → w_pc w ≠ AtPrint →
  banner (w_kind w) ∈ stdout (run cfg t0 sched).
Proof.
  intros Hw Hpc. destruct (stdout_ok_run cfg t0 sched) as (mid & -> & Hmid).
  rewrite !elem_of_app. right; left. rewrite Hmid.
  apply list_elem_of_bind. exists w. split; [|by eapply list_elem_of_lookup_2].
  unfold shown. destruct (w_pc w); try done; by apply list_elem_of_singleton.
Qed.

(** ** When [main] returns *)

Lemma terminated_exit cfg t n h tid w :
  worker_ok cfg t n h tid w → terminated w = true →
  ∃ s' t', w_exit w = Some (s', t') ∧ s' ≤ n ∧ (t' ≤ t)%Z.
Proof.
  intros [_ _ _ _ _ _ _ He Hpc] Hterm. unfold pc_ok, terminated in *.
  destruct (w_pc w); try done.
  - destruct Hpc as (rx & chk & r0 & s & _ & _ & _ & _ & _ & Hex).
    exists s, rx. split; [done|]. by destruct (He _ _ Hex) as (? & ? & _).
  - destruct Hpc as (_ & _ & _ & _ & _ & _ & _ & _ & [[s t'] Hex]).
    exists s, t'. split; [done|]. by destruct (He _ _ Hex) as (? & ? & _).
Qed.

Lemma exit_ok_run cfg t0 sched : exit_ok (run cfg t0 sched).
Proof.
  induction sched as [|[[|tid] dt] sched IH] using rev_ind; [done|..];
    rewrite run_snoc;
    pose proof (main_ok_run cfg t0 sched) as Hmain;
    pose proof (worker_ok_run cfg t0 sched) as Hok;
    set (st := run cfg t0 sched) in *.
  - unfold step, main, exit_ok in *; simpl.
    destruct (m_pc st) eqn:Hpc; simpl;
      try (destruct (m_exit st) as [[s t]|]; [by destruct IH|done]).
    + destruct (_ <? _)%Z; simpl; destruct (m_exit st) as [[s t]|];
        try done; by destruct IH.
    + destruct (_ !! _); [destruct (joinable _ _)|]; simpl; rewrite ?Hpc;
        destruct (m_exit st) as [[s t]|]; try done; by destruct IH.
    + destruct (gpu_thread st); [destruct (joinable _ _)|]; simpl; rewrite ?Hpc;
        destruct (m_exit st) as [[s t]|]; try done; by destruct IH.
    + split; [done|]. intros tid w Hw.
      assert (terminated w = true) as Hterm
        by (eapply all_joined; [done|by rewrite Hpc|done]).
      destruct (terminated_exit _ _ _ _ _ _ (Hok _ _ Hw) Hterm) as (s' & t' & ? & ? & ?).
      exists s', t'. split_and!; [done|lia|lia].
  - destruct (thread_step_view cfg st tid dt) as (Hpc & _ & _ & Hex & Hws).
    unfold exit_ok in *. rewrite Hex, Hpc.
    destruct (m_exit st) as [[s t]|]; [|done].
    destruct IH as [Hm IH]. split; [done|].
    destruct Hws as [[-> _]|(w & w' & Hw & -> & _ & _ & Hterm & _)]; [done|].
    intros tid' w0 Hw0. destruct (decide (tid' = tid)) as [->|Hne].
    + rewrite list_lookup_insert_eq in Hw0 by eauto using lookup_lt_Some.
      injection Hw0 as <-. rewrite Hterm; [by eapply IH|].
      eapply all_joined; [done|by rewrite Hm|done].
    + rewrite list_lookup_insert_ne in Hw0 by done. by eapply IH.
Qed.

(** ** A worker across further steps *)

Lemma turns_app tid s1 s2 : turns tid (s1 ++ s2) = turns tid s1 + turns tid s2.
Proof. induction s1 as [|e s1 IH]; simpl; [done|]. rewrite IH. lia. Qed.

(** A step leaves every worker in place; it changes worker [tid] only when
    it is a turn of [tid], and then by one statement of its target. *)
Lemma step_worker cfg st e tid w :
  workers st !! tid = Some w →
  ∃ w', workers (step cfg st e) !! tid = Some w' ∧
        (∃ hs, heap (step cfg st e) = heap st ++ hs) ∧
        if is_turn tid e
        then ∃ st2, target cfg tid (elapse e.2 st) w = (st2, w')
        else w' = w.
Proof.
  intros Hw. destruct e as [[|tid0] dt]; unfold step, is_turn; simpl.
  - destruct (main_frame cfg (elapse dt st)) as (_ & _ & -> & _ & Hws).
    exists w. split_and!; [|by exists []; rewrite app_nil_r|done].
    destruct Hws as [->|[k ->]]; simpl; [done|]. by apply lookup_app_l_Some.
  - destruct (workers st !! tid0) as [w0|] eqn:Hw0.
    + destruct (target cfg tid0 (elapse dt st) w0) as [st2 w0'] eqn:Ht.
      destruct (target_frame _ _ _ _ _ _ Ht)
        as (_ & _ & Hws & _ & _ & _ & _ & (hs & Hheap & _) & _).
      simpl. rewrite Hws; simpl. case_bool_decide as Heq.
      * subst tid0. assert (w0 = w) as -> by congruence.
        exists w0'. split_and!; [|by exists hs|by exists st2].
        apply list_lookup_insert_eq. eauto using lookup_lt_Some.
      * exists w. split_and!; [|by exists hs|done].
        by rewrite list_lookup_insert_ne.
    + exists w. simpl. split_and!; [done|by exists []; rewrite app_nil_r|].
      case_bool_decide; [congruence|done].
Qed.

Lemma worker_ok_elapse cfg st tid w dt :
  worker_ok cfg (now st) (steps st) (heap st) tid w →
  worker_ok cfg (now (elapse dt st)) (steps (elapse dt st))
    (heap (elapse dt st)) tid w.
Proof.
  intros Hok. simpl. rewrite <- (app_nil_r (heap st)).
  eapply worker_ok_stable; [| | |done]; [lia|lia|done].
Qed.

(** A worker never rebinds [a] or [b]. *)
Lemma target_keeps_matrices cfg tid st w st2 w' :
  worker_ok cfg (now st) (steps st) (heap st) tid w →
  target cfg tid st w = (st2, w') →
  (∀ r, w_a w = Some r → w_a w' = Some r) ∧
  (∀ r, w_b w = Some r → w_b w' = Some r).
Proof.
  intros [_ _ _ _ _ _ _ _ H9] Ht.
  unfold pc_ok, before_loop in H9. unfold target, cpu_stress, gpu_stress in Ht.
  destruct w as [k p a b e l ts rs it ex]; simpl in *.
  destruct p; destruct k; repeat case_match; simplify_eq/=; try done;
    destruct H9 as (? & ? & ?); by simplify_eq.
Qed.

Lemma run_keeps_matrices cfg t0 sched sched' tid w :
  workers (run cfg t0 sched) !! tid = Some w →
  ∃ w', workers (run cfg t0 (sched ++ sched')) !! tid = Some w' ∧
        (∀ r, w_a w = Some r → w_a w' = Some r) ∧
        (∀ r, w_b w = Some r → w_b w' = Some r) ∧
        ∃ hs, heap (run cfg t0 (sched ++ sched')) = heap (run cfg t0 sched) ++ hs.
Proof.
  intros Hw. induction sched' as [|e sched' IH] using rev_ind.
  - rewrite app_nil_r. exists w. split_and!; try done. exists []. by rewrite app_nil_r.
  - destruct IH as (w1 & Hw1 & Ha & Hb & hs & Hheap).
    rewrite app_assoc, run_snoc.
    destruct (step_worker cfg _ e _ _ Hw1) as (w2 & Hw2 & (hs' & Hheap') & Hturn).
    exists w2. split; [done|].
    assert ((∀ r, w_a w1 = Some r → w_a w2 = Some r) ∧
            (∀ r, w_b w1 = Some r → w_b w2 = Some r)) as [Ha' Hb'].
    { destruct (is_turn tid e); [|by subst].
      destruct Hturn as [st2 Ht]. eapply target_keeps_matrices; [|done].
      by apply worker_ok_elapse, worker_ok_run. }
    split_and!; [by eauto|by eauto|].
    exists (hs ++ hs'). by rewrite Hheap', Hheap, app_assoc.
Qed.

Lemma end_time_matrices cfg t n h tid w :
  worker_ok cfg t n h tid w → is_Some (w_end_time w) →
  ∃ ra rb, w_a w = Some ra ∧ w_b w = Some rb.
Proof.
  intros [_ _ _ _ _ _ _ _ Hp] [e He]. unfold pc_ok, before_loop, in_loop in Hp.
  assert (∃ t1, matrices_by h w t1) as (t1 & ra & rb & _ & _ & ? & ? & _);
    [|by exists ra, rb].
  destruct (w_pc w).
  1-2: destruct Hp as (_ & _ & ? & _); congruence.
  - destruct Hp as (_ & _ & ? & _); congruence.
  - destruct Hp as (? & _). by eexists.
  - destruct Hp as (chk & r0 & _ & _ & (_ & _ & ?) & _). by eexists.
  - destruct Hp as (chk & r0 & _ & _ & (_ & _ & ?) & _). by eexists.
  - destruct Hp as (rx & chk & r0 & s & _ & _ & (_ & _ & ?) & _). by eexists.
  - destruct Hp as (_ & _ & _ & _ & ? & _); congruence.
Qed.

(** ** Progress of a worker by its own turns *)

(** A measure that every statement of a worker lowers (unless it is zero)
    is at most its initial value less the worker's turns. *)
Lemma rank_descends cfg (rank : worker → nat) :
  (∀ st tid w st2 w',
     worker_ok cfg (now st) (steps st) (heap st) tid w →
     target cfg tid st w = (st2, w') → rank w' ≤ pred (rank w)) →
  ∀ t0 sched sched' tid w,
    workers (run cfg t0 sched) !! tid = Some w →
    ∃ w', workers (run cfg t0 (sched ++ sched')) !! tid = Some w' ∧
          w_kind w' = w_kind w ∧
          rank w' ≤ rank w - turns tid sched'.
Proof.
  intros Hdesc t0 sched sched' tid w Hw.
  induction sched' as [|e sched' IH] using rev_ind.
  - rewrite app_nil_r. exists w. simpl. split_and!; [done|done|lia].
  - destruct IH as (w1 & Hw1 & Hk1 & Hr1).
    rewrite app_assoc, run_snoc, turns_app; simpl.
    destruct (step_worker cfg _ e _ _ Hw1) as (w2 & Hw2 & _ & Hturn).
    exists w2. split; [done|].
    destruct (is_turn tid e).
    + destruct Hturn as [st2 Ht].
      pose proof (worker_ok_elapse cfg _ _ _ e.2 (worker_ok_run _ _ _ _ _ Hw1)) as Hok.
      specialize (Hdesc _ _ _ _ _ Hok Ht).
      destruct (target_frame _ _ _ _ _ _ Ht) as (_&_&_&_&_&_&_&_&_& Hk & _).
      split; [congruence|lia].
    + subst w2. split; [done|lia].
Qed.

Lemma no_iteration cfg t n h tid w :
  (TEST_DURATION_SECONDS cfg ≤ 0)%Z → worker_ok cfg t n h tid w →
  w_iters w = 0 ∧ w_pc w ≠ AtMul ∧
  (w_pc w = Returned → ∃ t_ret t1, w_reads w = [t_ret; t1]).
Proof.
  intros HD [_ _ _ _ _ _ _ _ Hp]. unfold pc_ok, before_loop, in_loop in Hp.
  assert (∀ chk r0, Forall (λ r, r0 ≤ r < r0 + TEST_DURATION_SECONDS cfg)%Z chk →
            chk = []) as Hnil.
  { intros [|c chk] r0 Hc; [done|]. apply Forall_cons_1 in Hc as [? _]. lia. }
  destruct (w_pc w).
  1-4: by (destruct Hp as (? & ? & ?); intuition).
  - destruct Hp as (chk & r0 & _ & <- & (_ & Hc & _) & _).
    by rewrite (Hnil _ _ Hc).
  - destruct Hp as (chk & r0 & _ & Hlen & (_ & Hc & _) & _).
    by rewrite (Hnil _ _ Hc) in Hlen.
  - destruct Hp as (rx & chk & r0 & s & Hr & <- & (_ & Hc & _) & _).
    rewrite (Hnil _ _ Hc) in *. split_and!; try done. by exists rx, r0.
  - by destruct Hp as (_ & _ & _ & _ & _ & _ & ? & _).
Qed.

Lemma statements_left_descends cfg st tid w st2 w' :
  (TEST_DURATION_SECONDS cfg ≤ 0)%Z →
  worker_ok cfg (now st) (steps st) (heap st) tid w →
  target cfg tid st w = (st2, w') →
  statements_left w' ≤ pred (statements_left w).
Proof.
  intros HD Hok Ht. pose proof (no_iteration _ _ _ _ _ _ HD Hok) as (_ & Hmul & _).
  destruct Hok as [_ Hr _ _ _ _ _ _ Hp].
  unfold pc_ok, in_loop in Hp. unfold target, cpu_stress, gpu_stress in Ht.
  unfold statements_left.
  destruct w as [k p a b e l ts rs it ex]; simpl in *.
  destruct p; try done.
  1-4: destruct k; repeat case_match; simplify_eq/=; lia.
  - destruct Hp as (chk & r0 & -> & _ & (-> & _ & _) & _).
    apply Forall_app in Hr as [_ Hr]. apply Forall_cons_1 in Hr as [Hr _].
    destruct (Z.ltb_spec (now st) (r0 + TEST_DURATION_SECONDS cfg)); [lia|].
    destruct k; simplify_eq/=; lia.
  - destruct k; simplify_eq/=; lia.
  - destruct k; simplify_eq/=; lia.
Qed.

Lemma setup_left_descends cfg st tid w st2 w' :
  target cfg tid st w = (st2, w') → setup_left w' ≤ pred (setup_left w).
Proof.
  intros Ht. unfold target, cpu_stress, gpu_stress in Ht. unfold setup_left.
  destruct w as [k p a b e l ts rs it ex]; simpl in *.
  destruct p; destruct k; repeat case_match; simplify_eq/=; lia.
Qed.

Lemma negative_size_view cfg t n h tid w :
  (TENSOR_SIZE cfg < 0)%Z → worker_ok cfg t n h tid w →
  (w_pc w = AtPrint ∨ w_pc w = AtAllocA ∨
   w_pc w = Raised (alloc_error (w_kind w))) ∧
  w_a w = None ∧ w_b w = None ∧ w_end_time w = None ∧ w_iters w = 0.
Proof.
  intros HS [_ _ Ha _ _ _ _ _ Hp]. unfold pc_ok, before_loop, in_loop, matrices_by in Hp.
  assert (w_a w = None) as Hna.
  { destruct (w_a w) as [r|] eqn:Hr; [|done].
    destruct (Ha r eq_refl) as (c & _ & Hm). apply matrix_cell_size in Hm. lia. }
  destruct (w_pc w).
  1-2: by intuition.
  - destruct Hp as ([r Hr] & _). congruence.
  - destruct Hp as ((ra & rb & ca & cb & ? & _) & _). congruence.
  - destruct Hp as (chk & r0 & _ & _ & (_ & _ & (ra & rb & ca & cb & ? & _)) & _). congruence.
  - destruct Hp as (chk & r0 & _ & _ & (_ & _ & (ra & rb & ca & cb & ? & _)) & _). congruence.
  - destruct Hp as (rx & chk & r0 & s & _ & _ & (_ & _ & (ra & rb & ca & cb & ? & _)) & _). congruence.
  - destruct Hp as (_ & -> & _ & ? & ? & _ & ? & _). by intuition.
Qed.

Lemma statements_before_error_descends cfg st tid w st2 w' :
  (TENSOR_SIZE cfg < 0)%Z →
  worker_ok cfg (now st) (steps st) (heap st) tid w →
  target cfg tid st w = (st2, w') →
  statements_before_error w' ≤ pred (statements_before_error w).
Proof.
  intros HS Hok Ht.
  destruct (negative_size_view _ _ _ _ _ _ HS Hok) as (Hpc & _).
  unfold target, cpu_stress, gpu_stress in Ht. unfold statements_before_error.
  destruct w as [k p a b e l ts rs it ex]; simpl in *.
  destruct Hpc as [-> |[-> | ->]].
  - destruct k; simplify_eq/=; lia.
  - destruct k; simpl in Ht; alloc_split Ht Hr; lia.
  - destruct k; simplify_eq/=; lia.
Qed.

(** ** The program can always finish

    From every reachable state some schedule leads to the exit of the
    process: let [main] start the threads that are not started yet, run
    every worker up to the evaluation of its loop condition at a time past
    its deadline, and let [main] join them. *)

(** A measure of what is left, made to fall in each phase. *)
Lemma reach_zero cfg t0 (P : state F → Prop) (rank : state F → nat) :
  (∀ sched, P (run cfg t0 sched) → 0 < rank (run cfg t0 sched) →
     ∃ e, P (run cfg t0 (sched ++ [e])) ∧
          rank (run cfg t0 (sched ++ [e])) < rank (run cfg t0 sched)) →
  ∀ sched, P (run cfg t0 sched) →
    ∃ sched', P (run cfg t0 (sched ++ sched')) ∧
              rank (run cfg t0 (sched ++ sched')) = 0.
Proof.
  intros Hstep sched. remember (rank (run cfg t0 sched)) as k eqn:Hk.
  revert sched Hk. induction k as [k IH] using lt_wf_ind. intros sched Hk HP.
  destruct (decide (k = 0)) as [->|Hpos].
  - exists []. by rewrite app_nil_r.
  - destruct (Hstep sched HP) as (e & HP' & Hlt); [lia|].
    destruct (IH _ ltac:(rewrite Hk; exact Hlt) _ eq_refl HP') as (sched' & ? & ?).
    exists (e :: sched').
    by replace (sched ++ e :: sched') with ((sched ++ [e]) ++ sched')
      by (by rewrite <- app_assoc).
Qed.

Lemma can_launch cfg t0 sched :
  ∃ sched', past_launch (m_pc (run cfg t0 (sched ++ sched'))) = true.
Proof.
  destruct (reach_zero cfg t0 (λ _, True) (λ st, launch_left cfg (m_pc st)))
    with (sched := sched) as (sched' & _ & Hz); [|done|].
  - clear sched. intros sched _ Hpos. exists (Main, 0). split; [done|].
    rewrite run_snoc. pose proof (mo_index _ _ (main_ok_run cfg t0 sched)) as Hi.
    unfold step, main; simpl. unfold loop_index_ok in Hi.
    destruct (m_pc (run cfg t0 sched)); simpl in *; try lia.
    destruct (Z.ltb_spec (Z.of_nat i) (NUM_CPU_THREADS cfg)); simpl; [|lia].
    unfold n_cpu in *. lia.
  - exists sched'.
    pose proof (mo_index _ _ (main_ok_run cfg t0 (sched ++ sched'))) as Hi.
    unfold loop_index_ok in Hi. simpl in Hz.
    destruct (m_pc _); simpl in *; try done; lia.
Qed.

Lemma sum_insert (ws : list worker) tid w w' :
  ws !! tid = Some w →
  sum_list_with worker_left (<[tid := w']> ws) + worker_left w =
  sum_list_with worker_left ws + worker_left w'.
Proof.
  intros Hw. rewrite insert_take_drop by eauto using lookup_lt_Some.
  rewrite <- (take_drop_middle ws tid w Hw) at 3.
  rewrite !sum_list_with_app; simpl. lia.
Qed.

Lemma worker_can_step cfg st tid w :
  workers st !! tid = Some w → 0 < worker_left w →
  ∃ dt w', workers (step cfg st (Thread tid, dt)) = <[tid := w']> (workers st) ∧
           worker_left w' < worker_left w.
Proof.
  intros Hw Hpos.
  exists (match w_end_time w with
          | Some e => Z.to_nat (e - now st)
          | None => 0
          end).
  unfold step; simpl. rewrite Hw.
  destruct (target cfg tid _ w) as [st2 w'] eqn:Ht.
  destruct (target_frame _ _ _ _ _ _ Ht) as (_ & _ & Hws & _).
  exists w'. simpl. rewrite Hws; simpl. split; [done|].
  unfold target, cpu_stress, gpu_stress in Ht. unfold worker_left in *.
  destruct w as [k p a b e l ts rs it ex]; simpl in *.
  destruct p; try lia.
  1-4,6: destruct k; repeat case_match; simplify_eq/=; lia.
  destruct e as [e|]; [|destruct k; simplify_eq/=; lia].
  destruct (Z.ltb_spec (now st + Z.of_nat (Z.to_nat (e - now st))) e); [lia|].
  destruct k; simplify_eq/=; lia.
Qed.

Lemma can_stop_workers cfg t0 sched :
  past_launch (m_pc (run cfg t0 sched)) = true →
  ∃ sched', past_launch (m_pc (run cfg t0 (sched ++ sched'))) = true ∧
            ∀ tid w, workers (run cfg t0 (sched ++ sched')) !! tid = Some w →
                     terminated w = true.
Proof.
  intros Hp.
  destruct (reach_zero cfg t0 (λ st, past_launch (m_pc st) = true) work_left)
    with (sched := sched) as (sched' & Hp' & Hz); [|done|].
  - clear sched Hp. intros sched Hp Hpos. unfold work_left in Hpos.
    assert (∃ tid w, workers (run cfg t0 sched) !! tid = Some w ∧ 0 < worker_left w)
      as (tid & w & Hw & Hwpos).
    { induction (workers (run cfg t0 sched)) as [|w ws IH]; simpl in Hpos; [lia|].
      destruct (decide (0 < worker_left w)).
      - by exists 0, w.
      - destruct IH as (tid & w' & ? & ?); [lia|]. by exists (S tid), w'. }
    destruct (worker_can_step cfg _ _ _ Hw Hwpos) as (dt & w' & Hws & Hlt).
    exists (Thread tid, dt). rewrite run_snoc.
    destruct (thread_step_view cfg (run cfg t0 sched) tid dt) as (-> & _).
    split; [done|]. unfold work_left. rewrite Hws.
    pose proof (sum_insert _ _ _ w' Hw). lia.
  - exists sched'. split; [done|]. intros tid w Hw.
    apply list_elem_of_lookup_2 in Hw.
    pose proof (sum_list_with_in _ worker_left _ Hw) as Hle.
    unfold work_left in Hz. unfold terminated, worker_left in *.
    destruct (w_pc w); simpl in *; try lia; done.
Qed.

Lemma can_join cfg t0 sched :
  past_launch (m_pc (run cfg t0 sched)) = true →
  (∀ tid w, workers (run cfg t0 sched) !! tid = Some w → terminated w = true) →
  ∃ sched', m_pc (run cfg t0 (sched ++ sched')) = MExited.
Proof.
  intros Hp Hterm.
  destruct (reach_zero cfg t0
              (λ st, past_launch (m_pc st) = true ∧
                     ∀ tid w, workers st !! tid = Some w → terminated w = true)
              (λ st, join_left cfg (m_pc st)))
    with (sched := sched) as (sched' & [Hp' _] & Hz); [|done|].
  - clear sched Hp Hterm. intros sched [Hp Hterm] Hpos. exists (Main, 0).
    rewrite run_snoc.
    pose proof (main_ok_run cfg t0 sched) as [Hk Hc Hg _ Hi].
    set (st := run cfg t0 sched) in *.
    assert (Hlen : length (workers st) = S (n_cpu cfg)).
    { apply (f_equal length) in Hk. rewrite length_fmap in Hk.
      destruct (m_pc st); try done; simpl in Hk; by rewrite launched_length in Hk. }
    assert (Hj : ∀ tid, tid < S (n_cpu cfg) → joinable tid (elapse 0 st) = true).
    { intros tid Htid. unfold joinable; simpl.
      destruct (workers st !! tid) as [w|] eqn:Hw; [by eapply Hterm|].
      apply lookup_ge_None in Hw. lia. }
    unfold step, main; simpl.
    destruct (m_pc st) eqn:Hpc; simpl in *; try done; try lia.
    + rewrite Hc. destruct (seq 0 (n_cpu cfg) !! i) as [t|] eqn:Ht.
      * apply lookup_seq in Ht as [-> Hlt]. simpl in *.
        rewrite Hj by lia. simpl. split; [done|lia].
      * simpl. split; [done|lia].
    + rewrite Hg, Hj by lia. simpl. split; [done|lia].
    + split; [done|lia].
  - exists sched'.
    pose proof (mo_index _ _ (main_ok_run cfg t0 (sched ++ sched'))) as Hi.
    unfold loop_index_ok in Hi. simpl in Hz.
    destruct (m_pc (run cfg t0 (sched ++ sched'))); simpl in *; try done; lia.
Qed.

Lemma can_finish cfg t0 sched :
  ∃ sched', exit_status (run cfg t0 (sched ++ sched')) = Some 0%Z.
Proof.
  destruct (can_launch cfg t0 sched) as (s1 & H1).
  destruct (can_stop_workers cfg t0 _ H1) as (s2 & H2 & Hterm).
  destruct (can_join cfg t0 _ H2 Hterm) as (s3 & H3).
  exists (s1 ++ s2 ++ s3). rewrite !app_assoc. unfold exit_status. by rewrite H3.
Qed.

(** ** Progress of a worker when the clock advances *)

Lemma step_now cfg st e : now (step cfg st e) = (now st + Z.of_nat e.2)%Z.
Proof.
  destruct e as [[|tid] dt]; unfold step; simpl.
  - by destruct (main_frame cfg (elapse dt st)) as (-> & _).
  - destruct (workers st !! tid) as [w|]; [|done].
    destruct (target cfg tid (elapse dt st) w) as [st2 w'] eqn:Ht.
    destruct (target_frame _ _ _ _ _ _ Ht) as (Hn & _). simpl. by rewrite Hn.
Qed.

(** A thread in the list after a step was there before, or [main] has just
    started it. *)
Lemma step_worker_origin cfg st e tid w' :
  workers (step cfg st e) !! tid = Some w' →
  is_Some (workers st !! tid) ∨
  ∃ k, w' = new_worker k (now st + Z.of_nat e.2) ∧ is_turn tid e = false.
Proof.
  destruct (workers st !! tid) as [w|] eqn:Hw; [by eauto|]. intros Hw'. right.
  destruct e as [[|tid0] dt]; unfold step, is_turn in *; simpl in *.
  - destruct (main_frame cfg (elapse dt st)) as (_ & _ & _ & _ & Hws).
    destruct Hws as [Hws|[k Hws]]; rewrite Hws in Hw'; simpl in Hw'; [congruence|].
    apply lookup_snoc in Hw' as [?|[_ ->]]; [congruence|]. by exists k.
  - destruct (workers st !! tid0) as [w0|] eqn:Hw0; simpl in *; [|congruence].
    destruct (target cfg tid0 (elapse dt st) w0) as [st2 w0'] eqn:Ht.
    destruct (target_frame _ _ _ _ _ _ Ht) as (_ & _ & Hws & _).
    simpl in Hw'. rewrite Hws in Hw'; simpl in Hw'.
    destruct (decide (tid = tid0)) as [->|Hne]; [congruence|].
    rewrite list_lookup_insert_ne in Hw' by done. congruence.
Qed.

Lemma paced_app q tid s1 s2 : paced q tid (s1 ++ s2) ↔ paced q tid s1 ∧ paced q tid s2.
Proof. apply Forall_app. Qed.

(** A measure of a worker and the clock that the passing of time does not
    raise and that every statement of the worker lowers (unless it is
    zero), provided [q] clock units passed before it, is at most its
    initial value less the worker's turns. *)
Lemma paced_rank_descends cfg q (rank : Z → worker → nat) :
  (∀ t t' w, (t ≤ t')%Z → rank t' w ≤ rank t w) →
  (∀ st tid w dt st2 w', q ≤ dt →
     worker_ok cfg (now st) (steps st) (heap st) tid w →
     target cfg tid (elapse dt st) w = (st2, w') →
     rank (now st2) w' ≤ pred (rank (now st) w)) →
  ∀ t0 sched sched' tid w,
    workers (run cfg t0 sched) !! tid = Some w → paced q tid sched' →
    ∃ w', workers (run cfg t0 (sched ++ sched')) !! tid = Some w' ∧
          w_kind w' = w_kind w ∧
          rank (now (run cfg t0 (sched ++ sched'))) w' ≤
            rank (now (run cfg t0 sched)) w - turns tid sched'.
Proof.
  intros Hmono Hdesc t0 sched sched' tid w Hw.
  induction sched' as [|e sched' IH] using rev_ind; intros Hp.
  - rewrite app_nil_r. exists w. simpl. split_and!; [done|done|lia].
  - apply paced_app in Hp as [Hp He]. apply Forall_cons_1 in He as [He _].
    destruct (IH Hp) as (w1 & Hw1 & Hk1 & Hr1).
    rewrite app_assoc, run_snoc, turns_app; simpl.
    destruct (step_worker cfg _ e _ _ Hw1) as (w2 & Hw2 & _ & Hturn).
    exists w2. split; [done|]. rewrite step_now.
    destruct (is_turn tid e).
    + destruct Hturn as [st2 Ht].
      pose proof (worker_ok_run _ _ _ _ _ Hw1) as Hok.
      pose proof (Hdesc _ _ _ _ _ _ (He eq_refl) Hok Ht) as Hd.
      destruct (target_frame _ _ _ _ _ _ Ht) as (Hn&_&_&_&_&_&_&_&_& Hk & _).
      rewrite Hn in Hd. simpl in Hd. split; [congruence|lia].
    + subst w2. split; [done|].
      etrans; [apply (Hmono (now (run cfg t0 (sched ++ sched')))); lia|lia].
Qed.

Lemma paced_left_mono cfg t t' w :
  (t ≤ t')%Z → paced_left cfg t' w ≤ paced_left cfg t w.
Proof. intros. unfold paced_left. repeat case_match; lia. Qed.

Lemma paced_left_descends cfg st tid w dt st2 w' :
  1 ≤ dt →
  worker_ok cfg (now st) (steps st) (heap st) tid w →
  target cfg tid (elapse dt st) w = (st2, w') →
  paced_left cfg (now st2) w' ≤ pred (paced_left cfg (now st) w).
Proof.
  intros Hdt [_ _ _ _ _ _ _ _ Hp] Ht.
  destruct (target_frame _ _ _ _ _ _ Ht) as (-> & _). simpl.
  unfold pc_ok, in_loop in Hp. unfold target, cpu_stress, gpu_stress in Ht.
  unfold paced_left.
  destruct w as [k p a b e l ts rs it ex]; simpl in *.
  destruct p.
  1,4,7,8: destruct k; simplify_eq/=; lia.
  1-2: destruct k; repeat case_match; simplify_eq/=; lia.
  - destruct Hp as (chk & r0 & _ & _ & (-> & _) & _).
    destruct (Z.ltb_spec (now st + Z.of_nat dt) (r0 + TEST_DURATION_SECONDS cfg));
      destruct k; simplify_eq/=; lia.
  - destruct Hp as (chk & r0 & _ & _ & (-> & _) & _).
    destruct k; repeat case_match; simplify_eq/=; lia.
Qed.

Lemma paced_left_bound cfg t n h tid w :
  worker_ok cfg t n h tid w →
  paced_left cfg t w ≤ Z.to_nat (TEST_DURATION_SECONDS cfg) + 5.
Proof.
  intros [_ Hr _ _ _ _ _ _ Hp]. unfold pc_ok, in_loop in Hp. unfold paced_left.
  destruct (w_pc w); try lia.
  - destruct Hp as (chk & r0 & Hreads & _ & (-> & _) & _).
    rewrite Hreads in Hr. apply Forall_app in Hr as [_ Hr].
    apply Forall_cons_1 in Hr as [? _]. lia.
  - destruct Hp as (chk & r0 & Hreads & _ & (-> & _) & _).
    rewrite Hreads in Hr. apply Forall_app in Hr as [_ Hr].
    apply Forall_cons_1 in Hr as [? _]. lia.
Qed.

(** When at least one clock unit passes before each statement of a worker,
    the duration plus five statements end it. *)
Lemma paced_worker_stops cfg t0 sched sched' tid w :
  workers (run cfg t0 sched) !! tid = Some w →
  paced 1 tid sched' →
  paced_left cfg (now (run cfg t0 sched)) w ≤ turns tid sched' →
  ∃ w', workers (run cfg t0 (sched ++ sched')) !! tid = Some w' ∧
        terminated w' = true.
Proof.
  intros Hw Hp Hturns.
  destruct (paced_rank_descends cfg 1 (paced_left cfg) (paced_left_mono cfg)
              (paced_left_descends cfg) t0 sched sched' tid w Hw Hp)
    as (w' & Hw' & _ & Hrank).
  exists w'. split; [done|].
  assert (paced_left cfg (now (run cfg t0 (sched ++ sched'))) w' = 0) as Hz by lia.
  unfold paced_left in Hz. unfold terminated.
  destruct (w_pc w'); try done; repeat case_match; lia.
Qed.

(** ** A traced call and the next one *)

(** After a call on tensors that [tf.matmul] accepts, the graph of the body
    is in the cache under their signature, and a further call with these
    tensors runs it: it neither traces nor changes the cache. *)
Lemma gpu_stress_step_cached fn (a b : ndarray F) :
  cache_ok fn → compatible a b →
  cache_lookup (spec_of a, spec_of b) (fn_cache (gpu_stress_step fn a b).1) =
    Some (MatMul (Placeholder 0) (Placeholder 1)) ∧
  gpu_stress_step (gpu_stress_step fn a b).1 a b =
    ((gpu_stress_step fn a b).1, eager_matmul a b).
Proof.
  intros Hok Hc.
  assert (cache_lookup (spec_of a, spec_of b) (fn_cache (gpu_stress_step fn a b).1) =
          Some (MatMul (Placeholder 0) (Placeholder 1))) as Hhit.
  { pose proof (gpu_stress_step_traces fn a b Hc) as Htr. simpl in Htr.
    destruct (cache_lookup (spec_of a, spec_of b) (fn_cache fn)) as [g|] eqn:Hl.
    - rewrite Htr, Hl. by destruct (Hok _ _ _ Hl) as (-> & _).
    - rewrite Htr; simpl. by rewrite decide_True. }
  split; [done|]. unfold gpu_stress_step at 1, tf_function. by rewrite Hhit.
Qed.

(** [_] is bound only by a completed product. *)
Lemma last_counted cfg t0 sched tid w r :
  workers (run cfg t0 sched) !! tid = Some w → w_last w = Some r → 1 ≤ w_iters w.
Proof.
  intros Hw Hr.
  assert (Hstep : ∀ (st : state F) tid w st2 w',
            cache_ok (step_fn st) → (is_Some (w_last w) → 1 ≤ w_iters w) →
            target cfg tid st w = (st2, w') → is_Some (w_last w') → 1 ≤ w_iters w').
  { clear. intros st tid w st2 w' _ HP Ht.
    unfold target, cpu_stress, gpu_stress in Ht.
    destruct w as [k p a b e l ts rs it ex]; simpl in *.
    destruct p; destruct k; repeat case_match; simplify_eq/=; try done; intros; lia. }
  apply (worker_invariant cfg (λ _ _ _ _ w, is_Some (w_last w) → 1 ≤ w_iters w)
           ltac:(auto) ltac:(by intros ? ? ? ? ? ? [? [=]]) Hstep t0 sched tid w Hw).
  by eauto.
Qed.

(** * The properties of the specification *)

(** C1. The coordinator starts [NUM_CPU_THREADS] CPU workers and one GPU
    worker, each a thread of its own that the scheduler may run at any
    time, all of them before it waits for any.  It reaches line 53, prints
    the completion line and returns only when every one of these threads
    has terminated, and its return is a strictly later step than the
    termination of each of them (at a clock value that is not earlier). *)
Theorem main_waits_for_all_workers cfg t0 sched :
  let st := run cfg t0 sched in
  (past_launch (m_pc st) = true → w_kind <$> workers st = launched cfg) ∧
  (past_joins (m_pc st) = true ∨ done_banner ∈ stdout st →
     w_kind <$> workers st = launched cfg ∧
     ∀ tid w, workers st !! tid = Some w → terminated w = true) ∧
  (∀ s t, m_exit st = Some (s, t) →
     m_pc st = MExited ∧
     ∀ tid w, workers st !! tid = Some w →
       ∃ s' t', w_exit w = Some (s', t') ∧ terminated w = true ∧
                s' < s ∧ (t' ≤ t)%Z).
Proof.
  intros st. pose proof (main_ok_run cfg t0 sched) as Hmain. fold st in Hmain.
  split_and!.
  - intros Hp. rewrite (mo_kinds _ _ Hmain). by destruct (m_pc st).
  - intros Hp. assert (past_joins (m_pc st) = true) as Hj.
    { destruct Hp as [?|Hin]; [done|by apply done_printed_past_joins]. }
    split.
    + rewrite (mo_kinds _ _ Hmain). by destruct (m_pc st).
    + intros tid w Hw. eapply all_joined; [done| |done]. by destruct (m_pc st).
  - intros s t Hex. pose proof (exit_ok_run cfg t0 sched) as He.
    unfold exit_ok in He. fold st in He. rewrite Hex in He.
    destruct He as [Hpc He]. split; [done|]. intros tid w Hw.
    destruct (He _ _ Hw) as (s' & t' & Hw' & ? & ?). exists s', t'.
    split_and!; try done.
    by destruct (ok_exit _ _ _ _ _ _ (worker_ok_run _ _ _ _ _ Hw) _ _ Hw') as (_ & _ & ?).
Qed.

(** C2, as amended.  A worker started at [w_started] with duration [D]
    does not return before [w_started + D].  Its deadline is [t1 + D] for
    the clock value [t1] it read after its allocations
    ([w_started ≤ t1]); it returns at the first clock value [t_ret] it reads
    that is not below the deadline, and when [D] is positive or the loop
    body ran at least once it overruns the deadline by less than the time
    since its previous reading, that is by less than its final iteration.

    That it returns, and where, is shown and not assumed.  As long as the
    worker has not returned, every value its loop condition has read is
    below the deadline.  An evaluation of the loop condition at a clock
    value below the deadline leads to the next product; an evaluation at a
    value that is not below it makes the worker return there and then,
    with that value as its exit stamp.  And when at least one clock unit
    passes before each of its statements, the worker has returned after
    [paced_left] of them, which is never more than the duration plus five
    (for a size the allocator accepts), however the scheduler interleaves
    them with the other threads. *)
Theorem worker_returns_in_window cfg t0 sched tid w :
  workers (run cfg t0 sched) !! tid = Some w →
  let st := run cfg t0 sched in
  (w_pc w = Returned →
     ∃ s t_ret t1,
       w_exit w = Some (s, t_ret) ∧ head (w_reads w) = Some t_ret ∧
       list.last (w_reads w) = Some t1 ∧
       w_end_time w = Some (t1 + TEST_DURATION_SECONDS cfg)%Z ∧
       (w_started w ≤ t1 ≤ t_ret)%Z ∧
       (w_started w + TEST_DURATION_SECONDS cfg ≤ t_ret)%Z ∧
       (t1 + TEST_DURATION_SECONDS cfg ≤ t_ret)%Z ∧
       (0 ≤ final_iteration w)%Z ∧
       ((0 < TEST_DURATION_SECONDS cfg)%Z ∨ 1 ≤ w_iters w →
          (t_ret < t1 + TEST_DURATION_SECONDS cfg + final_iteration w)%Z) ∧
       ∃ chk, w_reads w = t_ret :: chk ++ [t1] ∧ length chk = w_iters w ∧
              Forall (λ r, t1 ≤ r < t1 + TEST_DURATION_SECONDS cfg)%Z chk) ∧
  (∀ e, w_end_time w = Some e → w_pc w ≠ Returned →
     (w_pc w = AtCheck ∨ w_pc w = AtMul) ∧ w_exit w = None ∧
     ∃ t1 chk, w_reads w = chk ++ [t1] ∧
               e = (t1 + TEST_DURATION_SECONDS cfg)%Z ∧
               Forall (λ r, t1 ≤ r < e)%Z chk) ∧
  (∀ e dt, w_pc w = AtCheck → w_end_time w = Some e →
     ∃ w', workers (run cfg t0 (sched ++ [(Thread tid, dt)])) !! tid = Some w' ∧
           w_reads w' = (now st + Z.of_nat dt)%Z :: w_reads w ∧
           w_iters w' = w_iters w ∧
           if (now st + Z.of_nat dt <? e)%Z
           then w_pc w' = AtMul ∧ w_exit w' = None
           else w_pc w' = Returned ∧
                w_exit w' = Some (S (steps st), (now st + Z.of_nat dt)%Z)) ∧
  paced_left cfg (now st) w ≤ Z.to_nat (TEST_DURATION_SECONDS cfg) + 5 ∧
  (∀ sched', (0 ≤ TENSOR_SIZE cfg)%Z → paced 1 tid sched' →
     paced_left cfg (now st) w ≤ turns tid sched' →
     ∃ w', workers (run cfg t0 (sched ++ sched')) !! tid = Some w' ∧
           w_pc w' = Returned).
Proof.
  intros Hw st. pose proof (worker_ok_run _ _ _ _ _ Hw) as Hok. fold st in Hok.
  split_and!.
  - intros Hpc. destruct Hok as [_ Hr _ _ _ _ _ _ Hp].
    unfold pc_ok in Hp. rewrite Hpc in Hp.
    destruct Hp as (rx & chk & r0 & s & Hreads & Hlen & (He & Hchk & _) & Hle & Hge & Hex).
    rewrite Hreads in Hr. apply Forall_cons_1 in Hr as [Hrx Hr].
    apply Forall_app in Hr as [_ Hr0]. apply Forall_cons_1 in Hr0 as [Hr0 _].
    exists s, rx, r0. unfold final_iteration. rewrite Hreads; simpl.
    split_and!; try done; try lia.
    + by rewrite last_cons, last_snoc.
    + destruct chk as [|c chk]; simpl; [lia|].
      apply Forall_cons_1 in Hchk as [? _]. lia.
    + intros Hpos. destruct chk as [|c chk]; simpl in *.
      * destruct Hpos; lia.
      * apply Forall_cons_1 in Hchk as [? _]. lia.
    + by exists chk.
  - intros e He Hnr. destruct Hok as [_ _ _ _ _ _ _ _ Hp].
    unfold pc_ok, before_loop, in_loop in Hp. destruct (w_pc w); try done.
    1-2: destruct Hp as (_ & _ & ? & _); congruence.
    + destruct Hp as (_ & _ & ? & _); congruence.
    + destruct Hp as (_ & ? & _); congruence.
    + destruct Hp as (chk & r0 & Hreads & _ & (He' & Hchk & _) & Hex).
      split_and!; [by left|done|]. exists r0, chk.
      split_and!; [done|congruence|].
      by assert (e = r0 + TEST_DURATION_SECONDS cfg)%Z as -> by congruence.
    + destruct Hp as (chk & r0 & Hreads & _ & (He' & Hchk & _) & Hex).
      split_and!; [by right|done|]. exists r0, chk.
      split_and!; [done|congruence|].
      by assert (e = r0 + TEST_DURATION_SECONDS cfg)%Z as -> by congruence.
    + destruct Hp as (_ & _ & _ & _ & ? & _); congruence.
  - intros e dt Hpc He. rewrite run_snoc. fold st.
    assert (w_exit w = None) as Hex.
    { destruct Hok as [_ _ _ _ _ _ _ _ Hp]. unfold pc_ok in Hp. rewrite Hpc in Hp.
      by destruct Hp as (? & ? & _ & _ & _ & ?). }
    destruct (step_worker cfg st (Thread tid, dt) _ _ Hw) as (w' & Hw' & _ & Hturn).
    unfold is_turn in Hturn. simpl in Hturn. rewrite bool_decide_true in Hturn by done.
    destruct Hturn as [st2 Ht]. exists w'. split; [done|].
    unfold target, cpu_stress, gpu_stress in Ht. rewrite Hpc, He in Ht. simpl in Ht.
    destruct (now st + Z.of_nat dt <? e)%Z; destruct (w_kind w);
      simplify_eq/=; by split_and!.
  - by eapply paced_left_bound.
  - intros sched' HS Hp Hturns.
    destruct (paced_worker_stops cfg t0 sched sched' tid w Hw Hp Hturns)
      as (w' & Hw' & Hterm).
    exists w'. split; [done|].
    pose proof (worker_ok_run _ _ _ _ _ Hw') as [_ _ _ _ _ _ _ _ Hpc].
    unfold terminated, pc_ok in *. destruct (w_pc w'); try done.
    destruct Hpc as (? & _). lia.
Qed.

(** C3, as amended.  main.py does not check the size itself.  With a
    negative size the first allocation call of each worker raises the
    library's invalid-argument error ([ValueError] from numpy,
    [InvalidArgumentError] from TensorFlow): the thread is dead after its
    second statement and never binds a matrix, computes a deadline or
    multiplies.  With size zero (as with any size that is not negative) no
    allocation raises and the worker is at its loop after four statements;
    the matrices of size zero are empty. *)
Theorem negative_size_raises cfg t0 sched tid w :
  workers (run cfg t0 sched) !! tid = Some w →
  ((TENSOR_SIZE cfg < 0)%Z →
     (w_pc w = AtPrint ∨ w_pc w = AtAllocA ∨
      w_pc w = Raised (alloc_error (w_kind w))) ∧
     w_a w = None ∧ w_b w = None ∧ w_end_time w = None ∧ w_iters w = 0 ∧
     ∀ sched', 2 ≤ turns tid sched' →
       ∃ w', workers (run cfg t0 (sched ++ sched')) !! tid = Some w' ∧
             w_pc w' = Raised (alloc_error (w_kind w))) ∧
  ((0 ≤ TENSOR_SIZE cfg)%Z →
     (∀ e, w_pc w ≠ Raised e) ∧
     ∀ sched', 4 ≤ turns tid sched' →
       ∃ w', workers (run cfg t0 (sched ++ sched')) !! tid = Some w' ∧
             (w_pc w' = AtCheck ∨ w_pc w' = AtMul ∨ w_pc w' = Returned)) ∧
  (TENSOR_SIZE cfg = 0%Z →
     ∀ r, w_a w = Some r ∨ w_b w = Some r →
       ∃ c, heap (run cfg t0 sched) !! r = Some c ∧ rows (c_val c) = []).
Proof.
  intros Hw. pose proof (worker_ok_run _ _ _ _ _ Hw) as Hok. split_and!.
  - intros HS. destruct (negative_size_view _ _ _ _ _ _ HS Hok) as (? & ? & ? & ? & ?).
    split_and!; try done. intros sched' Hturns.
    destruct (rank_descends cfg statements_before_error
                (λ st tid w st2 w', statements_before_error_descends cfg st tid w st2 w' HS)
                t0 sched sched' tid w Hw) as (w' & Hw' & Hk & Hrank).
    exists w'. split; [done|].
    assert (statements_before_error w' = 0) as Hz.
    { assert (statements_before_error w ≤ 2)
        by (unfold statements_before_error; destruct (w_pc w); lia). lia. }
    pose proof (worker_ok_run _ _ _ _ _ Hw') as Hok'.
    destruct (negative_size_view _ _ _ _ _ _ HS Hok') as (Hpc' & _).
    unfold statements_before_error in Hz. rewrite <- Hk.
    destruct Hpc' as [Hp|[Hp|Hp]]; rewrite Hp in *; done.
  - intros HS.
    assert (Hnr : ∀ t' w', workers (run cfg t0 t') !! tid = Some w' →
                    ∀ e, w_pc w' ≠ Raised e).
    { intros t' w' Hw' e He.
      pose proof (worker_ok_run _ _ _ _ _ Hw') as [_ _ _ _ _ _ _ _ Hp].
      unfold pc_ok in Hp. rewrite He in Hp. destruct Hp as (? & _). lia. }
    split; [by eapply Hnr|]. intros sched' Hturns.
    destruct (rank_descends cfg setup_left
                (λ st tid w st2 w' _, setup_left_descends cfg st tid w st2 w')
                t0 sched sched' tid w Hw) as (w' & Hw' & _ & Hrank).
    exists w'. split; [done|].
    assert (setup_left w' = 0) as Hz.
    { assert (setup_left w ≤ 4) by (unfold setup_left; destruct (w_pc w); lia). lia. }
    unfold setup_left in Hz. destruct (w_pc w') eqn:Hpc'; try done; try by eauto.
    by eapply Hnr in Hpc'.
  - intros HS r Hr.
    assert (∃ c, heap (run cfg t0 sched) !! r = Some c ∧
                 has_shape (c_val c) (TENSOR_SIZE cfg) (TENSOR_SIZE cfg))
      as (c & Hc & (Hn & _ & Hl & _)).
    { destruct Hr as [Hr|Hr].
      - destruct (ok_a _ _ _ _ _ _ Hok _ Hr) as (c & ? & _ & _ & ? & _). by exists c.
      - destruct (ok_b _ _ _ _ _ _ Hok _ Hr) as (c & ? & _ & _ & ? & _). by exists c. }
    exists c. split; [done|]. apply nil_length_inv. lia.
Qed.

(** C4. For a side [S > 0], one multiply step on two [S]x[S] matrices gives
    an [S]x[S] matrix: [np.dot] on the CPU, and [gpu_stress_step] on tensors
    of one dtype, whatever it was called on before. *)
Theorem multiply_step_shape (S : Z) (a b : ndarray F)
    (calls : list (ndarray F * ndarray F)) :
  (0 < S)%Z → has_shape a S S → has_shape b S S →
  (∃ m, np_dot a b = Ok m ∧ has_shape m S S) ∧
  (arr_dtype a = arr_dtype b →
     ∃ m, (gpu_stress_step (fn_after calls) a b).2 = Ok m ∧ has_shape m S S).
Proof.
  intros _ Ha Hb. split.
  - destruct (np_dot_shape a b S Ha Hb) as (m & ? & ? & _). by exists m.
  - intros Hd. rewrite gpu_stress_step_result.
    + destruct (eager_matmul_shape a b S Ha Hb Hd) as (m & ? & ? & _). by exists m.
    + apply fn_after_ok.
    + split; [done|by eapply has_shape_aligned].
Qed.

(** C5. Once a worker is in its loop it has made exactly two allocations of
    matrices, [a] and then [b], both filled from the random generator and
    both before its deadline was computed, and no other cell of the store
    is a matrix of this worker.  Whatever runs afterwards, [a] and [b] stay
    bound to the same cells and the cells keep their contents: the products
    are stored in fresh cells.  No cell is bound to a variable of two
    different workers. *)
Theorem matrices_private_and_constant cfg t0 sched tid w :
  workers (run cfg t0 sched) !! tid = Some w →
  let st := run cfg t0 sched in
  (is_Some (w_end_time w) →
     ∃ ra rb ca cb,
       w_a w = Some ra ∧ w_b w = Some rb ∧ ra ≠ rb ∧
       st.(heap) !! ra = Some ca ∧ st.(heap) !! rb = Some cb ∧
       matrix_cell cfg tid MatA w (now st) ca ∧
       matrix_cell cfg tid MatB w (now st) cb ∧
       ∀ r c, st.(heap) !! r = Some c → c_by c = tid → c_role c ≠ Prod →
              r = ra ∨ r = rb) ∧
  (∀ r c sched', w_a w = Some r ∨ w_b w = Some r →
     st.(heap) !! r = Some c →
     let st' := run cfg t0 (sched ++ sched') in
     st'.(heap) !! r = Some c ∧
     ∃ w', st'.(workers) !! tid = Some w' ∧
           (w_a w = Some r → w_a w' = Some r) ∧
           (w_b w = Some r → w_b w' = Some r)) ∧
  (∀ r, w_a w = Some r ∨ w_b w = Some r →
     w_last w ≠ Some r ∧
     ∀ tid' w', tid' ≠ tid → st.(workers) !! tid' = Some w' →
       w_a w' ≠ Some r ∧ w_b w' ≠ Some r ∧ w_last w' ≠ Some r).
Proof.
  intros Hw st. pose proof (worker_ok_run _ _ _ _ _ Hw) as Hok. fold st in Hok.
  split_and!.
  - intros He. destruct (end_time_matrices _ _ _ _ _ _ Hok He) as (ra & rb & Hra & Hrb).
    destruct (ok_a _ _ _ _ _ _ Hok _ Hra) as (ca & Hca & Hma).
    destruct (ok_b _ _ _ _ _ _ Hok _ Hrb) as (cb & Hcb & Hmb).
    exists ra, rb, ca, cb. split_and!; try done.
    + intros ->. destruct Hma as (_ & Hr1 & _), Hmb as (_ & Hr2 & _). congruence.
    + intros r c Hc Hby Hro. destruct (c_role c) eqn:Hrole; [left|right|done].
      * pose proof (ok_a_only _ _ _ _ _ _ Hok _ _ Hc Hby Hrole). congruence.
      * pose proof (ok_b_only _ _ _ _ _ _ Hok _ _ Hc Hby Hrole). congruence.
  - intros r c sched' Hr Hc st'.
    destruct (run_keeps_matrices cfg t0 sched sched' _ _ Hw)
      as (w' & Hw' & Ha & Hb & hs & Hheap).
    split.
    + unfold st'. rewrite Hheap. by apply lookup_app_l_Some.
    + exists w'. split_and!; [done|apply Ha|apply Hb].
  - intros r Hr.
    assert (∃ c, st.(heap) !! r = Some c ∧ c_by c = tid ∧ c_role c ≠ Prod)
      as (c & Hc & Hby & Hro).
    { destruct Hr as [Hr|Hr].
      - destruct (ok_a _ _ _ _ _ _ Hok _ Hr) as (c & ? & ? & Hro & _).
        exists c. split_and!; try done. by rewrite Hro.
      - destruct (ok_b _ _ _ _ _ _ Hok _ Hr) as (c & ? & ? & Hro & _).
        exists c. split_and!; try done. by rewrite Hro. }
    split.
    + intros Hl. destruct (ok_last _ _ _ _ _ _ Hok _ Hl) as (c' & _ & _ & _ & _ & Hc' & _ & Hro' & _).
      congruence.
    + intros tid' w' Hne Hw'.
      pose proof (worker_ok_run _ _ _ _ _ Hw') as Hok'. fold st in Hok'.
      split_and!; intros Hr'.
      * destruct (ok_a _ _ _ _ _ _ Hok' _ Hr') as (c' & ? & ? & _). congruence.
      * destruct (ok_b _ _ _ _ _ _ Hok' _ Hr') as (c' & ? & ? & _). congruence.
      * destruct (ok_last _ _ _ _ _ _ Hok' _ Hr') as (c' & _ & _ & _ & _ & ? & ? & _).
        congruence.
Qed.

(** C6. [gpu_stress_step] is the traced form of its Python body: on tensors
    that [tf.matmul] accepts it returns what the body returns when run
    directly, in whatever state its cache is; and along any run of the
    program the body is traced at most once, exactly once as soon as the
    GPU worker has completed a product, however many products follow, each
    of them the direct product of the worker's two matrices.

    The step is built and then reused.  A call on tensors that [tf.matmul]
    accepts leaves the graph of the body, one [MatMul] of the two
    arguments, in the cache under their signature, and the next call with
    these tensors runs that graph without tracing and without changing the
    cache.  In the program nothing is built before the first call; from
    the first product of the GPU worker on, [gpu_stress_step] holds exactly
    one graph and one trace, stored under the signature of the worker's
    two matrices, and a further call on these matrices leaves it as it is
    and gives their product. *)
Theorem traced_step_is_matmul cfg t0 sched :
  (∀ calls a b, compatible a b →
     (gpu_stress_step (fn_after calls) a b).2 =
     gpu_stress_step_py (ndarray F) eager_ops a b) ∧
  fn_traces (step_fn (run cfg t0 sched)) ≤ 1 ∧
  (∀ tid w, workers (run cfg t0 sched) !! tid = Some w → w_kind w = GPU →
     (1 ≤ w_iters w → fn_traces (step_fn (run cfg t0 sched)) = 1) ∧
     ∀ r, w_last w = Some r →
       ∃ c ra rb ca cb,
         heap (run cfg t0 sched) !! r = Some c ∧
         w_a w = Some ra ∧ w_b w = Some rb ∧
         heap (run cfg t0 sched) !! ra = Some ca ∧
         heap (run cfg t0 sched) !! rb = Some cb ∧
         gpu_stress_step_py (ndarray F) eager_ops (c_val ca) (c_val cb) =
           Ok (c_val c)) ∧
  (∀ calls a b, compatible a b →
     let fn1 := (gpu_stress_step (fn_after calls) a b).1 in
     cache_lookup (spec_of a, spec_of b) (fn_cache fn1) =
       Some (MatMul (Placeholder 0) (Placeholder 1)) ∧
     gpu_stress_step fn1 a b =
       (fn1, gpu_stress_step_py (ndarray F) eager_ops a b)) ∧
  (step_fn (run cfg t0 sched) = fresh_fn ∧
   (∀ tid w, workers (run cfg t0 sched) !! tid = Some w → w_kind w = GPU →
      w_iters w = 0 ∧ w_last w = None) ∨
   step_fn (run cfg t0 sched) =
     TracedFn [(square_signature cfg, MatMul (Placeholder 0) (Placeholder 1))] 1) ∧
  (∀ tid w, workers (run cfg t0 sched) !! tid = Some w → w_kind w = GPU →
     1 ≤ w_iters w →
     step_fn (run cfg t0 sched) =
       TracedFn [(square_signature cfg, MatMul (Placeholder 0) (Placeholder 1))] 1 ∧
     ∀ ra rb ca cb,
       w_a w = Some ra → w_b w = Some rb →
       heap (run cfg t0 sched) !! ra = Some ca →
       heap (run cfg t0 sched) !! rb = Some cb →
       (spec_of (c_val ca), spec_of (c_val cb)) = square_signature cfg ∧
       ∃ m, gpu_stress_step (step_fn (run cfg t0 sched)) (c_val ca) (c_val cb) =
              (step_fn (run cfg t0 sched), Ok m) ∧
            gpu_stress_step_py (ndarray F) eager_ops (c_val ca) (c_val cb) = Ok m ∧
            has_shape m (TENSOR_SIZE cfg) (TENSOR_SIZE cfg)).
Proof.
  assert (Hbuilt : ∀ tid w, workers (run cfg t0 sched) !! tid = Some w →
            w_kind w = GPU → 1 ≤ w_iters w →
            step_fn (run cfg t0 sched) =
              TracedFn [(square_signature cfg, MatMul (Placeholder 0) (Placeholder 1))] 1).
  { intros tid w Hw Hk Hit.
    destruct (traced_once_run cfg t0 sched) as [[_ Hz]|Hfn]; [|done].
    specialize (Hz _ _ Hw Hk). lia. }
  split_and!.
  - intros calls a b Hc. apply gpu_stress_step_result; [apply fn_after_ok|done].
  - destruct (traced_once_run cfg t0 sched) as [[-> _]| ->]; simpl; lia.
  - intros tid w Hw Hk. split.
    + intros Hit. by rewrite (Hbuilt _ _ Hw Hk Hit).
    + intros r Hr.
      destruct (ok_last _ _ _ _ _ _ (worker_ok_run _ _ _ _ _ Hw) r Hr)
        as (c & ra & rb & ca & cb & ? & _ & _ & ? & ? & ? & ? & Hmul).
      rewrite Hk in Hmul. by exists c, ra, rb, ca, cb.
  - intros calls a b Hc fn1.
    by destruct (gpu_stress_step_cached (fn_after calls) a b (fn_after_ok calls) Hc).
  - destruct (traced_once_run cfg t0 sched) as [[Hfn Hz]|Hfn]; [left|by right].
    split; [done|]. intros tid w Hw Hk. split; [by eapply Hz|].
    destruct (w_last w) as [r|] eqn:Hr; [|done].
    pose proof (last_counted cfg t0 sched tid w r Hw Hr).
    specialize (Hz _ _ Hw Hk). lia.
  - intros tid w Hw Hk Hit. split; [by eapply Hbuilt|].
    intros ra rb ca cb Hra Hrb Hca Hcb.
    pose proof (worker_ok_run _ _ _ _ _ Hw) as Hok.
    destruct (ok_a _ _ _ _ _ _ Hok _ Hra) as (ca' & Hca' & _ & _ & Hsa & Hda & _).
    destruct (ok_b _ _ _ _ _ _ Hok _ Hrb) as (cb' & Hcb' & _ & _ & Hsb & Hdb & _).
    assert (ca' = ca) as -> by congruence. assert (cb' = cb) as -> by congruence.
    rewrite Hk in Hda, Hdb. simpl in Hda, Hdb.
    pose proof (spec_of_square cfg _ Hsa Hda) as Hspa.
    pose proof (spec_of_square cfg _ Hsb Hdb) as Hspb.
    split; [unfold square_signature; by rewrite Hspa, Hspb|].
    destruct (eager_matmul_shape _ _ _ Hsa Hsb) as (m & Hmul & Hs & _); [congruence|].
    exists m. split_and!; [|done|done].
    rewrite (Hbuilt _ _ Hw Hk Hit). unfold gpu_stress_step, tf_function; simpl.
    rewrite Hspa, Hspb. unfold square_signature at 1. rewrite decide_True by done.
    simpl. by rewrite Hmul.
Qed.

(** C7. The matrices are square of side [TENSOR_SIZE], which is 2048 in
    the settings of main.py; those of a CPU worker hold 64-bit floats and
    those of the GPU worker 32-bit floats. *)
Theorem matrices_are_square cfg t0 sched tid w r :
  workers (run cfg t0 sched) !! tid = Some w →
  w_a w = Some r ∨ w_b w = Some r →
  TENSOR_SIZE default_config = 2048%Z ∧
  ∃ c, heap (run cfg t0 sched) !! r = Some c ∧
       has_shape (c_val c) (TENSOR_SIZE cfg) (TENSOR_SIZE cfg) ∧
       arr_dtype (c_val c) =
         match w_kind w with CPU => Float64 | GPU => Float32 end.
Proof.
  intros Hw Hr. split; [done|].
  pose proof (worker_ok_run _ _ _ _ _ Hw) as [_ _ Ha Hb _ _ _ _ _].
  destruct Hr as [Hr|Hr]; [apply Ha in Hr|apply Hb in Hr];
    destruct Hr as (c & Hc & (_ & _ & Hs & Hd & _)); exists c; by rewrite Hd.
Qed.

(** C8. The output begins with the start line; each worker prints its
    banner as its first statement; the completion line is printed once, by
    [main] after its joins.  The process has no exit status but 0, and when
    it has exited the output is the start line, the [NUM_CPU_THREADS] CPU
    banners and the GPU banner in the order the threads printed them, and
    the completion line.  From every reachable state some schedule takes
    the process to its exit. *)
Theorem messages_and_exit cfg t0 sched :
  let st := run cfg t0 sched in
  (∃ mid, stdout st = head_lines (m_pc st) ++ mid ++ tail_lines (m_pc st) ∧
          mid ≡ₚ workers st ≫= shown) ∧
  (exit_status st = None ∨ exit_status st = Some 0%Z) ∧
  (exit_status st = Some 0%Z →
     ∃ mid, stdout st = start_banner :: mid ++ [done_banner] ∧
            mid ≡ₚ replicate (n_cpu cfg) cpu_banner ++ [gpu_banner]) ∧
  (∃ sched', exit_status (run cfg t0 (sched ++ sched')) = Some 0%Z).
Proof.
  intros st. split_and!.
  - apply stdout_ok_run.
  - unfold exit_status. destruct (m_pc st); by eauto.
  - intros Hex. destruct (stdout_ok_run cfg t0 sched) as (mid & Hout & Hmid).
    fold st in Hout, Hmid.
    pose proof (main_ok_run cfg t0 sched) as Hmain. fold st in Hmain.
    unfold exit_status in Hex. destruct (m_pc st) eqn:Hpc; try done.
    exists mid. split; [by rewrite Hout|].
    rewrite Hmid, shown_all.
    + rewrite (mo_kinds _ _ Hmain), Hpc; simpl. unfold launched.
      by rewrite fmap_app, fmap_replicate.
    + intros tid w Hw. eapply all_joined; [done|by rewrite Hpc|done].
  - apply can_finish.
Qed.

(** C9. With a duration that is zero or negative (and a size the allocator
    accepts) a worker never runs the loop body.  It still prints its
    banner and allocates both matrices; it reads the clock twice, for the
    deadline and for the first evaluation of the loop condition, which is
    false; and it has returned once it has run five statements, however
    the scheduler interleaves them with the other threads. *)
Theorem nonpositive_duration_skips_loop cfg t0 sched tid w :
  (TEST_DURATION_SECONDS cfg ≤ 0)%Z → (0 ≤ TENSOR_SIZE cfg)%Z →
  workers (run cfg t0 sched) !! tid = Some w →
  w_iters w = 0 ∧ w_pc w ≠ AtMul ∧ (∀ e, w_pc w ≠ Raised e) ∧
  (w_pc w = Returned →
     banner (w_kind w) ∈ stdout (run cfg t0 sched) ∧
     (∃ ra rb ca cb,
        w_a w = Some ra ∧ w_b w = Some rb ∧
        heap (run cfg t0 sched) !! ra = Some ca ∧
        heap (run cfg t0 sched) !! rb = Some cb) ∧
     ∃ t_ret t1, w_reads w = [t_ret; t1]) ∧
  (∀ sched', 5 ≤ turns tid sched' →
     ∃ w', workers (run cfg t0 (sched ++ sched')) !! tid = Some w' ∧
           w_pc w' = Returned).
Proof.
  intros HD HS Hw. pose proof (worker_ok_run _ _ _ _ _ Hw) as Hok.
  destruct (no_iteration _ _ _ _ _ _ HD Hok) as (Hit & Hmul & Hret).
  assert (Hnr : ∀ t' w', workers (run cfg t0 t') !! tid = Some w' →
                  ∀ e, w_pc w' ≠ Raised e).
  { intros t' w' Hw' e He. pose proof (worker_ok_run _ _ _ _ _ Hw') as [_ _ _ _ _ _ _ _ Hp].
    unfold pc_ok in Hp. rewrite He in Hp. destruct Hp as (? & _). lia. }
  split_and!; try done; [by eapply Hnr| |].
  - intros Hpc. split_and!; [eapply banner_printed; [done|congruence]| |by apply Hret].
    destruct Hok as [_ _ _ _ _ _ _ _ Hp]. unfold pc_ok in Hp. rewrite Hpc in Hp.
    destruct Hp as (_ & _ & _ & _ & _ & _ & (_ & _ & ra & rb & ca & cb & ? & ? & ? & ? & _) & _).
    by exists ra, rb, ca, cb.
  - intros sched' Hturns.
    destruct (rank_descends cfg statements_left
                (λ st tid w st2 w', statements_left_descends cfg st tid w st2 w' HD)
                t0 sched sched' tid w Hw) as (w' & Hw' & _ & Hrank).
    exists w'. split; [done|].
    assert (statements_left w' = 0) as Hz.
    { assert (statements_left w ≤ 5) by (unfold statements_left; destruct (w_pc w); lia). lia. }
    unfold statements_left in Hz. destruct (w_pc w') eqn:Hpc'; try done.
    by eapply Hnr in Hpc'.
Qed.

(** C10. A worker reads the clock for its deadline only after both of its
    matrices have been allocated ([a] first, then [b]), so the deadline is
    [D] past the end of the setup, and a worker that returns has spent at
    least [D] between that reading and the one that ended its loop. *)
Theorem deadline_excludes_allocation cfg t0 sched tid w e :
  workers (run cfg t0 sched) !! tid = Some w →
  w_end_time w = Some e →
  ∃ ra rb ca cb t1,
    w_a w = Some ra ∧ w_b w = Some rb ∧
    heap (run cfg t0 sched) !! ra = Some ca ∧
    heap (run cfg t0 sched) !! rb = Some cb ∧
    list.last (w_reads w) = Some t1 ∧
    e = (t1 + TEST_DURATION_SECONDS cfg)%Z ∧
    (w_started w ≤ c_at ca ≤ c_at cb)%Z ∧ (c_at cb ≤ t1)%Z ∧
    (w_pc w = Returned →
       ∃ s t_ret, w_exit w = Some (s, t_ret) ∧
                  (TEST_DURATION_SECONDS cfg ≤ t_ret - t1)%Z).
Proof.
  intros Hw He. pose proof (worker_ok_run _ _ _ _ _ Hw) as [_ _ Ha _ _ _ _ _ Hp].
  unfold pc_ok, before_loop in Hp.
  assert (∃ front chk r0, w_reads w = front ++ chk ++ [r0] ∧ in_loop cfg (heap (run cfg t0 sched)) w chk r0 ∧
            (w_pc w = Returned → ∃ s t_ret, w_exit w = Some (s, t_ret) ∧
               (TEST_DURATION_SECONDS cfg ≤ t_ret - r0)%Z))
    as (front & chk & r0 & Hreads & (He' & _ & Hm) & Hret).
  { destruct (w_pc w) eqn:Hpc.
    1-2: destruct Hp as (_ & _ & ? & _); congruence.
    1: destruct Hp as (_ & _ & ? & _); congruence.
    1: destruct Hp as (_ & ? & _); congruence.
    - destruct Hp as (chk & r0 & ? & _ & ? & _). by exists [], chk, r0.
    - destruct Hp as (chk & r0 & ? & _ & ? & _). by exists [], chk, r0.
    - destruct Hp as (rx & chk & r0 & s & ? & _ & ? & _ & ? & ?).
      exists [rx], chk, r0. split_and!; try done. intros _. exists s, rx.
      split; [done|lia].
    - destruct Hp as (_ & _ & _ & _ & ? & _); congruence. }
  destruct Hm as (ra & rb & ca & cb & Hra & Hrb & Hca & Hcb & Hat).
  destruct (Ha _ Hra) as (ca' & Hca' & (_ & _ & _ & _ & _ & Hsa)).
  assert (ca' = ca) as -> by congruence.
  exists ra, rb, ca, cb, r0. split_and!; try done; try lia.
  - by rewrite Hreads, !app_assoc, last_snoc.
  - congruence.
Qed.

(** * Further properties of the program *)

(** ** How long a run lasts *)

(** The clock and the start of every worker are not before the start of
    the process. *)
Lemma clock_ok_run cfg t0 sched :
  (t0 ≤ now (run cfg t0 sched))%Z ∧
  ∀ tid w, workers (run cfg t0 sched) !! tid = Some w → (t0 ≤ w_started w)%Z.
Proof.
  induction sched as [|[who dt] sched IH] using rev_ind.
  - split; [simpl; lia|]. by intros tid w.
  - rewrite run_snoc. destruct IH as [Hnow Hws].
    set (st := run cfg t0 sched) in *. unfold step; simpl. destruct who as [|tid0].
    + destruct (main_frame cfg (elapse dt st)) as (-> & _ & _ & _ & Hw).
      simpl. split; [lia|]. intros tid w.
      destruct Hw as [->|[k ->]]; simpl; [by apply Hws|].
      intros Hl. apply lookup_snoc in Hl as [Hl|[_ ->]]; [by eapply Hws|]. simpl. lia.
    + destruct (workers st !! tid0) as [w0|] eqn:Hw0; simpl; [|split; [lia|done]].
      destruct (target cfg tid0 (elapse dt st) w0) as [st2 w0'] eqn:Ht.
      destruct (target_frame _ _ _ _ _ _ Ht)
        as (Hn & _ & Hw & _ & _ & _ & _ & _ & _ & _ & Hs & _).
      simpl. rewrite Hn, Hw; simpl. split; [lia|]. intros tid w Hl.
      destruct (decide (tid = tid0)) as [->|Hne].
      * rewrite list_lookup_insert_eq in Hl by eauto using lookup_lt_Some.
        injection Hl as <-. rewrite Hs. by eapply Hws.
      * rewrite list_lookup_insert_ne in Hl by done. by eapply Hws.
Qed.

(** X1. A run of the program whose matrices can be allocated lasts at least
    the configured duration: [main] returns no earlier than
    [TEST_DURATION_SECONDS] after the start of the process, and no earlier
    than the deadline of any worker. *)
Theorem run_lasts_duration cfg t0 sched s t :
  (0 ≤ TENSOR_SIZE cfg)%Z →
  m_exit (run cfg t0 sched) = Some (s, t) →
  (t0 + TEST_DURATION_SECONDS cfg ≤ t)%Z ∧
  ∀ tid w, workers (run cfg t0 sched) !! tid = Some w →
    w_pc w = Returned ∧
    ∃ e, w_end_time w = Some e ∧ (w_started w + TEST_DURATION_SECONDS cfg ≤ e ≤ t)%Z.
Proof.
  intros HS Hex. pose proof (exit_ok_run cfg t0 sched) as He.
  unfold exit_ok in He. rewrite Hex in He. destruct He as [Hpc He].
  pose proof (main_ok_run cfg t0 sched) as Hmain.
  destruct (clock_ok_run cfg t0 sched) as [_ Hstart].
  set (st := run cfg t0 sched) in *.
  assert (Hall : ∀ tid w, workers st !! tid = Some w →
            w_pc w = Returned ∧
            ∃ e, w_end_time w = Some e ∧
                 (w_started w + TEST_DURATION_SECONDS cfg ≤ e ≤ t)%Z).
  { intros tid w Hw. destruct (He _ _ Hw) as (s' & t' & Hexit & _ & Hle).
    pose proof (worker_ok_run _ _ _ _ _ Hw) as [_ Hr _ _ _ _ _ _ Hp].
    assert (terminated w = true) as Hterm
      by (eapply all_joined; [done|by rewrite Hpc|done]).
    unfold pc_ok, terminated in *. destruct (w_pc w); try done.
    - split; [done|].
      destruct Hp as (rx & chk & r0 & s0 & Hreads & _ & (Hend & _) & _ & Hge & Hx).
      rewrite Hreads in Hr. apply Forall_cons_1 in Hr as [_ Hr].
      apply Forall_app in Hr as [_ Hr]. apply Forall_cons_1 in Hr as [Hr0 _].
      exists (r0 + TEST_DURATION_SECONDS cfg)%Z. split; [done|].
      assert (t' = rx) by congruence. lia.
    - destruct Hp as (? & _). lia. }
  split; [|done].
  assert (∃ w, workers st !! n_cpu cfg = Some w) as [w Hw].
  { apply lookup_lt_is_Some. pose proof (mo_kinds _ _ Hmain) as Hk.
    apply (f_equal length) in Hk. rewrite length_fmap, Hpc in Hk. simpl in Hk.
    rewrite launched_length in Hk. lia. }
  destruct (Hall _ _ Hw) as (_ & e & _ & ?). specialize (Hstart _ _ Hw). lia.
Qed.

(** ** Termination of a worker *)

(** X2. Termination of a worker.  When at least one clock unit passes before
    each statement of a worker, the worker has terminated once it has run
    [paced_left] statements, which is never more than the duration plus
    five, however its statements are interleaved with the other threads;
    with a size the allocator accepts it has returned. *)
Theorem worker_terminates cfg t0 sched sched' tid w :
  workers (run cfg t0 sched) !! tid = Some w →
  paced 1 tid sched' →
  paced_left cfg (now (run cfg t0 sched)) w ≤ turns tid sched' →
  paced_left cfg (now (run cfg t0 sched)) w ≤
    Z.to_nat (TEST_DURATION_SECONDS cfg) + 5 ∧
  ∃ w', workers (run cfg t0 (sched ++ sched')) !! tid = Some w' ∧
        terminated w' = true ∧
        ((0 ≤ TENSOR_SIZE cfg)%Z → w_pc w' = Returned).
Proof.
  intros Hw Hp Hturns. split.
  { eapply paced_left_bound. by apply worker_ok_run. }
  destruct (paced_worker_stops cfg t0 sched sched' tid w Hw Hp Hturns)
    as (w' & Hw' & Hterm).
  exists w'. split_and!; [done|done|]. intros HS.
  pose proof (worker_ok_run _ _ _ _ _ Hw') as [_ _ _ _ _ _ _ _ Hpc].
  unfold terminated, pc_ok in *. destruct (w_pc w'); try done.
  destruct Hpc as (? & _). lia.
Qed.

(** A property of a worker and the clock that holds of a new thread, survives
    the passing of time and is kept by every statement of the worker before
    which [q] clock units passed, holds along every schedule that lets [q]
    units pass before each turn of the worker. *)
Lemma paced_invariant cfg q (P : Z → worker → Prop) :
  (∀ t t' w, (t ≤ t')%Z → P t w → P t' w) →
  (∀ k t, P t (new_worker k t)) →
  (∀ st tid w dt st2 w', q ≤ dt →
     worker_ok cfg (now st) (steps st) (heap st) tid w →
     worker_ok cfg (now st2) (steps st2) (heap st2) tid w' →
     P (now st) w →
     target cfg tid (elapse dt st) w = (st2, w') → P (now st2) w') →
  ∀ t0 sched tid w,
    paced q tid sched → workers (run cfg t0 sched) !! tid = Some w →
    P (now (run cfg t0 sched)) w.
Proof.
  intros Hmono Hnew Hstep t0 sched tid.
  induction sched as [|e sched IH] using rev_ind; intros w Hp Hw; [done|].
  apply paced_app in Hp as [Hp He]. apply Forall_cons_1 in He as [He _].
  pose proof (worker_ok_run _ _ _ _ _ Hw) as Hok'.
  rewrite run_snoc in *. rewrite step_now.
  destruct (step_worker_origin _ _ _ _ _ Hw) as [[w1 Hw1]|(k & -> & _)].
  - destruct (step_worker cfg _ e _ _ Hw1) as (w2 & Hw2 & _ & Hturn).
    assert (w2 = w) as -> by congruence.
    specialize (IH _ Hp Hw1).
    destruct (is_turn tid e).
    + destruct Hturn as [st2 Ht].
      pose proof (worker_ok_run _ _ _ _ _ Hw1) as Hok.
      destruct (target_frame _ _ _ _ _ _ Ht)
        as (Hn & Hs & _ & _ & _ & _ & _ & (hs & Hh & _) & _).
      replace (now (run cfg t0 sched) + Z.of_nat e.2)%Z with (now st2)
        by (by rewrite Hn).
      eapply Hstep; [by apply He|done| |done|done].
      by apply (worker_ok_step cfg (elapse e.2 (run cfg t0 sched)) _ _ _ _
                  (proj1 (base_ok_run cfg t0 sched))
                  (worker_ok_elapse cfg _ _ _ e.2 Hok) Ht).
    + subst w. eapply Hmono; [|done]. lia.
  - apply Hnew.
Qed.

Lemma loop_pace_run cfg q t0 sched tid w :
  paced q tid sched → workers (run cfg t0 sched) !! tid = Some w →
  loop_pace cfg q (now (run cfg t0 sched)) w.
Proof.
  revert t0 sched tid w.
  apply (paced_invariant cfg q (loop_pace cfg q)); unfold loop_pace.
  - intros t t' w Hle [H1 H2]. split; [|done].
    destruct (w_pc w); try done. destruct H1 as (r0 & ? & ?). exists r0. split; [done|lia].
  - intros k t. simpl. split; [done|lia].
  - intros st tid w dt st2 w' Hdt [_ Hr _ _ _ _ _ _ Hp] [_ _ _ _ _ _ _ _ Hp'] [H1 H2] Ht.
    destruct (target_frame _ _ _ _ _ _ Ht) as (-> & _). simpl.
    unfold pc_ok, in_loop, before_loop in Hp, Hp'.
    unfold target, cpu_stress, gpu_stress in Ht. unfold loop_time in *.
    destruct w as [k p a b e l ts rs it ex]; simpl in *.
    destruct p.
    1,7,8: destruct k; simplify_eq/=; (split; [done|lia]).
    1-2: destruct k; repeat case_match; simplify_eq/=; split; (done || lia).
    + destruct Hp as (_ & _ & -> & -> & _).
      destruct k; simplify_eq/=; (split; [exists (now st + Z.of_nat dt)%Z; split; [done|lia]|lia]).
    + destruct H1 as (r0 & Hlast & Hle).
      destruct Hp as (chk & r0' & -> & Hlen & (-> & _) & _).
      rewrite last_snoc in Hlast. injection Hlast as ->.
      destruct (Z.ltb_spec (now st + Z.of_nat dt) (r0 + TEST_DURATION_SECONDS cfg));
        destruct k; simplify_eq/=; (split; [|done]); try done.
      all: exists r0, (now st + Z.of_nat dt)%Z;
           split_and!; [by rewrite last_cons, last_snoc|done|lia].
    + destruct H1 as (r0 & rd & Hlast & Hhead & Hle).
      destruct Hp as (chk & r0' & -> & Hlen & (-> & Hchk & _) & _).
      rewrite last_snoc in Hlast. injection Hlast as ->.
      destruct chk as [|c' chk]; [done|]. simpl in Hhead. injection Hhead as ->.
      apply Forall_cons_1 in Hchk as [Hc _]. apply Forall_cons_1 in Hr as [Hcn _].
      destruct k; repeat case_match; simplify_eq/=; (split; [|lia]); try done.
      all: exists r0; split; [by rewrite last_cons, last_snoc|lia].
Qed.

(** X3. Throughput.  When at least [q] clock units pass before each
    statement of a worker, the worker cannot complete more products than
    its duration has room for: [n] products take it [q * (2 * n - 1)] clock
    units of its loop, which is less than [TEST_DURATION_SECONDS]. *)
Theorem products_bounded_by_duration cfg q t0 sched tid w :
  paced q tid sched →
  workers (run cfg t0 sched) !! tid = Some w →
  1 ≤ w_iters w →
  (Z.of_nat q * (2 * Z.of_nat (w_iters w) - 1) < TEST_DURATION_SECONDS cfg)%Z.
Proof.
  intros Hp Hw. by destruct (loop_pace_run cfg q t0 sched tid w Hp Hw) as [_ ?].
Qed.

(** ** A size that the allocator rejects *)

Lemma main_keeps_draws cfg st :
  np_draws (main cfg st) = np_draws st ∧ tf_draws (main cfg st) = tf_draws st.
Proof. unfold main. by repeat case_match. Qed.

Lemma negative_size_allocates_nothing cfg t0 sched :
  (TENSOR_SIZE cfg < 0)%Z →
  let st := run cfg t0 sched in
  heap st = [] ∧ np_draws st = 0 ∧ tf_draws st = 0 ∧ step_fn st = fresh_fn.
Proof.
  intros HS. induction sched as [|[[|tid] dt] sched IH] using rev_ind; [done|..];
    rewrite run_snoc; destruct IH as (Hh & Hn & Ht & Hf);
    pose proof (worker_ok_run cfg t0 sched) as Hok;
    set (st := run cfg t0 sched) in *; unfold step; simpl.
  - destruct (main_frame cfg (elapse dt st)) as (_ & _ & -> & -> & _).
    by destruct (main_keeps_draws cfg (elapse dt st)) as [-> ->].
  - destruct (workers st !! tid) as [w|] eqn:Hw; [|done].
    destruct (negative_size_view _ _ _ _ _ _ HS (Hok _ _ Hw)) as (Hpc & _).
    unfold target, cpu_stress, gpu_stress, np_random_rand, tf_random_normal.
    assert ((TENSOR_SIZE cfg <? 0)%Z = true) as -> by lia.
    destruct w as [k p a b e l ts rs it ex]; simpl in *.
    by destruct Hpc as [-> |[-> | ->]]; destruct k.
Qed.

(** X4. A negative size fails silently.  No array is ever allocated, no
    random number drawn and nothing traced; every worker dies of the
    allocation error in its thread; and yet [main] joins them all, the
    output is that of a successful run, and the exit status is 0, which some
    schedule reaches from every state. *)
Theorem negative_size_fails_silently cfg t0 sched :
  (TENSOR_SIZE cfg < 0)%Z →
  let st := run cfg t0 sched in
  heap st = [] ∧ np_draws st = 0 ∧ tf_draws st = 0 ∧
  fn_traces (step_fn st) = 0 ∧
  (exit_status st = Some 0%Z →
     length (workers st) = S (n_cpu cfg) ∧
     (∀ tid w, workers st !! tid = Some w →
        w_pc w = Raised (alloc_error (w_kind w)) ∧ w_iters w = 0) ∧
     ∃ mid, stdout st = start_banner :: mid ++ [done_banner] ∧
            mid ≡ₚ replicate (n_cpu cfg) cpu_banner ++ [gpu_banner]) ∧
  ∃ sched', exit_status (run cfg t0 (sched ++ sched')) = Some 0%Z.
Proof.
  intros HS st.
  destruct (negative_size_allocates_nothing cfg t0 sched HS) as (Hh & Hn & Ht & Hf).
  fold st in Hh, Hn, Ht, Hf. rewrite Hf. split_and!; try done; [|apply can_finish].
  intros Hex. pose proof (main_ok_run cfg t0 sched) as Hmain. fold st in Hmain.
  unfold exit_status in Hex. destruct (m_pc st) eqn:Hpc; try done.
  assert (Hterm : ∀ tid w, workers st !! tid = Some w → terminated w = true).
  { intros tid w Hw. eapply all_joined; [done|by rewrite Hpc|done]. }
  pose proof (mo_kinds _ _ Hmain) as Hk. rewrite Hpc in Hk; simpl in Hk.
  split_and!.
  - apply (f_equal length) in Hk. by rewrite length_fmap, launched_length in Hk.
  - intros tid w Hw. specialize (Hterm _ _ Hw).
    destruct (negative_size_view _ _ _ _ _ _ HS (worker_ok_run _ _ _ _ _ Hw))
      as (Hp & _ & _ & _ & ?).
    split; [|done]. unfold terminated in Hterm.
    by destruct Hp as [Hp|[Hp|Hp]]; rewrite Hp in *.
  - destruct (stdout_ok_run cfg t0 sched) as (mid & Hout & Hmid).
    fold st in Hout, Hmid. rewrite Hpc in Hout; simpl in Hout.
    exists mid. split; [done|]. rewrite Hmid, shown_all by done.
    rewrite Hk. unfold launched. by rewrite fmap_app, fmap_replicate.
Qed.

(** ** The coordinator by its own turns *)

Lemma main_turns_app s1 s2 : main_turns (s1 ++ s2) = main_turns s1 + main_turns s2.
Proof.
  induction s1 as [|[[|tid] dt] s1 IH]; simpl; [done|..]; rewrite IH; lia.
Qed.

(** Starting the threads never waits: each statement of [main] up to its
    first join is one statement less to go, whatever the workers do. *)
Lemma launch_left_run cfg t0 sched :
  launch_left cfg (m_pc (run cfg t0 sched)) = n_cpu cfg + 3 - main_turns sched.
Proof.
  induction sched as [|[[|tid] dt] sched IH] using rev_ind; [simpl; lia|..];
    rewrite run_snoc, main_turns_app; simpl.
  - pose proof (mo_index _ _ (main_ok_run cfg t0 sched)) as Hi.
    unfold step, main; simpl. unfold loop_index_ok in Hi.
    destruct (m_pc (run cfg t0 sched)) eqn:Hpc; simpl in *; rewrite ?Hpc; simpl; try lia.
    + destruct (Z.ltb_spec (Z.of_nat i) (NUM_CPU_THREADS cfg)); simpl; [lia|].
      unfold n_cpu in *. lia.
    + destruct (_ !! _); [destruct (joinable _ _)|]; simpl; rewrite ?Hpc; simpl; lia.
    + destruct (gpu_thread _); [destruct (joinable _ _)|]; simpl; rewrite ?Hpc; simpl; lia.
  - destruct (thread_step_view cfg (run cfg t0 sched) tid dt) as (-> & _). lia.
Qed.

Lemma past_launch_turns cfg t0 sched :
  past_launch (m_pc (run cfg t0 sched)) = true ↔ n_cpu cfg + 3 ≤ main_turns sched.
Proof.
  pose proof (launch_left_run cfg t0 sched) as Hl.
  pose proof (mo_index _ _ (main_ok_run cfg t0 sched)) as Hi.
  unfold loop_index_ok in Hi.
  destruct (m_pc (run cfg t0 sched)); simpl in *; split; try done; lia.
Qed.

(** X5. Starting the threads never blocks.  Whatever the workers do in
    between, CPU thread [i] exists exactly when [main] has run [i + 2]
    statements (its first line and one for each thread up to [i]), the GPU
    thread exactly when [main] has run [NUM_CPU_THREADS + 3], and that is
    when [main] reaches its first join. *)
Theorem launch_never_blocks cfg t0 sched :
  let st := run cfg t0 sched in
  (∀ i, i < n_cpu cfg →
     (is_Some (workers st !! i) ↔ i + 2 ≤ main_turns sched)) ∧
  (is_Some (workers st !! n_cpu cfg) ↔ n_cpu cfg + 3 ≤ main_turns sched) ∧
  (past_launch (m_pc st) = true ↔ n_cpu cfg + 3 ≤ main_turns sched) ∧
  length (workers st) ≤ S (n_cpu cfg).
Proof.
  intros st. pose proof (launch_left_run cfg t0 sched) as Hl.
  pose proof (main_ok_run cfg t0 sched) as [Hk _ _ _ Hi].
  fold st in Hl, Hk, Hi. unfold loop_index_ok in Hi.
  apply (f_equal length) in Hk. rewrite length_fmap in Hk.
  split_and!; [| |apply past_launch_turns|].
  - intros i Hlt. rewrite lookup_lt_is_Some, Hk.
    destruct (m_pc st); simpl in *;
      rewrite ?launched_length, ?length_replicate; lia.
  - rewrite lookup_lt_is_Some, Hk.
    destruct (m_pc st); simpl in *;
      rewrite ?launched_length, ?length_replicate; lia.
  - rewrite Hk. destruct (m_pc st); simpl in *;
      rewrite ?launched_length, ?length_replicate; lia.
Qed.

(** ** Threads that have terminated *)

Lemma target_terminated cfg tid st w :
  terminated w = true → target cfg tid st w = (st, w).
Proof.
  unfold terminated, target, cpu_stress, gpu_stress.
  by destruct (w_kind w), (w_pc w).
Qed.

Lemma set_workers_id st : set_workers (workers st) st = st.
Proof. by destruct st. Qed.

(** A thread that has terminated stays as it is: threads are not restarted. *)
Lemma terminated_stays cfg t0 sched sched' tid w :
  workers (run cfg t0 sched) !! tid = Some w → terminated w = true →
  workers (run cfg t0 (sched ++ sched')) !! tid = Some w.
Proof.
  intros Hw Hterm. induction sched' as [|e sched' IH] using rev_ind.
  - by rewrite app_nil_r.
  - rewrite app_assoc, run_snoc.
    destruct (step_worker cfg _ e _ _ IH) as (w2 & Hw2 & _ & Hturn).
    destruct (is_turn tid e); [|by subst].
    destruct Hturn as [st2 Ht]. rewrite target_terminated in Ht by done. congruence.
Qed.

(** Once every thread has terminated, each statement of [main] from its
    first join on is one statement less to go. *)
Lemma join_left_run cfg t0 sched sched' :
  past_launch (m_pc (run cfg t0 sched)) = true →
  (∀ tid w, workers (run cfg t0 sched) !! tid = Some w → terminated w = true) →
  join_left cfg (m_pc (run cfg t0 (sched ++ sched'))) ≤
    join_left cfg (m_pc (run cfg t0 sched)) - main_turns sched'.
Proof.
  intros Hp Hterm. induction sched' as [|[[|tid] dt] sched' IH] using rev_ind.
  - rewrite app_nil_r. simpl. lia.
  - rewrite app_assoc, run_snoc, main_turns_app; simpl.
    pose proof (main_ok_run cfg t0 (sched ++ sched')) as [Hk Hc Hg _ Hi].
    assert (Hp' : past_launch (m_pc (run cfg t0 (sched ++ sched'))) = true).
    { apply past_launch_turns. apply past_launch_turns in Hp.
      rewrite main_turns_app. lia. }
    assert (Hlen : length (workers (run cfg t0 sched)) = S (n_cpu cfg)).
    { pose proof (mo_kinds _ _ (main_ok_run cfg t0 sched)) as Hk0.
      apply (f_equal length) in Hk0. rewrite length_fmap in Hk0.
      destruct (m_pc (run cfg t0 sched)); try done; simpl in Hk0;
        by rewrite launched_length in Hk0. }
    set (st := run cfg t0 (sched ++ sched')) in *.
    assert (Hj : ∀ tid, tid < S (n_cpu cfg) → joinable tid (elapse dt st) = true).
    { intros tid Htid. unfold joinable; simpl. unfold st.
      destruct (lookup_lt_is_Some_2 (workers (run cfg t0 sched)) tid) as [w Hw]; [lia|].
      by rewrite (terminated_stays cfg t0 sched sched' tid w Hw (Hterm _ _ Hw)), (Hterm _ _ Hw). }
    unfold step, main; simpl. unfold loop_index_ok in Hi.
    destruct (m_pc st) eqn:Hpc; simpl in *; rewrite ?Hpc; simpl; try done; try lia.
    + rewrite Hc. destruct (seq 0 (n_cpu cfg) !! i) as [t|] eqn:Ht.
      * apply lookup_seq in Ht as [-> Hlt]. simpl in *.
        rewrite Hj by lia. simpl. lia.
      * simpl. lia.
    + rewrite Hg, Hj by lia. simpl. lia.
  - rewrite app_assoc, run_snoc, main_turns_app; simpl.
    destruct (thread_step_view cfg (run cfg t0 (sched ++ sched')) tid dt) as (-> & _).
    lia.
Qed.

(** X6. The program terminates.  Let [main] run its [NUM_CPU_THREADS + 3]
    statements that start the threads; then let every worker run the
    duration plus five statements, in any interleaving, at least one clock
    unit passing before each; then let [main] run [NUM_CPU_THREADS + 4]
    statements: the process has exited with status 0, with any settings. *)
Theorem program_terminates cfg t0 s1 s2 s3 :
  n_cpu cfg + 3 ≤ main_turns s1 →
  (∀ tid, tid ≤ n_cpu cfg →
     paced 1 tid s2 ∧ Z.to_nat (TEST_DURATION_SECONDS cfg) + 5 ≤ turns tid s2) →
  n_cpu cfg + 4 ≤ main_turns s3 →
  exit_status (run cfg t0 (s1 ++ s2 ++ s3)) = Some 0%Z ∧
  ∀ tid w, workers (run cfg t0 (s1 ++ s2 ++ s3)) !! tid = Some w →
    terminated w = true.
Proof.
  intros H1 H2 H3.
  assert (Hp1 : past_launch (m_pc (run cfg t0 s1)) = true)
    by (by apply past_launch_turns).
  assert (Hp2 : past_launch (m_pc (run cfg t0 (s1 ++ s2))) = true).
  { apply past_launch_turns. rewrite main_turns_app. lia. }
  assert (Hlen : ∀ s, past_launch (m_pc (run cfg t0 s)) = true →
            length (workers (run cfg t0 s)) = S (n_cpu cfg)).
  { intros s Hp. pose proof (mo_kinds _ _ (main_ok_run cfg t0 s)) as Hk.
    apply (f_equal length) in Hk. rewrite length_fmap in Hk.
    destruct (m_pc (run cfg t0 s)); try done; simpl in Hk;
      by rewrite launched_length in Hk. }
  assert (Hterm : ∀ tid w, workers (run cfg t0 (s1 ++ s2)) !! tid = Some w →
            terminated w = true).
  { intros tid w Hw. pose proof (lookup_lt_Some _ _ _ Hw) as Hlt.
    rewrite (Hlen _ Hp2) in Hlt.
    destruct (lookup_lt_is_Some_2 (workers (run cfg t0 s1)) tid) as [w1 Hw1].
    { rewrite (Hlen _ Hp1). lia. }
    destruct (H2 tid) as [Hpaced Hturns]; [lia|].
    destruct (paced_worker_stops cfg t0 s1 s2 tid w1 Hw1 Hpaced) as (w' & Hw' & ?).
    { pose proof (paced_left_bound _ _ _ _ _ _ (worker_ok_run _ _ _ _ _ Hw1)). lia. }
    congruence. }
  pose proof (join_left_run cfg t0 (s1 ++ s2) s3 Hp2 Hterm) as Hj.
  rewrite <- app_assoc in Hj.
  assert (Hp3 : past_launch (m_pc (run cfg t0 (s1 ++ s2 ++ s3))) = true).
  { apply past_launch_turns. rewrite !main_turns_app. lia. }
  pose proof (mo_index _ _ (main_ok_run cfg t0 (s1 ++ s2))) as Hi2.
  pose proof (mo_index _ _ (main_ok_run cfg t0 (s1 ++ s2 ++ s3))) as Hi3.
  unfold loop_index_ok in *.
  assert (m_pc (run cfg t0 (s1 ++ s2 ++ s3)) = MExited) as Hex.
  { destruct (m_pc (run cfg t0 (s1 ++ s2))); simpl in *; try done;
      destruct (m_pc (run cfg t0 (s1 ++ s2 ++ s3))); simpl in *; try done; lia. }
  split; [unfold exit_status; by rewrite Hex|].
  intros tid w Hw.
  eapply (all_joined cfg (run cfg t0 (s1 ++ s2 ++ s3))); [apply main_ok_run|by rewrite Hex|done].
Qed.

(** X7. After the exit nothing happens.  Once [main] has returned, further
    scheduling changes nothing but the clock: no line is printed, nothing
    is allocated or drawn, no thread changes, and the exit status stays 0. *)
Theorem nothing_after_exit cfg t0 sched sched' :
  exit_status (run cfg t0 sched) = Some 0%Z →
  let st := run cfg t0 sched in
  let st' := run cfg t0 (sched ++ sched') in
  exit_status st' = Some 0%Z ∧ m_exit st' = m_exit st ∧
  stdout st' = stdout st ∧ heap st' = heap st ∧ workers st' = workers st ∧
  np_draws st' = np_draws st ∧ tf_draws st' = tf_draws st ∧
  step_fn st' = step_fn st.
Proof.
  intros Hex st st'. unfold exit_status in Hex.
  subst st st'. destruct (m_pc (run cfg t0 sched)) eqn:Hpc; try done. clear Hex.
  assert (Hterm : ∀ tid w, workers (run cfg t0 sched) !! tid = Some w →
            terminated w = true).
  { intros tid w Hw.
    eapply (all_joined cfg (run cfg t0 sched)); [apply main_ok_run|by rewrite Hpc|done]. }
  unfold exit_status.
  induction sched' as [|[[|tid] dt] sched' IH] using rev_ind.
  - rewrite app_nil_r. by rewrite Hpc.
  - rewrite app_assoc, run_snoc. destruct IH as (Hp & ? & ? & ? & ? & ? & ? & ?).
    unfold step, main; simpl.
    destruct (m_pc (run cfg t0 (sched ++ sched'))) eqn:Hpc'; try done.
    simpl. by rewrite Hpc'.
  - rewrite app_assoc, run_snoc. destruct IH as (Hp & ? & ? & ? & Hws & ? & ? & ?).
    unfold step; simpl.
    destruct (workers (run cfg t0 (sched ++ sched')) !! tid) as [w|] eqn:Hw; [|done].
    rewrite target_terminated by (eapply Hterm; by rewrite <- Hws).
    simpl. rewrite list_insert_id by done. by rewrite Hws.
Qed.

(** ** The handles of [main] *)

Lemma kinds_lookup (ws : list worker) i k :
  (w_kind <$> ws) !! i = Some k → ∃ w, ws !! i = Some w ∧ w_kind w = k.
Proof.
  rewrite list_lookup_fmap. destruct (ws !! i) as [w|]; [|done].
  intros [= <-]. by exists w.
Qed.

(** X8. [main] holds exactly one handle for each thread it has started, and
    each handle names a thread of the right kind: [cpu_threads] lists the
    CPU threads in the order they were started, [gpu_thread] is the GPU
    thread.  So the joins of lines 49-51 wait for threads that exist, and
    once all threads are started none is left out. *)
Theorem handles_are_valid cfg t0 sched :
  let st := run cfg t0 sched in
  (∀ i t, cpu_threads st !! i = Some t →
     t = i ∧ ∃ w, workers st !! t = Some w ∧ w_kind w = CPU) ∧
  (∀ t, gpu_thread st = Some t →
     t = n_cpu cfg ∧ ∃ w, workers st !! t = Some w ∧ w_kind w = GPU) ∧
  (past_launch (m_pc st) = true →
     length (cpu_threads st) = n_cpu cfg ∧ gpu_thread st = Some (n_cpu cfg) ∧
     ∀ tid w, workers st !! tid = Some w →
       match w_kind w with
       | CPU => cpu_threads st !! tid = Some tid
       | GPU => gpu_thread st = Some tid
       end).
Proof.
  intros st. destruct (main_ok_run cfg t0 sched) as [Hk Hc Hg _ Hi].
  fold st in Hk, Hc, Hg, Hi. unfold loop_index_ok in Hi.
  assert (Hcpu : ∀ i, i < n_cpu cfg → launched cfg !! i = Some CPU).
  { intros i Hlt. unfold launched.
    rewrite lookup_app_l by (rewrite length_replicate; lia).
    by apply lookup_replicate_2. }
  assert (Hgpu : launched cfg !! n_cpu cfg = Some GPU).
  { unfold launched. rewrite lookup_app_r by (rewrite length_replicate; lia).
    by rewrite length_replicate, Nat.sub_diag. }
  split_and!.
  - intros i t Ht. rewrite Hc in Ht.
    assert (t = i ∧ (w_kind <$> workers st) !! i = Some CPU) as [-> Hl].
    { rewrite Hk. destruct (m_pc st); simpl in *; try done;
        apply lookup_seq in Ht as [-> Hlt]; (split; [done|]);
        try (by apply Hcpu); by apply lookup_replicate_2. }
    split; [done|]. by apply kinds_lookup.
  - intros t Ht. rewrite Hg in Ht.
    assert (t = n_cpu cfg ∧ (w_kind <$> workers st) !! t = Some GPU) as [-> Hl].
    { rewrite Hk. destruct (m_pc st); simpl in *; try done;
        injection Ht as <-; by split. }
    split; [done|]. by apply kinds_lookup.
  - intros Hp. rewrite Hc, Hg.
    assert (expected_cpu_threads cfg (m_pc st) = seq 0 (n_cpu cfg) ∧
            expected_gpu_thread cfg (m_pc st) = Some (n_cpu cfg) ∧
            expected_kinds cfg (m_pc st) = launched cfg) as (-> & -> & Hl)
      by (by destruct (m_pc st)).
    rewrite Hl in Hk. split_and!; [by rewrite length_seq|done|].
    intros tid w Hw.
    assert ((w_kind <$> workers st) !! tid = Some (w_kind w)) as Hkw
      by (by rewrite list_lookup_fmap, Hw).
    rewrite Hk in Hkw. pose proof (lookup_lt_Some _ _ _ Hkw) as Hlt.
    rewrite launched_length in Hlt.
    destruct (decide (tid = n_cpu cfg)) as [->|Hne].
    + rewrite Hgpu in Hkw. by injection Hkw as <-.
    + rewrite Hcpu in Hkw by lia. injection Hkw as <-.
      apply lookup_seq. split; [done|lia].
Qed.

Lemma cpu_banner_other :
  cpu_banner ≠ start_banner ∧ cpu_banner ≠ gpu_banner ∧ cpu_banner ≠ done_banner.
Proof. by split_and!. Qed.

(** X9. No CPU threads.  When [NUM_CPU_THREADS] is zero or negative the
    loop of lines 39-42 does not run: the GPU worker is the only thread,
    no CPU banner is ever printed, and the output of a finished run is the
    start line, the GPU banner and the completion line. *)
Theorem no_cpu_threads cfg t0 sched :
  (NUM_CPU_THREADS cfg ≤ 0)%Z →
  let st := run cfg t0 sched in
  cpu_threads st = [] ∧
  (∀ tid w, workers st !! tid = Some w → tid = 0 ∧ w_kind w = GPU) ∧
  (cpu_banner ∉ stdout st) ∧
  (exit_status st = Some 0%Z →
     stdout st = [start_banner; gpu_banner; done_banner]).
Proof.
  intros HN st. destruct (main_ok_run cfg t0 sched) as [Hk Hc _ _ Hi].
  destruct (stdout_ok_run cfg t0 sched) as (mid & Hout & Hmid).
  fold st in Hk, Hc, Hi, Hout, Hmid. unfold loop_index_ok in Hi.
  assert (Hn : n_cpu cfg = 0) by (unfold n_cpu; lia).
  assert (Hkinds : ∀ tid w, workers st !! tid = Some w → tid = 0 ∧ w_kind w = GPU).
  { intros tid w Hw.
    assert ((w_kind <$> workers st) !! tid = Some (w_kind w)) as Hkw
      by (by rewrite list_lookup_fmap, Hw).
    rewrite Hk in Hkw.
    destruct (m_pc st); simpl in *; unfold launched in *; rewrite ?Hn in *;
      simpl in *; try done;
      try (assert (i = 0) as -> by lia; done);
      destruct tid; simpl in *; by simplify_eq. }
  split_and!; try done.
  - rewrite Hc. destruct (m_pc st); simpl in *; rewrite ?Hn; try done.
    by assert (i = 0) as -> by lia.
  - rewrite Hout. destruct cpu_banner_other as (H1 & H2 & H3).
    rewrite !elem_of_app. intros [Hin|[Hin|Hin]].
    + destruct (m_pc st); simpl in Hin;
        first [by apply elem_of_nil in Hin|by apply list_elem_of_singleton in Hin].
    + rewrite Hmid in Hin. apply list_elem_of_bind in Hin as (w & Hin & Hw).
      apply list_elem_of_lookup in Hw as [tid Hw].
      destruct (Hkinds _ _ Hw) as [_ Hg]. unfold shown in Hin. rewrite Hg in Hin.
      destruct (w_pc w); simpl in Hin;
        first [by apply elem_of_nil in Hin|by apply list_elem_of_singleton in Hin].
    + destruct (m_pc st); simpl in Hin;
        first [by apply elem_of_nil in Hin|by apply list_elem_of_singleton in Hin].
  - intros Hex. unfold exit_status in Hex.
    destruct (m_pc st) eqn:Hpc; try done. simpl in *.
    rewrite shown_all in Hmid.
    + rewrite Hk in Hmid. unfold launched in Hmid. rewrite Hn in Hmid. simpl in Hmid.
      apply Permutation_singleton_r in Hmid. by rewrite Hout, Hmid.
    + intros tid w Hw.
      eapply (all_joined cfg st); [apply main_ok_run|by rewrite Hpc|done].
Qed.

(** ** What a worker never undoes *)

Lemma target_progress cfg tid st w st2 w' :
  worker_ok cfg (now st) (steps st) (heap st) tid w →
  target cfg tid st w = (st2, w') →
  (∀ e, w_end_time w = Some e → w_end_time w' = Some e) ∧
  w_iters w ≤ w_iters w' ∧
  w_reads w `suffix_of` w_reads w' ∧
  (is_Some (w_exit w) → w' = w).
Proof.
  intros Hok Ht.
  assert (is_Some (w_exit w) → w' = w) as Hex.
  { intros [[s t] Hx]. destruct (ok_exit _ _ _ _ _ _ Hok _ _ Hx) as (_ & _ & Hterm).
    rewrite target_terminated in Ht by done. congruence. }
  split_and!; [| | |done].
  - destruct Hok as [_ _ _ _ _ _ _ _ Hp]. unfold pc_ok, before_loop in Hp.
    unfold target, cpu_stress, gpu_stress in Ht.
    destruct w as [k p a b e l ts rs it ex]; simpl in *.
    destruct p; destruct k; repeat case_match; simplify_eq/=; try done;
      destruct Hp as (? & ? & ?); by simplify_eq.
  - unfold target, cpu_stress, gpu_stress in Ht.
    destruct w as [k p a b e l ts rs it ex]; simpl in *.
    destruct p; destruct k; repeat case_match; simplify_eq/=; lia.
  - unfold target, cpu_stress, gpu_stress in Ht.
    destruct w as [k p a b e l ts rs it ex]; simpl in *.
    destruct p; destruct k; repeat case_match; simplify_eq/=;
      first [done|by apply suffix_cons_r].
Qed.

(** X10. The deadline is computed once.  Whatever runs afterwards, a worker
    keeps the deadline it has computed, never loses a completed product or
    a clock reading (new readings are added in front), and does not change
    at all once it has an exit stamp. *)
Theorem deadline_is_final cfg t0 sched sched' tid w :
  workers (run cfg t0 sched) !! tid = Some w →
  ∃ w', workers (run cfg t0 (sched ++ sched')) !! tid = Some w' ∧
        w_kind w' = w_kind w ∧ w_started w' = w_started w ∧
        (∀ e, w_end_time w = Some e → w_end_time w' = Some e) ∧
        w_iters w ≤ w_iters w' ∧
        w_reads w `suffix_of` w_reads w' ∧
        (is_Some (w_exit w) → w' = w).
Proof.
  intros Hw. induction sched' as [|e sched' IH] using rev_ind.
  - rewrite app_nil_r. by exists w.
  - destruct IH as (w1 & Hw1 & Hk & Hs & He & Hi & Hr & Hx).
    rewrite app_assoc, run_snoc.
    destruct (step_worker cfg _ e _ _ Hw1) as (w2 & Hw2 & _ & Hturn).
    exists w2. split; [done|].
    destruct (is_turn tid e); [|by subst].
    destruct Hturn as [st2 Ht].
    destruct (target_frame _ _ _ _ _ _ Ht) as (_&_&_&_&_&_&_&_&_& Hk' & Hs' & _).
    pose proof (worker_ok_elapse cfg _ _ _ e.2 (worker_ok_run _ _ _ _ _ Hw1)) as Hok.
    destruct (target_progress _ _ _ _ _ _ Hok Ht) as (He' & Hi' & Hr' & Hx').
    split_and!; [congruence|congruence|by eauto|lia|by etrans|].
    intros Hsome. specialize (Hx Hsome). subst w1. by apply Hx'.
Qed.

(** ** The products of a worker *)

(** A statement of a worker stores nothing, or one matrix, or one product
    that it binds to [_] and counts. *)
Lemma target_alloc cfg tid st w st2 w' :
  target cfg tid st w = (st2, w') →
  (heap st2 = heap st ∧ w_iters w' = w_iters w ∧ w_last w' = w_last w) ∨
  ∃ c, heap st2 = heap st ++ [c] ∧ c_by c = tid ∧
       ((c_role c ≠ Prod ∧ w_iters w' = w_iters w ∧ w_last w' = w_last w) ∨
        (c_role c = Prod ∧ w_iters w' = S (w_iters w) ∧
         w_last w' = Some (length (heap st)))).
Proof.
  intros Ht. target_cases Ht; first [by left|right; eexists; split; [done|]];
    simpl; (split; [done|]); first [by left|by right].
Qed.

Lemma products_of_foreign tid (hs : list (cell F)) :
  Forall (λ c, c_by c ≠ tid) hs → products_of tid hs = [].
Proof.
  unfold products_of. induction 1 as [|c hs Hc _ IH]; [done|].
  rewrite list.filter_cons_False, IH; [done|]. apply Is_true_false.
  unfold is_product_of. by rewrite bool_decide_false by done.
Qed.

Lemma products_of_snoc tid (h : list (cell F)) c :
  products_of tid (h ++ [c]) =
  products_of tid h ++ if is_product_of tid c then [c] else [].
Proof.
  unfold products_of. rewrite list.filter_app. f_equal.
  destruct (is_product_of tid c) eqn:Hc.
  - by rewrite list.filter_cons_True by (by apply Is_true_true).
  - by rewrite list.filter_cons_False by (by apply Is_true_false).
Qed.

Lemma products_ok_run cfg t0 sched tid w :
  workers (run cfg t0 sched) !! tid = Some w →
  products_ok (heap (run cfg t0 sched)) tid w.
Proof.
  intros Hw.
  apply (worker_invariant cfg
           (λ t n h tid w, worker_ok cfg t n h tid w ∧ products_ok h tid w))
    in Hw; [by destruct Hw| | |]; clear.
  - intros t n h t' n' hs tid w Ht Hn Hhs [Hok (Hlen & Hall & Hlast)].
    split; [by eapply worker_ok_stable|]. unfold products_ok, products_of in *.
    rewrite list.filter_app. fold (products_of tid hs).
    rewrite (products_of_foreign tid hs Hhs), app_nil_r. split_and!; [done| |].
    + intros c Hc. destruct (Hall c Hc) as (ra & rb & ca & cb & ? & ? & ? & ? & ?).
      exists ra, rb, ca, cb. split_and!; try done; by apply lookup_app_l_Some.
    + intros r Hr. destruct (Hlast r Hr) as (c & ? & ?). exists c.
      split; [by apply lookup_app_l_Some|done].
  - intros t n h tid k Hh. split; [by apply worker_ok_new|].
    unfold products_ok. rewrite (products_of_foreign tid h Hh). split_and!; [done| |done].
    intros c Hc. by apply elem_of_nil in Hc.
  - intros st tid w st2 w' Hcache [Hok (Hlen & Hall & Hlast)] Ht.
    pose proof (worker_ok_step _ _ _ _ _ _ Hcache Hok Ht) as Hok'.
    split; [done|].
    destruct (target_keeps_matrices _ _ _ _ _ _ Hok Ht) as [Ha Hb].
    destruct (target_frame _ _ _ _ _ _ Ht) as (_&_&_&_&_&_&_&_&_& Hk & _).
    assert (Hold : ∀ c, c ∈ products_of tid (heap st) → ∀ hs,
              ∃ ra rb ca cb, w_a w' = Some ra ∧ w_b w' = Some rb ∧
                (heap st ++ hs) !! ra = Some ca ∧ (heap st ++ hs) !! rb = Some cb ∧
                multiply (w_kind w') (c_val ca) (c_val cb) = Ok (c_val c)).
    { intros c Hc hs. destruct (Hall c Hc) as (ra & rb & ca & cb & ? & ? & ? & ? & ?).
      exists ra, rb, ca, cb. rewrite Hk.
      split_and!; auto using lookup_app_l_Some. }
    unfold products_ok.
    destruct (target_alloc _ _ _ _ _ _ Ht) as [(-> & -> & ->)|(c & Hheap & Hby & Hc)];
      [|rewrite Hheap in *].
    + split_and!; [done| |done]. intros c Hc. specialize (Hold c Hc []).
      by rewrite app_nil_r in Hold.
    + rewrite products_of_snoc.
      assert (is_product_of tid c =
              match c_role c with Prod => true | _ => false end) as ->
        by (unfold is_product_of; by rewrite bool_decide_true).
      destruct Hc as [(Hro & -> & ->)|(Hro & -> & Hl)].
      * assert (match c_role c with Prod => true | _ => false end = false) as ->
          by (by destruct (c_role c)).
        rewrite app_nil_r. split_and!; [done|by intros; apply Hold|].
        intros r Hr. destruct (Hlast r Hr) as (c' & ? & ?). exists c'.
        split; [by apply lookup_app_l_Some|done].
      * rewrite Hro, length_app; simpl. split_and!; [lia| |].
        -- intros c' Hc'. apply elem_of_app in Hc' as [Hc'|Hc']; [by apply Hold|].
           apply list_elem_of_singleton in Hc' as ->.
           destruct (ok_last _ _ _ _ _ _ Hok' _ Hl)
             as (c' & ra & rb & ca & cb & Hlk & _ & _ & ? & ? & ? & ? & ?).
           rewrite lookup_snoc_new in Hlk. injection Hlk as <-.
           by exists ra, rb, ca, cb.
        -- intros r Hr. rewrite Hl in Hr. injection Hr as <-. exists c.
           by rewrite lookup_snoc_new, last_snoc.
Qed.

(** X11. The loop repeats one computation.  The store holds one product of a
    worker for each iteration it has completed; every one of them is the
    product of the worker's two matrices, so all of them are equal, square
    of side [TENSOR_SIZE] and of the element type of the matrices; and [_]
    names the latest. *)
Theorem products_are_repeated cfg t0 sched tid w :
  workers (run cfg t0 sched) !! tid = Some w →
  let h := heap (run cfg t0 sched) in
  length (products_of tid h) = w_iters w ∧
  (∀ c, c ∈ products_of tid h →
     (∃ ra rb ca cb, w_a w = Some ra ∧ w_b w = Some rb ∧
        h !! ra = Some ca ∧ h !! rb = Some cb ∧
        multiply (w_kind w) (c_val ca) (c_val cb) = Ok (c_val c)) ∧
     has_shape (c_val c) (TENSOR_SIZE cfg) (TENSOR_SIZE cfg) ∧
     arr_dtype (c_val c) = dtype_of (w_kind w)) ∧
  (∀ c1 c2, c1 ∈ products_of tid h → c2 ∈ products_of tid h →
     c_val c1 = c_val c2) ∧
  (∀ r, w_last w = Some r →
     ∃ c, h !! r = Some c ∧ list.last (products_of tid h) = Some c).
Proof.
  intros Hw h. destruct (products_ok_run cfg t0 sched tid w Hw) as (Hlen & Hall & Hlast).
  pose proof (worker_ok_run _ _ _ _ _ Hw) as Hok.
  fold h in Hlen, Hall, Hlast, Hok. split_and!; [done| | |done].
  - intros c Hc. split; [by apply Hall|].
    destruct (Hall _ Hc) as (ra & rb & ca & cb & Hra & Hrb & Hca & Hcb & Hm).
    destruct (ok_a _ _ _ _ _ _ Hok _ Hra) as (ca' & Hca' & _ & _ & Hsa & Hda & _).
    destruct (ok_b _ _ _ _ _ _ Hok _ Hrb) as (cb' & Hcb' & _ & _ & Hsb & Hdb & _).
    assert (ca' = ca) as -> by congruence. assert (cb' = cb) as -> by congruence.
    destruct (w_kind w); simpl in *.
    + destruct (np_dot_shape _ _ _ Hsa Hsb) as (m & Hdot & Hs & _).
      rewrite Hdot in Hm. injection Hm as <-. split; [done|].
      unfold np_dot in Hdot. case_decide; [|done]. injection Hdot as <-. simpl.
      by rewrite Hda.
    + unfold gpu_stress_step_py in Hm. simpl in Hm.
      destruct (eager_matmul_shape _ _ _ Hsa Hsb) as (m & Hmul & Hs & Hd);
        [congruence|].
      rewrite Hmul in Hm. injection Hm as <-. split; [done|congruence].
  - intros c1 c2 H1 H2.
    destruct (Hall _ H1) as (ra & rb & ca & cb & ? & ? & ? & ? & Hm1).
    destruct (Hall _ H2) as (ra' & rb' & ca' & cb' & ? & ? & ? & ? & Hm2).
    simplify_eq. congruence.
Qed.

(** ** The random numbers of the matrices *)

(** A step stores nothing, or a product, or a matrix filled with the next
    values of its generator. *)
Lemma target_draws cfg tid st w st2 w' :
  target cfg tid st w = (st2, w') →
  (heap st2 = heap st ∧ ∀ d, drawn d st2 = drawn d st) ∨
  (∃ c, heap st2 = heap st ++ [c] ∧ c_role c = Prod ∧
        ∀ d, drawn d st2 = drawn d st) ∨
  (∃ c d0, heap st2 = heap st ++ [c] ∧ is_matrix d0 c = true ∧
           rows (c_val c) =
             fill (generator d0) (side cfg) (side cfg) (drawn d0 st) ∧
           drawn d0 st2 = drawn d0 st + side cfg * side cfg ∧
           ∀ d, d ≠ d0 → drawn d st2 = drawn d st).
Proof.
  intros Ht. unfold target, cpu_stress, gpu_stress, np_random_rand,
    tf_random_normal in Ht.
  repeat (case_match; simplify_eq/=);
    first [ by left
          | by right; left; eexists; split_and!
          | right; right; eexists _, Float64; split_and!; try done;
            by intros []
          | right; right; eexists _, Float32; split_and!; try done;
            by intros [] ].
Qed.

Lemma step_draws cfg st e :
  (heap (step cfg st e) = heap st ∧ ∀ d, drawn d (step cfg st e) = drawn d st) ∨
  (∃ c, heap (step cfg st e) = heap st ++ [c] ∧ c_role c = Prod ∧
        ∀ d, drawn d (step cfg st e) = drawn d st) ∨
  (∃ c d0, heap (step cfg st e) = heap st ++ [c] ∧ is_matrix d0 c = true ∧
           rows (c_val c) =
             fill (generator d0) (side cfg) (side cfg) (drawn d0 st) ∧
           drawn d0 (step cfg st e) = drawn d0 st + side cfg * side cfg ∧
           ∀ d, d ≠ d0 → drawn d (step cfg st e) = drawn d st).
Proof.
  destruct e as [[|tid] dt]; unfold step; simpl.
  - left. destruct (main_frame cfg (elapse dt st)) as (_ & _ & -> & _).
    destruct (main_keeps_draws cfg (elapse dt st)) as [Hn Ht].
    split; [done|]. by intros []; simpl; rewrite ?Hn, ?Ht.
  - destruct (workers st !! tid) as [w|]; [|left; split; [done|by intros []]].
    destruct (target cfg tid (elapse dt st) w) as [st2 w'] eqn:Ht.
    apply target_draws in Ht. 
    destruct Ht as [[Hh Hd]|[(c & Hh & Hro & Hd)|(c & d0 & Hh & Hm & Hr & Hd0 & Hd)]].
    + left. split; [done|]. intros d. specialize (Hd d). by destruct d.
    + right; left. exists c. split_and!; [done|done|].
      intros d. specialize (Hd d). by destruct d.
    + right; right. exists c, d0. split_and!; try done; by destruct d0.
Qed.

Lemma matrices_of_snoc d (h : list (cell F)) c :
  matrices_of d (h ++ [c]) = matrices_of d h ++ if is_matrix d c then [c] else [].
Proof.
  unfold matrices_of. rewrite list.filter_app. f_equal.
  destruct (is_matrix d c) eqn:Hc.
  - by rewrite list.filter_cons_True by (by apply Is_true_true).
  - by rewrite list.filter_cons_False by (by apply Is_true_false).
Qed.

Lemma is_matrix_unique d d' c : is_matrix d c = true → is_matrix d' c = true → d = d'.
Proof.
  unfold is_matrix. destruct (c_role c); try done;
    intros ?%bool_decide_eq_true ?%bool_decide_eq_true; congruence.
Qed.

Lemma draws_ok_run cfg t0 sched : draws_ok cfg (run cfg t0 sched).
Proof.
  induction sched as [|e sched IH] using rev_ind.
  - split; [by intros []|]. by intros r c d.
  - rewrite run_snoc. destruct IH as [Hcount Hcells].
    set (st := run cfg t0 sched) in *.
    assert (Hold : ∀ c r c0 d, (heap st ++ [c]) !! r = Some c0 →
              is_matrix d c0 = true → is_matrix d c = false →
              rows (c_val c0) = fill (generator d) (side cfg) (side cfg)
                                  (draw_offset cfg d (heap st ++ [c]) r)).
    { intros c r c0 d Hl Hm Hc. apply lookup_snoc in Hl as [Hl|[_ ->]]; [|congruence].
      unfold draw_offset. rewrite take_app_le by eauto using Nat.lt_le_incl, lookup_lt_Some.
      by apply Hcells. }
    destruct (step_draws cfg st e)
      as [[Hh Hd]|[(c & Hh & Hro & Hd)|(c & d0 & Hh & Hm & Hr & Hd0 & Hd)]];
      unfold draws_ok; rewrite Hh.
    + split; [intros d; by rewrite Hd|done].
    + assert (Hc : ∀ d, is_matrix d c = false)
        by (intros d; unfold is_matrix; by rewrite Hro).
      split.
      * intros d. by rewrite Hd, matrices_of_snoc, Hc, app_nil_r.
      * intros r c0 d Hl Hm0. by apply Hold.
    + split.
      * intros d. rewrite matrices_of_snoc. destruct (decide (d = d0)) as [->|Hne].
        -- rewrite Hd0, Hm, length_app, Hcount. simpl. lia.
        -- rewrite Hd by done. destruct (is_matrix d c) eqn:Hc.
           ++ by destruct Hne; eapply is_matrix_unique.
           ++ by rewrite app_nil_r.
      * intros r c0 d Hl Hm0. destruct (is_matrix d c) eqn:Hc; [|by apply Hold].
        assert (d = d0) as -> by (by eapply is_matrix_unique).
        apply lookup_snoc in Hl as [Hl|[-> ->]].
        -- unfold draw_offset.
           rewrite take_app_le by eauto using Nat.lt_le_incl, lookup_lt_Some.
           by apply Hcells.
        -- unfold draw_offset. by rewrite take_app_length, <- Hcount.
Qed.

(** The matrices before an address are fewer than those up to a later one. *)
Lemma draw_offset_grows cfg d (h : list (cell F)) r r' c' :
  r' < r → h !! r' = Some c' → is_matrix d c' = true →
  draw_offset cfg d h r' + side cfg * side cfg ≤ draw_offset cfg d h r.
Proof.
  intros Hlt Hl Hm. unfold draw_offset.
  assert (length (matrices_of d (take r' h)) < length (matrices_of d (take r h))); [|nia].
  rewrite <- (take_drop_middle h r' c' Hl) at 2.
  rewrite take_app_ge by (rewrite length_take; lia).
  rewrite length_take_le by eauto using Nat.lt_le_incl, lookup_lt_Some.
  replace (r - r') with (S (r - r' - 1)) by lia. simpl.
  unfold matrices_of. rewrite list.filter_app, length_app.
  rewrite list.filter_cons_True by (by apply Is_true_true). simpl. lia.
Qed.

Lemma draw_offset_drawn cfg d (h : list (cell F)) r c :
  h !! r = Some c → is_matrix d c = true →
  draw_offset cfg d h r + side cfg * side cfg ≤
    side cfg * side cfg * length (matrices_of d h).
Proof.
  intros Hl Hm. unfold draw_offset.
  assert (length (matrices_of d (take r h)) < length (matrices_of d h)); [|nia].
  rewrite <- (take_drop_middle h r c Hl) at 2.
  unfold matrices_of. rewrite list.filter_app, length_app.
  rewrite list.filter_cons_True by (by apply Is_true_true). simpl. lia.
Qed.

(** X12. No random number is used twice.  Each matrix is filled with the
    next [TENSOR_SIZE * TENSOR_SIZE] values of its library's generator at
    the time it is allocated: the matrix at address [r] holds the values
    from [draw_offset] on, the matrices of one generator take disjoint
    stretches of its stream in the order of their allocation, whichever
    workers they belong to, and the generator has handed out exactly one
    matrix worth of values for each matrix it filled. *)
Theorem random_draws_are_fresh cfg t0 sched :
  let st := run cfg t0 sched in
  let n := side cfg in
  np_draws st = n * n * length (matrices_of Float64 (heap st)) ∧
  tf_draws st = n * n * length (matrices_of Float32 (heap st)) ∧
  ∀ r c d, heap st !! r = Some c → is_matrix d c = true →
    rows (c_val c) = fill (generator d) n n (draw_offset cfg d (heap st) r) ∧
    draw_offset cfg d (heap st) r + n * n ≤ drawn d st ∧
    ∀ r' c', r' < r → heap st !! r' = Some c' → is_matrix d c' = true →
      draw_offset cfg d (heap st) r' + n * n ≤ draw_offset cfg d (heap st) r.
Proof.
  intros st n. destruct (draws_ok_run cfg t0 sched) as [Hcount Hcells].
  fold st in Hcount, Hcells. split_and!.
  - apply (Hcount Float64).
  - apply (Hcount Float32).
  - intros r c d Hl Hm. split_and!.
    + by apply Hcells.
    + rewrite Hcount. by eapply draw_offset_drawn.
    + intros r' c' Hlt Hl' Hm'. by eapply draw_offset_grows.
Qed.

(** ** The trace cache of [gpu_stress_step] *)

Lemma cache_lookup_compatible fn (a b : ndarray F) g :
  cache_ok fn → cache_lookup (spec_of a, spec_of b) (fn_cache fn) = Some g →
  compatible a b.
Proof. intros Hok Hl. by destruct (Hok _ _ _ Hl) as (_ & ? & ?). Qed.

Lemma fn_after_snoc (calls : list (ndarray F * ndarray F)) a b :
  fn_after (calls ++ [(a, b)]) = (gpu_stress_step (fn_after calls) a b).1.
Proof. unfold fn_after. by rewrite foldl_app. Qed.

Lemma fn_after_traces (calls : list (ndarray F * ndarray F)) :
  fn_traces (fn_after calls) ≤ length calls.
Proof.
  induction calls as [|[a b] calls IH] using rev_ind; [done|].
  rewrite fn_after_snoc, length_app; simpl.
  unfold gpu_stress_step, tf_function.
  destruct (cache_lookup _ _); simpl; [lia|].
  by case_match; simpl; lia.
Qed.

(** X13. The trace cache.  Whatever [gpu_stress_step] was called on before:
    a call on tensors that [tf.matmul] accepts leaves their signature in
    the cache, and every later call with that signature runs the cached
    graph without tracing again and returns the eager product; a call on
    tensors that [tf.matmul] rejects raises, counts as a trace and caches
    nothing, so the same call would trace again; and there are never more
    traces than calls. *)
Theorem traced_step_cache (calls : list (ndarray F * ndarray F)) (a b : ndarray F) :
  let fn := fn_after calls in
  let fn1 := (gpu_stress_step fn a b).1 in
  (compatible a b →
     ∀ a' b', spec_of a' = spec_of a → spec_of b' = spec_of b →
       gpu_stress_step fn1 a' b' = (fn1, eager_matmul a' b')) ∧
  (¬ compatible a b →
     (∃ e, (gpu_stress_step fn a b).2 = Raise e) ∧
     fn_cache fn1 = fn_cache fn ∧ fn_traces fn1 = S (fn_traces fn)) ∧
  fn_traces fn ≤ length calls.
Proof.
  intros fn fn1. pose proof (fn_after_ok calls) as Hok. fold fn in Hok.
  split_and!; [| |apply fn_after_traces].
  - intros Hc a' b' Ha Hb.
    assert (cache_lookup (spec_of a', spec_of b') (fn_cache fn1) =
            Some (MatMul (Placeholder 0) (Placeholder 1))) as Hhit.
    { rewrite Ha, Hb. pose proof (gpu_stress_step_traces fn a b Hc) as Htr.
      fold fn1 in Htr. simpl in Htr.
      destruct (cache_lookup (spec_of a, spec_of b) (fn_cache fn)) as [g|] eqn:Hl.
      - rewrite Htr, Hl. by destruct (Hok _ _ _ Hl) as (-> & _).
      - rewrite Htr; simpl. by rewrite decide_True.
    }
    unfold gpu_stress_step at 1, tf_function. by rewrite Hhit.
  - intros Hn. unfold fn1, gpu_stress_step, tf_function.
    destruct (cache_lookup _ _) as [g|] eqn:Hl.
    { destruct Hn. by eapply cache_lookup_compatible. }
    unfold gpu_stress_step_py; simpl. unfold symbolic_matmul, compatible in *; simpl.
    repeat case_decide; simpl; try (by split_and!; eauto).
    by destruct Hn.
Qed.

(** ** The loop and the clock *)

(** X14. The loop runs once for each clock reading below the deadline.  A
    worker reads the clock once for its deadline and once for each
    evaluation of the loop condition, and nowhere else; it has completed
    one product for each reading that was below the deadline (the latest
    of these is still being multiplied when the worker is at line 18), and
    it returns at the first reading that is not. *)
Theorem loop_follows_clock cfg t0 sched tid w :
  workers (run cfg t0 sched) !! tid = Some w →
  match w_end_time w with
  | None => w_reads w = [] ∧ w_iters w = 0
  | Some e =>
      ∃ t1 chk,
        rev (w_reads w) = t1 :: chk ∧ e = (t1 + TEST_DURATION_SECONDS cfg)%Z ∧
        match w_pc w with
        | AtCheck => Forall (λ r, r < e)%Z chk ∧ length chk = w_iters w
        | AtMul => Forall (λ r, r < e)%Z chk ∧ length chk = S (w_iters w)
        | Returned =>
            ∃ below t_ret, chk = below ++ [t_ret] ∧
              Forall (λ r, r < e)%Z below ∧ (e ≤ t_ret)%Z ∧
              length below = w_iters w
        | _ => False
        end
  end.
Proof.
  intros Hw. pose proof (worker_ok_run _ _ _ _ _ Hw) as [_ _ _ _ _ _ _ _ Hp].
  unfold pc_ok, before_loop, in_loop in Hp.
  assert (Hlt : ∀ (chk : list Z) r0,
            Forall (λ r, r0 ≤ r < r0 + TEST_DURATION_SECONDS cfg)%Z chk →
            Forall (λ r, r < r0 + TEST_DURATION_SECONDS cfg)%Z (rev chk)).
  { intros chk r0 Hc. apply Forall_rev. eapply Forall_impl; [|done].
    simpl. intros; lia. }
  destruct (w_pc w).
  1-2: by destruct Hp as (_ & _ & -> & -> & -> & _).
  - by destruct Hp as (_ & _ & -> & -> & -> & _).
  - by destruct Hp as (_ & -> & -> & -> & _).
  - destruct Hp as (chk & r0 & -> & Hlen & (-> & Hc & _) & _).
    exists r0, (rev chk). rewrite rev_app_distr. simpl.
    split_and!; [done|done|by apply Hlt|by rewrite length_rev].
  - destruct Hp as (chk & r0 & -> & Hlen & (-> & Hc & _) & _).
    exists r0, (rev chk). rewrite rev_app_distr. simpl.
    split_and!; [done|done|by apply Hlt|by rewrite length_rev].
  - destruct Hp as (rx & chk & r0 & s & -> & Hlen & (-> & Hc & _) & _ & Hge & _).
    exists r0, (rev chk ++ [rx]). simpl. rewrite rev_app_distr. simpl.
    split_and!; [done|done|]. exists (rev chk), rx.
    split_and!; [done|by apply Hlt|done|by rewrite length_rev].
  - by destruct Hp as (_ & _ & _ & _ & -> & -> & -> & _).
Qed.

End MachineFacts.

(** * The values in the arrays

    Every operation the program applies to an array decides what it does
    from the element type and the shape of its arguments alone, and so does
    the program. *)

Section ValueIndependence.
Context {F1 : Type} `{!Scalar F1, !RandomSource F1}.
Context {F2 : Type} `{!Scalar F2, !RandomSource F2}.
Implicit Types (cfg : config) (w : worker).

Lemma np_random_rand_view d0 d1 k :
  match np_random_rand (F:=F1) d0 d1 k, np_random_rand (F:=F2) d0 d1 k with
  | Ok (m1, k1), Ok (m2, k2) => spec_of m1 = spec_of m2 ∧ k1 = k2
  | Raise e1, Raise e2 => e1 = e2
  | _, _ => False
  end.
Proof. unfold np_random_rand. by destruct (_ || _)%Z. Qed.

Lemma tf_random_normal_view sh k :
  match tf_random_normal (F:=F1) sh k, tf_random_normal (F:=F2) sh k with
  | Ok (m1, k1), Ok (m2, k2) => spec_of m1 = spec_of m2 ∧ k1 = k2
  | Raise e1, Raise e2 => e1 = e2
  | _, _ => False
  end.
Proof. unfold tf_random_normal. destruct sh. by destruct (_ || _)%Z. Qed.

Lemma np_dot_view (a1 b1 : ndarray F1) (a2 b2 : ndarray F2) :
  spec_of a1 = spec_of a2 → spec_of b1 = spec_of b2 →
  match np_dot a1 b1, np_dot a2 b2 with
  | Ok m1, Ok m2 => spec_of m1 = spec_of m2
  | Raise e1, Raise e2 => e1 = e2
  | _, _ => False
  end.
Proof.
  unfold spec_of, np_dot. intros [= Hd Hr Hc] [= Hd' Hr' Hc'].
  rewrite Hd, Hr, Hc, Hd', Hr', Hc'. by case_decide.
Qed.

Lemma eager_matmul_view (a1 b1 : ndarray F1) (a2 b2 : ndarray F2) :
  spec_of a1 = spec_of a2 → spec_of b1 = spec_of b2 →
  match eager_matmul a1 b1, eager_matmul a2 b2 with
  | Ok m1, Ok m2 => spec_of m1 = spec_of m2
  | Raise e1, Raise e2 => e1 = e2
  | _, _ => False
  end.
Proof.
  unfold spec_of, eager_matmul. intros [= Hd Hr Hc] [= Hd' Hr' Hc'].
  rewrite Hd, Hr, Hc, Hd', Hr', Hc'. by repeat case_decide.
Qed.

Lemma run_graph_view g (a1 b1 : ndarray F1) (a2 b2 : ndarray F2) :
  spec_of a1 = spec_of a2 → spec_of b1 = spec_of b2 →
  match run_graph g a1 b1, run_graph g a2 b2 with
  | Ok m1, Ok m2 => spec_of m1 = spec_of m2
  | Raise e1, Raise e2 => e1 = e2
  | _, _ => False
  end.
Proof.
  intros Ha Hb. induction g as [[|[|i]]|x IHx y IHy]; simpl; try done.
  destruct (run_graph x a1 b1) as [x1|], (run_graph x a2 b2) as [x2|];
    simpl; try done.
  destruct (run_graph y a1 b1) as [y1|], (run_graph y a2 b2) as [y2|];
    simpl; try done.
  by apply eager_matmul_view.
Qed.

Lemma gpu_stress_step_view fn (a1 b1 : ndarray F1) (a2 b2 : ndarray F2) :
  spec_of a1 = spec_of a2 → spec_of b1 = spec_of b2 →
  (gpu_stress_step fn a1 b1).1 = (gpu_stress_step fn a2 b2).1 ∧
  match (gpu_stress_step fn a1 b1).2, (gpu_stress_step fn a2 b2).2 with
  | Ok m1, Ok m2 => spec_of m1 = spec_of m2
  | Raise e1, Raise e2 => e1 = e2
  | _, _ => False
  end.
Proof.
  intros Ha Hb. unfold gpu_stress_step, tf_function. rewrite Ha, Hb.
  destruct (cache_lookup _ _) as [g|]; simpl.
  - split; [done|]. by apply run_graph_view.
  - destruct (symbolic_matmul _ _) as [out|e]; simpl; [|done].
    split; [done|]. by apply run_graph_view.
Qed.

Lemma heap_lookup_view (h1 : list (cell F1)) (h2 : list (cell F2)) r :
  cell_view <$> h1 = cell_view <$> h2 →
  match h1 !! r, h2 !! r with
  | Some c1, Some c2 => cell_view c1 = cell_view c2
  | None, None => True
  | _, _ => False
  end.
Proof.
  intros Hh. apply (f_equal (.!! r)) in Hh. rewrite !list_lookup_fmap in Hh.
  destruct (h1 !! r), (h2 !! r); simpl in Hh; try done. congruence.
Qed.

Lemma heap_bind_view (h1 : list (cell F1)) (h2 : list (cell F2)) (o : option nat) :
  cell_view <$> h1 = cell_view <$> h2 →
  match o ≫= (h1 !!.), o ≫= (h2 !!.) with
  | Some c1, Some c2 => spec_of (c_val c1) = spec_of (c_val c2)
  | None, None => True
  | _, _ => False
  end.
Proof.
  intros Hh. destruct o as [r|]; simpl; [|done].
  pose proof (heap_lookup_view h1 h2 r Hh) as Hr.
  destruct (h1 !! r), (h2 !! r); try done. unfold cell_view in Hr. congruence.
Qed.

Lemma heap_length_view (h1 : list (cell F1)) (h2 : list (cell F2)) :
  cell_view <$> h1 = cell_view <$> h2 → length h1 = length h2.
Proof. intros Hh. apply (f_equal length) in Hh. by rewrite !length_fmap in Hh. Qed.

Lemma main_view cfg (st1 : state F1) (st2 : state F2) :
  state_view st1 = state_view st2 →
  state_view (main cfg st1) = state_view (main cfg st2).
Proof.
  destruct st1, st2. unfold state_view; simpl. intros Hv. simplify_eq.
  unfold main, joinable; simpl. repeat case_match; simpl; congruence.
Qed.

Lemma target_view cfg tid (st1 : state F1) (st2 : state F2) w :
  state_view st1 = state_view st2 →
  state_view (target cfg tid st1 w).1 = state_view (target cfg tid st2 w).1 ∧
  (target cfg tid st1 w).2 = (target cfg tid st2 w).2.
Proof.
  destruct st1 as [t n out h1 nd td fn ws mp ct gt mx],
           st2 as [t' n' out' h2 nd' td' fn' ws' mp' ct' gt' mx'].
  unfold state_view; simpl. intros Hv. simplify_eq.
  match goal with H : cell_view <$> h1 = cell_view <$> h2 |- _ => rename H into Hh end.
  pose proof (heap_length_view _ _ Hh) as Hlen.
  unfold target, cpu_stress, gpu_stress, die.
  destruct w as [k p a b e l ts rs it ex]; simpl.
  destruct k, p; simpl; try (split; congruence).
  - pose proof (np_random_rand_view (TENSOR_SIZE cfg) (TENSOR_SIZE cfg) nd') as Hr.
    destruct (np_random_rand _ _ _) as [[m1 k1]|e1],
             (np_random_rand _ _ _) as [[m2 k2]|e2]; try done; simpl.
    + destruct Hr as [Hs ->]. rewrite !fmap_app, Hh, Hlen. simpl.
      unfold cell_view at 2 4; simpl. by rewrite Hs.
    + subst. split; congruence.
  - pose proof (np_random_rand_view (TENSOR_SIZE cfg) (TENSOR_SIZE cfg) nd') as Hr.
    destruct (np_random_rand _ _ _) as [[m1 k1]|e1],
             (np_random_rand _ _ _) as [[m2 k2]|e2]; try done; simpl.
    + destruct Hr as [Hs ->]. rewrite !fmap_app, Hh, Hlen. simpl.
      unfold cell_view at 2 4; simpl. by rewrite Hs.
    + subst. split; congruence.
  - repeat case_match; simpl; split; congruence.
  - pose proof (heap_bind_view h1 h2 a Hh) as Ha.
    pose proof (heap_bind_view h1 h2 b Hh) as Hb.
    destruct (a ≫= (h1 !!.)) as [a1|], (a ≫= (h2 !!.)) as [a2|]; try done;
      [|simpl; split; congruence].
    destruct (b ≫= (h1 !!.)) as [b1|], (b ≫= (h2 !!.)) as [b2|]; try done;
      [|simpl; split; congruence].
    pose proof (np_dot_view _ _ _ _ Ha Hb) as Hd.
    destruct (np_dot (c_val a1) (c_val b1)), (np_dot (c_val a2) (c_val b2));
      try done; simpl.
    + rewrite !fmap_app, Hh, Hlen. simpl. unfold cell_view at 2 4; simpl.
      by rewrite Hd.
    + subst. split; congruence.
  - destruct (_ || _)%Z; simpl; [split; congruence|].
    by rewrite !fmap_app, Hh, Hlen.
  - destruct (_ || _)%Z; simpl; [split; congruence|].
    by rewrite !fmap_app, Hh, Hlen.
  - repeat case_match; simpl; split; congruence.
  - pose proof (heap_bind_view h1 h2 a Hh) as Ha.
    pose proof (heap_bind_view h1 h2 b Hh) as Hb.
    destruct (a ≫= (h1 !!.)) as [a1|], (a ≫= (h2 !!.)) as [a2|]; try done;
      [|simpl; split; congruence].
    destruct (b ≫= (h1 !!.)) as [b1|], (b ≫= (h2 !!.)) as [b2|]; try done;
      [|simpl; split; congruence].
    destruct (gpu_stress_step_view fn' _ _ _ _ Ha Hb) as [Hfn Hd].
    destruct (gpu_stress_step fn' (c_val a1) (c_val b1)) as [fn1 [m1|e1]],
             (gpu_stress_step fn' (c_val a2) (c_val b2)) as [fn2 [m2|e2]];
      simpl in *; try done; subst; simpl.
    + rewrite !fmap_app, Hh, Hlen. simpl. unfold cell_view at 2 4; simpl.
      by rewrite Hd.
    + split; congruence.
Qed.

Lemma step_view cfg (st1 : state F1) (st2 : state F2) e :
  state_view st1 = state_view st2 →
  state_view (step cfg st1 e) = state_view (step cfg st2 e).
Proof.
  intros Hv. destruct e as [who dt].
  assert (Hel : state_view (elapse dt st1) = state_view (elapse dt st2)).
  { unfold state_view in *. simpl. congruence. }
  assert (Hws : workers (elapse dt st1) = workers (elapse dt st2)).
  { unfold state_view in Hel. congruence. }
  unfold step. cbn [fst snd]. cbv zeta. destruct who as [|tid].
  - by apply main_view.
  - rewrite Hws. destruct (workers (elapse dt st2) !! tid) as [w|]; [|done].
    destruct (target_view cfg tid _ _ w Hel) as [Ht Hw].
    destruct (target cfg tid (elapse dt st1) w) as [st1' w1'],
             (target cfg tid (elapse dt st2) w) as [st2' w2']; simpl in *.
    subst w2'. unfold state_view in *. simpl. congruence.
Qed.

(** X15. The values do not matter.  The products are discarded and the
    matrices are never inspected: two runs of the program under the same
    schedule with different random numbers, and even with different
    arithmetic on the elements, go through the same states up to the values
    in the arrays.  They print the same lines, allocate arrays of the same
    element types and shapes at the same times, trace the same graph, and
    their threads are at the same statements with the same clock readings,
    iteration counts and exit stamps. *)
Theorem values_do_not_matter cfg t0 sched :
  state_view (run (F:=F1) cfg t0 sched) = state_view (run (F:=F2) cfg t0 sched).
Proof.
  induction sched as [|e sched IH] using rev_ind; [done|].
  rewrite !run_snoc. by apply step_view.
Qed.

End ValueIndependence.

(** * The properties on concrete runs *)

Section Concrete.
Import Demo.

(** A schedule given in full is paced when each of its entries is. *)
Ltac paced_tac :=
  unfold paced;
  repeat (apply Forall_cons_2; [vm_compute; intros; first [lia|discriminate]|]);
  apply Forall_nil_2.

(** C1 on a complete run of two CPU workers and the GPU worker: [main]
    returns at step 42, after each of the three. *)
Lemma main_waits_for_all_workers_witness :
  m_exit (run small 0 complete) = Some (42, 3%Z) ∧
  ∀ tid w, workers (run small 0 complete) !! tid = Some w →
    ∃ s' t', w_exit w = Some (s', t') ∧ terminated w = true ∧
             s' < 42 ∧ (t' ≤ 3)%Z.
Proof.
  split; [vm_compute; reflexivity|].
  apply (main_waits_for_all_workers small 0 complete). vm_compute; reflexivity.
Defined.

(** While [main] waits in its first join all three workers are alive and in
    their loops, their statements interleaved. *)
Example workers_run_side_by_side :
  let st := run small 0 (take 29 interleaved) in
  m_pc st = MJoinCpu 0 ∧
  w_pc <$> workers st = [AtCheck; AtCheck; AtCheck] ∧
  w_iters <$> workers st = [2; 2; 2].
Proof. vm_compute. by split_and!. Qed.

(** C2, as stated, fails.  A worker started at 0 with duration 3 whose two
    allocations take 10 clock units each and whose one iteration takes 2
    returns at 23, later than 0 + 3 + 2; and a worker with duration -5
    that runs without the clock moving returns at 0, later than
    0 - 5 + 0. *)
Lemma return_later_than_stated :
  (∃ w s t,
     workers (run (one 3 2) 0 slow_alloc) !! 0 = Some w ∧
     w_pc w = Returned ∧ w_exit w = Some (s, t) ∧
     final_iteration w = 2%Z ∧
     (w_started w + TEST_DURATION_SECONDS (one 3 2) + final_iteration w < t)%Z) ∧
  (∃ w s t,
     workers (run (one (-5) 2) 0 five_turns) !! 0 = Some w ∧
     w_pc w = Returned ∧ w_exit w = Some (s, t) ∧
     final_iteration w = 0%Z ∧
     (w_started w + TEST_DURATION_SECONDS (one (-5) 2) + final_iteration w < t)%Z).
Proof.
  split; eexists _, _, _; (split; [vm_compute; reflexivity|]); by vm_compute.
Qed.

(** C2, as amended, on the run with slow allocations: the deadline is
    20 + 3, the one reading of the loop condition before the return is
    below it, the return at 23 is within the final iteration of it.  On a
    worker with deadline 7 whose loop condition is evaluated next at 8, past
    the deadline: it returns there, with exit stamp 8.  And on a worker
    that has not run yet: eight statements with a clock unit or two before
    each, the clock going from 6 to 8, and it has returned. *)
Lemma worker_returns_in_window_witness :
  (∃ w, workers (run (one 3 2) 0 slow_alloc) !! 0 = Some w ∧
        w_pc w = Returned ∧
        ∃ s t_ret t1,
          w_exit w = Some (s, t_ret) ∧ head (w_reads w) = Some t_ret ∧
          list.last (w_reads w) = Some t1 ∧
          w_end_time w = Some (t1 + TEST_DURATION_SECONDS (one 3 2))%Z ∧
          (w_started w ≤ t1 ≤ t_ret)%Z ∧
          (w_started w + TEST_DURATION_SECONDS (one 3 2) ≤ t_ret)%Z ∧
          (t1 + TEST_DURATION_SECONDS (one 3 2) ≤ t_ret)%Z ∧
          (0 ≤ final_iteration w)%Z ∧
          ((0 < TEST_DURATION_SECONDS (one 3 2))%Z ∨ 1 ≤ w_iters w →
             (t_ret < t1 + TEST_DURATION_SECONDS (one 3 2) + final_iteration w)%Z) ∧
          ∃ chk, w_reads w = t_ret :: chk ++ [t1] ∧ length chk = w_iters w ∧
                 Forall (λ r, t1 ≤ r < t1 + TEST_DURATION_SECONDS (one 3 2))%Z chk) ∧
  (∃ w, workers (run (one 3 2) 0 one_product) !! 0 = Some w ∧
        w_pc w = AtCheck ∧ w_end_time w = Some 7%Z ∧
        now (run (one 3 2) 0 one_product) = 6%Z ∧
        ∃ w', workers (run (one 3 2) 0 (one_product ++ [(Thread 0, 2)])) !! 0 =
                Some w' ∧
              w_pc w' = Returned ∧ w_exit w' = Some (11, 8%Z)) ∧
  (∃ w, workers (run (one 3 2) 0 launch_one) !! 0 = Some w ∧
        w_pc w = AtPrint ∧
        ∃ w', workers (run (one 3 2) 0
                         (launch_one ++
                          replicate 6 (Thread 0, 1) ++ [(Thread 0, 2); (Thread 0, 1)]))
                !! 0 = Some w' ∧
              w_pc w' = Returned).
Proof.
  split_and!.
  - let o := eval vm_compute in (workers (run (one 3 2) 0 slow_alloc) !! 0) in
    match o with
    | Some ?w =>
        exists w;
        assert (Hw : workers (run (one 3 2) 0 slow_alloc) !! 0 = Some w)
          by (vm_compute; reflexivity)
    end.
    split; [exact Hw|]. split; [reflexivity|].
    destruct (worker_returns_in_window (one 3 2) 0 slow_alloc 0 _ Hw) as (Hret & _).
    apply Hret. reflexivity.
  - let o := eval vm_compute in (workers (run (one 3 2) 0 one_product) !! 0) in
    match o with
    | Some ?w =>
        exists w;
        assert (Hw : workers (run (one 3 2) 0 one_product) !! 0 = Some w)
          by (vm_compute; reflexivity)
    end.
    split; [exact Hw|]. split; [reflexivity|]. split; [reflexivity|].
    split; [vm_compute; reflexivity|].
    destruct (worker_returns_in_window (one 3 2) 0 one_product 0 _ Hw)
      as (_ & _ & Hcheck & _).
    destruct (Hcheck 7%Z 2 eq_refl eq_refl) as (w' & Hw' & _ & _ & Hthen).
    vm_compute in Hthen. destruct Hthen as [Hpc Hexit].
    exists w'. by split_and!.
  - let o := eval vm_compute in (workers (run (one 3 2) 0 launch_one) !! 0) in
    match o with
    | Some ?w =>
        exists w;
        assert (Hw : workers (run (one 3 2) 0 launch_one) !! 0 = Some w)
          by (vm_compute; reflexivity)
    end.
    split; [exact Hw|]. split; [reflexivity|].
    destruct (worker_returns_in_window (one 3 2) 0 launch_one 0 _ Hw)
      as (_ & _ & _ & _ & Hlive).
    apply Hlive; [done|paced_tac|vm_compute; lia].
Defined.

(** C3, as stated, fails.  With size 0 both allocations succeed and the
    worker multiplies its empty matrices. *)
Lemma zero_size_enters_loop :
  TENSOR_SIZE (one 3 0) = 0%Z ∧
  ∃ w, workers (run (one 3 0) 0 first_product) !! 0 = Some w ∧
       w_pc w = AtCheck ∧ w_iters w = 1 ∧
       w_a w = Some 0 ∧ w_b w = Some 1 ∧ w_last w = Some 2.
Proof.
  split; [done|]. eexists. split; [vm_compute; reflexivity|]. by vm_compute.
Qed.

(** C3, as amended, on a run with size -1: two statements and the worker
    is dead with [ValueError]. *)
Lemma negative_size_raises_witness :
  (TENSOR_SIZE (one 3 (-1)) < 0)%Z ∧
  ∃ w, workers (run (one 3 (-1)) 0 launch_one) !! 0 = Some w ∧
       ∃ w', workers (run (one 3 (-1)) 0 (launch_one ++ replicate 2 (Thread 0, 0)))
               !! 0 = Some w' ∧
             w_pc w' = Raised (alloc_error (w_kind w)).
Proof.
  split; [done|]. eexists. split; [vm_compute; reflexivity|].
  apply (negative_size_raises (one 3 (-1)) 0 launch_one 0);
    [vm_compute; reflexivity|done|vm_compute; lia].
Defined.

(** C4 on two 2x2 matrices, the traced step having served another call
    before. *)
Lemma multiply_step_shape_witness :
  (0 < 2)%Z ∧ has_shape left_matrix 2 2 ∧ has_shape right_matrix 2 2 ∧
  (∃ m, np_dot left_matrix right_matrix = Ok m ∧ has_shape m 2 2) ∧
  (arr_dtype left_matrix = arr_dtype right_matrix →
     ∃ m, (gpu_stress_step (fn_after [(right_matrix, left_matrix)])
             left_matrix right_matrix).2 = Ok m ∧ has_shape m 2 2).
Proof.
  assert (Hl : has_shape left_matrix 2 2) by (by repeat constructor).
  assert (Hr : has_shape right_matrix 2 2) by (by repeat constructor).
  split_and!; [done|done|done|..];
    by apply (multiply_step_shape 2 left_matrix right_matrix
                [(right_matrix, left_matrix)] eq_refl Hl Hr).
Defined.

(** C5 on the interleaved run: the first matrix of worker 0 is the same
    cell with the same rows at the end of the program, and no variable of
    another worker names it. *)
Lemma matrices_private_and_constant_witness :
  ∃ w, workers (run small 0 (take 29 interleaved)) !! 0 = Some w ∧
       w_a w = Some 0 ∧ w_b w = Some 3 ∧
       (∃ c, heap (run small 0 (take 29 interleaved ++ drop 29 complete)) !! 0 = Some c ∧
             rows (c_val c) = [[0; 1]; [2; 3]]%Z) ∧
       ∀ tid' w', tid' ≠ 0 →
         workers (run small 0 (take 29 interleaved)) !! tid' = Some w' →
         w_a w' ≠ Some 0 ∧ w_b w' ≠ Some 0 ∧ w_last w' ≠ Some 0.
Proof.
  let o := eval vm_compute in (workers (run small 0 (take 29 interleaved)) !! 0) in
  match o with
  | Some ?w =>
      exists w;
      assert (Hw : workers (run small 0 (take 29 interleaved)) !! 0 = Some w)
        by (vm_compute; reflexivity)
  end.
  split; [exact Hw|]. split; [reflexivity|]. split; [reflexivity|].
  pose proof (matrices_private_and_constant small 0 (take 29 interleaved) 0 _ Hw)
    as (_ & Hkeep & Hpriv).
  split.
  - let o := eval vm_compute in (heap (run small 0 (take 29 interleaved)) !! 0) in
    match o with
    | Some ?c =>
        exists c;
        assert (Hc : heap (run small 0 (take 29 interleaved)) !! 0 = Some c)
          by (vm_compute; reflexivity)
    end.
    split; [|reflexivity].
    by destruct (Hkeep 0 _ (drop 29 complete) (or_introl eq_refl) Hc) as [Hh _].
  - apply (Hpriv 0). by left.
Defined.

(** C6 on the interleaved run: two products of the GPU worker, one trace,
    one graph in the cache under the signature of two 2x2 float32 tensors;
    and a product computed through the cache. *)
Lemma traced_step_is_matmul_witness :
  (∃ w, workers (run small 0 interleaved) !! 2 = Some w ∧
        w_kind w = GPU ∧ w_iters w = 2) ∧
  fn_traces (step_fn (run small 0 interleaved)) = 1 ∧
  (gpu_stress_step (fn_after [(right_matrix, left_matrix)])
     left_matrix right_matrix).2 =
  Ok (NdArray Float32 2 2 [[2; 1]; [4; 3]]%Z) ∧
  step_fn (run small 0 interleaved) =
    TracedFn [((Float32, 2, 2, (Float32, 2, 2)),
               MatMul (Placeholder 0) (Placeholder 1))] 1 ∧
  cache_lookup (spec_of left_matrix, spec_of right_matrix)
    (fn_cache (gpu_stress_step (fn_after [(right_matrix, left_matrix)])
                 left_matrix right_matrix).1) =
  Some (MatMul (Placeholder 0) (Placeholder 1)).
Proof.
  destruct (traced_step_is_matmul small 0 interleaved)
    as (Hsame & _ & Hgpu & Hcached & _ & Hbuilt).
  let o := eval vm_compute in (workers (run small 0 interleaved) !! 2) in
  match o with
  | Some ?w =>
      assert (Hw : workers (run small 0 interleaved) !! 2 = Some w)
        by (vm_compute; reflexivity)
  end.
  split_and!.
  - eexists. split; [exact Hw|]. by split.
  - eapply (Hgpu 2); [exact Hw|done|simpl; lia].
  - rewrite Hsame; [by vm_compute|by split].
  - by destruct (Hbuilt 2 _ Hw eq_refl ltac:(simpl; lia)) as [-> _].
  - by destruct (Hcached [(right_matrix, left_matrix)] left_matrix right_matrix
                   ltac:(by split)) as [-> _].
Defined.

(** C7 on the first matrix of the GPU worker of the interleaved run. *)
Lemma matrices_are_square_witness :
  ∃ w, workers (run small 0 interleaved) !! 2 = Some w ∧
       (w_a w = Some 2 ∨ w_b w = Some 2) ∧
       TENSOR_SIZE default_config = 2048%Z ∧
       ∃ c, heap (run small 0 interleaved) !! 2 = Some c ∧
            has_shape (c_val c) (TENSOR_SIZE small) (TENSOR_SIZE small) ∧
            arr_dtype (c_val c) =
              match w_kind w with CPU => Float64 | GPU => Float32 end.
Proof.
  eexists. split; [vm_compute; reflexivity|]. split; [by left|].
  apply (matrices_are_square small 0 interleaved 2); [vm_compute; reflexivity|by left].
Defined.

(** C8 on the complete run: exit status 0 and the five lines. *)
Lemma messages_and_exit_witness :
  exit_status (run small 0 complete) = Some 0%Z ∧
  ∃ mid, stdout (run small 0 complete) = start_banner :: mid ++ [done_banner] ∧
         mid ≡ₚ replicate (n_cpu small) cpu_banner ++ [gpu_banner].
Proof.
  split; [vm_compute; reflexivity|].
  apply (messages_and_exit small 0 complete). vm_compute; reflexivity.
Defined.

(** C9 on a run with duration -5: five statements and the worker has
    returned. *)
Lemma nonpositive_duration_skips_loop_witness :
  (TEST_DURATION_SECONDS (one (-5) 2) ≤ 0)%Z ∧ (0 ≤ TENSOR_SIZE (one (-5) 2))%Z ∧
  ∃ w, workers (run (one (-5) 2) 0 launch_one) !! 0 = Some w ∧
       ∃ w', workers (run (one (-5) 2) 0 (launch_one ++ replicate 5 (Thread 0, 0)))
               !! 0 = Some w' ∧
             w_pc w' = Returned.
Proof.
  split; [done|]. split; [done|].
  eexists. split; [vm_compute; reflexivity|].
  destruct (nonpositive_duration_skips_loop (one (-5) 2) 0 launch_one 0 _
              ltac:(done) ltac:(done) eq_refl) as (_ & _ & _ & _ & Hreturns).
  apply Hreturns. vm_compute; lia.
Defined.

(** C10 on the run with slow allocations: allocations at 10 and 20, the
    deadline read at 20. *)
Lemma deadline_excludes_allocation_witness :
  ∃ w, workers (run (one 3 2) 0 slow_alloc) !! 0 = Some w ∧
       w_end_time w = Some 23%Z ∧
       ∃ ra rb ca cb t1,
         w_a w = Some ra ∧ w_b w = Some rb ∧
         heap (run (one 3 2) 0 slow_alloc) !! ra = Some ca ∧
         heap (run (one 3 2) 0 slow_alloc) !! rb = Some cb ∧
         list.last (w_reads w) = Some t1 ∧
         23%Z = (t1 + TEST_DURATION_SECONDS (one 3 2))%Z ∧
         (w_started w ≤ c_at ca ≤ c_at cb)%Z ∧ (c_at cb ≤ t1)%Z ∧
         (w_pc w = Returned →
            ∃ s t_ret, w_exit w = Some (s, t_ret) ∧
                       (TEST_DURATION_SECONDS (one 3 2) ≤ t_ret - t1)%Z).
Proof.
  eexists. split; [vm_compute; reflexivity|]. split; [reflexivity|].
  apply (deadline_excludes_allocation (one 3 2) 0 slow_alloc 0);
    [vm_compute; reflexivity|reflexivity].
Defined.

(** ** The further properties on concrete runs *)

(** X1 on the complete run: started at 0 with duration 3, [main] returns at
    3. *)
Lemma run_lasts_duration_witness :
  (0 ≤ TENSOR_SIZE small)%Z ∧
  m_exit (run small 0 complete) = Some (42, 3%Z) ∧
  (0 + TEST_DURATION_SECONDS small ≤ 3)%Z.
Proof.
  split; [done|]. split; [vm_compute; reflexivity|].
  destruct (run_lasts_duration small 0 complete 42 3) as [Hlast _];
    [done|vm_compute; reflexivity|exact Hlast].
Defined.

(** X2 on a worker with duration 3 that has not run yet: eight statements,
    one clock unit before each, and it has returned. *)
Lemma worker_terminates_witness :
  ∃ w, workers (run (one 3 2) 0 launch_one) !! 0 = Some w ∧
       paced 1 0 (replicate 8 (Thread 0, 1)) ∧
       paced_left (one 3 2) (now (run (one 3 2) 0 launch_one)) w = 8 ∧
       ∃ w', workers (run (one 3 2) 0 (launch_one ++ replicate 8 (Thread 0, 1)))
               !! 0 = Some w' ∧
             terminated w' = true ∧
             ((0 ≤ TENSOR_SIZE (one 3 2))%Z → w_pc w' = Returned).
Proof.
  eexists. split; [vm_compute; reflexivity|].
  assert (Hp : paced 1 0 (replicate 8 (Thread 0, 1))) by paced_tac.
  split; [exact Hp|]. split; [vm_compute; reflexivity|].
  destruct (worker_terminates (one 3 2) 0 launch_one (replicate 8 (Thread 0, 1)) 0 _
              eq_refl Hp ltac:(vm_compute; lia)) as [_ Hstop].
  exact Hstop.
Defined.

(** X3 on the same worker after six statements: one product, and
    1 * (2 * 1 - 1) < 3. *)
Lemma products_bounded_by_duration_witness :
  paced 1 0 one_product ∧
  ∃ w, workers (run (one 3 2) 0 one_product) !! 0 = Some w ∧
       w_iters w = 1 ∧
       (Z.of_nat 1 * (2 * Z.of_nat (w_iters w) - 1) <
          TEST_DURATION_SECONDS (one 3 2))%Z.
Proof.
  assert (Hp : paced 1 0 one_product) by paced_tac.
  split; [exact Hp|].
  let o := eval vm_compute in (workers (run (one 3 2) 0 one_product) !! 0) in
  match o with
  | Some ?w =>
      exists w;
      assert (Hw : workers (run (one 3 2) 0 one_product) !! 0 = Some w)
        by (vm_compute; reflexivity)
  end.
  split; [exact Hw|]. split; [reflexivity|].
  apply (products_bounded_by_duration (one 3 2) 1 0 one_product 0 _ Hp Hw).
  simpl; lia.
Defined.

(** X4 on a run with size -1: exit status 0, an empty store, both workers
    dead with the allocation error. *)
Lemma negative_size_fails_silently_witness :
  (TENSOR_SIZE (one 3 (-1)) < 0)%Z ∧
  exit_status (run (one 3 (-1)) 0 failing) = Some 0%Z ∧
  heap (run (one 3 (-1)) 0 failing) = [] ∧
  (∀ tid w, workers (run (one 3 (-1)) 0 failing) !! tid = Some w →
     w_pc w = Raised (alloc_error (w_kind w)) ∧ w_iters w = 0) ∧
  done_banner ∈ stdout (run (one 3 (-1)) 0 failing).
Proof.
  split; [done|]. split; [vm_compute; reflexivity|].
  destruct (negative_size_fails_silently (one 3 (-1)) 0 failing eq_refl)
    as (Hheap & _ & _ & _ & Hexit & _).
  split; [exact Hheap|].
  destruct (Hexit ltac:(vm_compute; reflexivity)) as (_ & Hall & _).
  split; [exact Hall|]. vm_compute. apply list_elem_of_lookup_2 with 3. reflexivity.
Defined.

(** X6 on two CPU workers and the GPU worker with duration 3: five
    statements of [main], eight rounds of the workers, six statements of
    [main]. *)
Lemma program_terminates_witness :
  n_cpu small + 3 ≤ main_turns (replicate 5 (Main, 0)) ∧
  n_cpu small + 4 ≤ main_turns (replicate 6 (Main, 0)) ∧
  exit_status
    (run small 0 (replicate 5 (Main, 0) ++ fair_rounds ++ replicate 6 (Main, 0))) =
  Some 0%Z.
Proof.
  split; [vm_compute; lia|]. split; [vm_compute; lia|].
  destruct (program_terminates small 0 (replicate 5 (Main, 0)) fair_rounds
              (replicate 6 (Main, 0))) as [Hexit _];
    [vm_compute; lia| |vm_compute; lia|exact Hexit].
  intros tid Htid.
  destruct tid as [|[|[|tid]]]; [| | |vm_compute in Htid; lia];
    (split; [paced_tac|vm_compute; lia]).
Defined.

(** X7 on the complete run: a further turn of thread 0 and of [main] later
    on print nothing. *)
Lemma nothing_after_exit_witness :
  exit_status (run small 0 complete) = Some 0%Z ∧
  stdout (run small 0 (complete ++ [(Thread 0, 5); (Main, 1)])) =
    stdout (run small 0 complete) ∧
  heap (run small 0 (complete ++ [(Thread 0, 5); (Main, 1)])) =
    heap (run small 0 complete).
Proof.
  split; [vm_compute; reflexivity|].
  destruct (nothing_after_exit small 0 complete [(Thread 0, 5); (Main, 1)])
    as (_ & _ & Hout & Hheap & _); [vm_compute; reflexivity|].
  split; [exact Hout|exact Hheap].
Defined.

(** X9 with [NUM_CPU_THREADS = -2]: three lines of output. *)
Lemma no_cpu_threads_witness :
  (NUM_CPU_THREADS gpu_only ≤ 0)%Z ∧
  exit_status (run gpu_only 0 gpu_only_run) = Some 0%Z ∧
  stdout (run gpu_only 0 gpu_only_run) = [start_banner; gpu_banner; done_banner].
Proof.
  split; [done|]. split; [vm_compute; reflexivity|].
  destruct (no_cpu_threads gpu_only 0 gpu_only_run) as (_ & _ & _ & Hout); [done|].
  apply Hout. vm_compute; reflexivity.
Defined.

(** X10 on the worker with one product: two statements and ten clock units
    later its deadline is still 7. *)
Lemma deadline_is_final_witness :
  ∃ w, workers (run (one 3 2) 0 one_product) !! 0 = Some w ∧
       w_end_time w = Some 7%Z ∧
       ∃ w', workers (run (one 3 2) 0 (one_product ++ [(Thread 0, 5); (Thread 0, 5)]))
               !! 0 = Some w' ∧
             w_kind w' = w_kind w ∧ w_started w' = w_started w ∧
             (∀ e, w_end_time w = Some e → w_end_time w' = Some e) ∧
             w_iters w ≤ w_iters w' ∧
             w_reads w `suffix_of` w_reads w' ∧
             (is_Some (w_exit w) → w' = w).
Proof.
  eexists. split; [vm_compute; reflexivity|]. split; [reflexivity|].
  apply (deadline_is_final (one 3 2) 0 one_product [(Thread 0, 5); (Thread 0, 5)] 0).
  vm_compute; reflexivity.
Defined.

(** X11 on the interleaved run: worker 0 has completed three products and
    the store holds three products of it. *)
Lemma products_are_repeated_witness :
  ∃ w, workers (run small 0 interleaved) !! 0 = Some w ∧
       w_iters w = 3 ∧
       length (products_of 0 (heap (run small 0 interleaved))) = w_iters w ∧
       ∀ c1 c2,
         c1 ∈ products_of 0 (heap (run small 0 interleaved)) →
         c2 ∈ products_of 0 (heap (run small 0 interleaved)) →
         c_val c1 = c_val c2.
Proof.
  let o := eval vm_compute in (workers (run small 0 interleaved) !! 0) in
  match o with
  | Some ?w =>
      exists w;
      assert (Hw : workers (run small 0 interleaved) !! 0 = Some w)
        by (vm_compute; reflexivity)
  end.
  split; [exact Hw|]. split; [reflexivity|].
  destruct (products_are_repeated small 0 interleaved 0 _ Hw)
    as (Hlen & _ & Hsame & _).
  split; [exact Hlen|exact Hsame].
Defined.

(** X14 on the returned worker of the run with slow allocations: deadline
    23, one reading below it, the return at 23. *)
Lemma loop_follows_clock_witness :
  ∃ w, workers (run (one 3 2) 0 slow_alloc) !! 0 = Some w ∧
       w_end_time w = Some 23%Z ∧ w_pc w = Returned ∧ w_iters w = 1 ∧
       ∃ t1 below t_ret,
         rev (w_reads w) = t1 :: below ++ [t_ret] ∧
         Forall (λ r, r < 23)%Z below ∧ (23 ≤ t_ret)%Z ∧
         length below = w_iters w.
Proof.
  let o := eval vm_compute in (workers (run (one 3 2) 0 slow_alloc) !! 0) in
  match o with
  | Some ?w =>
      exists w;
      assert (Hw : workers (run (one 3 2) 0 slow_alloc) !! 0 = Some w)
        by (vm_compute; reflexivity)
  end.
  split; [exact Hw|]. split; [reflexivity|]. split; [reflexivity|].
  split; [reflexivity|].
  pose proof (loop_follows_clock (one 3 2) 0 slow_alloc 0 _ Hw) as Hloop.
  simpl in Hloop.
  destruct Hloop as (t1 & chk & Hrev & _ & below & t_ret & -> & Hb & Hge & Hlen).
  by exists t1, below, t_ret.
Defined.

End Concrete.
